(** * DCTopo: the BCube and Fat-Tree topology generators of [DCTopo.py]

    The two constructors [BCubeTopo.__init__] and [FatTreeTopo.__init__] are
    embedded as programs of a small state-and-exception monad over the
    Python frame they run in (the graph [self] and the local variables the
    loops mutate).  Python 2 integers are [Z], [/] and [%] on integers are
    floor division and floor modulus, [xrange] is a list of [Z]. *)

From Stdlib Require Import ZArith List String Ascii Bool Lia.
From Stdlib Require Import DecimalString DecimalZ Finite.
Import ListNotations.

Open Scope Z_scope.

(** ** Python 2 primitives used by the source *)

Module Py.

(** The values a caller may pass for [k], [n] or [r]: an integer, or
    something that is not one.  Integers are unbounded, as Python's are; the
    split of Python 2 between [int] and [long] past the machine word, and
    what [xrange] does there, depend on the platform and are outside the
    model. *)
Inductive value :=
| VInt (z : Z)
| VStr (s : string)
| VNone.

(** [isinstance(v, int)] *)
Definition isinstance_int (v : value) : bool :=
  match v with VInt _ => true | _ => false end.

(** The exception kinds that the source or the operations it calls can
    raise. *)
Inductive exn :=
| TypeError
| ValueError
| ZeroDivisionError
| IndexError
| UnknownNodeError.

(** [str(z)], as ['{}'.format(z)] prints an integer. *)
Definition str (z : Z) : string := NilEmpty.string_of_int (Z.to_int z).

(** [xrange(n)] *)
Definition xrange (n : Z) : list Z := map Z.of_nat (seq 0 (Z.to_nat n)).

(** [xrange(lo, hi)] *)
Definition xrange2 (lo hi : Z) : list Z :=
  map (fun t => lo + Z.of_nat t) (seq 0 (Z.to_nat (hi - lo))).

(** [xrange(start, stop, step)]: a zero step is a [ValueError]. *)
Definition xrange3 (start stop step : Z) : exn + list Z :=
  if step =? 0 then inl ValueError
  else
    let len :=
      if 0 <? step then (stop - start + step - 1) / step
      else (start - stop - step - 1) / (- step) in
    inr (map (fun t => start + Z.of_nat t * step) (seq 0 (Z.to_nat len))).

(** [a / b] and [a // b] on integers. *)
Definition floordiv (a b : Z) : exn + Z :=
  if b =? 0 then inl ZeroDivisionError else inr (a / b).

(** [a % b] on integers. *)
Definition pymod (a b : Z) : exn + Z :=
  if b =? 0 then inl ZeroDivisionError else inr (a mod b).

(** [l[i]]: a negative index counts from the end, anything outside the list
    is an [IndexError]. *)
Definition getitem {A : Type} (l : list A) (i : Z) : exn + A :=
  let j := if i <? 0 then i + Z.of_nat (List.length l) else i in
  if j <? 0 then inl IndexError
  else match nth_error l (Z.to_nat j) with
       | Some x => inr x
       | None => inl IndexError
       end.

End Py.

Import Py.

(** ** The monad of a constructor body

    A computation takes the frame and returns either an exception or a
    value, together with the frame as it is at that point. *)

Definition M (S A : Type) : Type := S -> (exn + A) * S.

Definition ret {S A : Type} (a : A) : M S A := fun s => (inr a, s).

Definition raise {S A : Type} (e : exn) : M S A := fun s => (inl e, s).

Definition bind {S A B : Type} (m : M S A) (f : A -> M S B) : M S B :=
  fun s =>
    match m s with
    | (inl e, s') => (inl e, s')
    | (inr a, s') => f a s'
    end.

Definition lift {S A : Type} (r : exn + A) : M S A := fun s => (r, s).

Definition get {S : Type} : M S S := fun s => (inr s, s).

Definition modify {S : Type} (f : S -> S) : M S unit := fun s => (inr tt, f s).

Declare Scope py_scope.
Delimit Scope py_scope with py.
Notation "x <- m ;; k" := (bind m (fun x => k))
  (at level 61, m at next level, right associativity) : py_scope.
Notation "m ;; k" := (bind m (fun _ => k))
  (at level 61, right associativity) : py_scope.
Open Scope py_scope.

(** [for x in xs: body] *)
Fixpoint for_ {S A : Type} (xs : list A) (body : A -> M S unit) : M S unit :=
  match xs with
  | [] => ret tt
  | x :: xs' => body x ;; for_ xs' body
  end.

(** [if c: raise e] *)
Definition raise_if {S : Type} (c : bool) (e : exn) : M S unit :=
  if c then raise e else ret tt.

(** ** The topology graph *)

Inductive kind := Host | Switch.

Definition kind_eqb (a b : kind) : bool :=
  match a, b with
  | Host, Host | Switch, Switch => true
  | _, _ => false
  end.

Record Topo := mkTopo {
  g_nodes : list (string * kind);
  g_links : list (string * string)
}.

Definition empty_topo : Topo := mkTopo [] [].

Definition has_node (g : Topo) (x : string) : bool :=
  existsb (fun p => String.eqb (fst p) x) (g_nodes g).

(** A frame is any state that holds the graph under construction. *)
Class Frame (S : Type) := {
  self : S -> Topo;
  set_self : Topo -> S -> S
}.

Section TopoOps.
Context {S : Type} `{Frame S}.

(** Modelled from the spec: [Topo.__init__] of the emulator's graph class,
    which is not part of the source file; the graph is created empty. *)
Definition Topo_init : M S unit := modify (set_self empty_topo).

(** Modelled from the spec: [Topo.addHost], which appends a host node with
    the given label and returns the label. *)
Definition addHost (name : string) : M S string :=
  modify (fun s =>
    set_self (mkTopo (g_nodes (self s) ++ [(name, Host)])
                     (g_links (self s))) s) ;;
  ret name.

(** Modelled from the spec: [Topo.addSwitch], the same for a switch. *)
Definition addSwitch (name : string) : M S string :=
  modify (fun s =>
    set_self (mkTopo (g_nodes (self s) ++ [(name, Switch)])
                     (g_links (self s))) s) ;;
  ret name.

(** Modelled from the spec: [Topo.addLink], which fails with
    [UnknownNodeError] when an endpoint was not added before. *)
Definition addLink (a b : string) : M S unit :=
  s <- get ;;
  if has_node (self s) a && has_node (self s) b
  then modify (fun s =>
         set_self (mkTopo (g_nodes (self s))
                          (g_links (self s) ++ [(a, b)])) s)
  else raise UnknownNodeError.

(** Modelled from the spec: [Topo.nodes], the labels of all nodes in the
    order they were added (the enumeration order the specification fixes
    for the graph). *)
Definition nodes : M S (list string) :=
  s <- get ;; ret (map fst (g_nodes (self s))).
End TopoOps.

(** ** Node labels *)

(** ['h{}_{}'.format(a, b)] *)
Definition host_label (a b : Z) : string :=
  ("h" ++ str a ++ "_" ++ str b)%string.

(** ['s{}_{}'.format(level, sid)] *)
Definition switch_label (level sid : Z) : string :=
  ("s" ++ str level ++ "_" ++ str sid)%string.

(** ['c{}'.format(i)], ['a{}'.format(i)], ['e{}'.format(i)] and
    ['h{}'.format(i)] *)
Definition core_label (i : Z) : string := ("c" ++ str i)%string.
Definition aggr_label (i : Z) : string := ("a" ++ str i)%string.
Definition edge_label (i : Z) : string := ("e" ++ str i)%string.
Definition fhost_label (i : Z) : string := ("h" ++ str i)%string.

(** ** BCubeTopo *)

Module BCube.

(** The frame of [BCubeTopo.__init__]: the graph and the counter [sid]. *)
Record frame := mkFrame {
  f_self : Topo;
  sid : Z
}.

#[global] Instance frame_Frame : Frame frame := {|
  self := f_self;
  set_self := fun g s => mkFrame g (sid s)
|}.

Definition set_sid (z : Z) : M frame unit :=
  modify (fun s => mkFrame (f_self s) z).

(** The body of the loop over the hosts of one switch. *)
Definition link_body (sw : string) (nodeslist : list string) (v : Z)
  : M frame unit :=
  x <- lift (getitem nodeslist v) ;;
  addLink sw x.

(** The body of the loop over the switch positions of one level. *)
Definition switch_body (level arg1 arg2 i : Z) : M frame unit :=
  s0 <- get ;;
  sw <- addSwitch (switch_label level (sid s0)) ;;
  a <- lift (pymod i arg1) ;;
  b <- lift (floordiv i arg1) ;;
  let m := a + b * arg2 in
  hosts <- lift (xrange3 m (m + arg2) arg1) ;;
  nodeslist <- nodes ;;
  s1 <- get ;;
  set_sid (sid s1 + 1) ;;
  for_ hosts (link_body sw nodeslist).

(** The body of the loop over the levels. *)
Definition level_body (k n level : Z) : M frame unit :=
  set_sid 0 ;;
  let arg1 := n ^ level in
  let arg2 := n ^ (level + 1) in
  for_ (xrange (n ^ k)) (switch_body level arg1 arg2).

(** The body of the loop that adds the hosts. *)
Definition host_body (n i : Z) : M frame unit :=
  a <- lift (floordiv i n) ;;
  b <- lift (pymod i n) ;;
  addHost (host_label a b) ;;
  ret tt.

(** [BCubeTopo.__init__(self, k, n)].  After validation [k >= 0], so every
    exponent is non-negative and [**] is [Z.pow]. *)
Definition init (kv nv : value) : M frame unit :=
  Topo_init ;;
  raise_if (negb (isinstance_int nv) || negb (isinstance_int kv)) TypeError ;;
  match kv, nv with
  | VInt k, VInt n =>
    raise_if (n <? 1) ValueError ;;
    raise_if (k <? 0) ValueError ;;
    let n_hosts := n ^ (k + 1) in
    for_ (xrange n_hosts) (host_body n) ;;
    for_ (xrange (k + 1)) (level_body k n)
  | _, _ => raise TypeError
  end.

(** The frame a constructor call starts in is irrelevant to the source; the
    generator is run from this one. *)
Definition frame0 : frame := mkFrame empty_topo 0.

(** The outcome and the graph of [BCubeTopo(k, n)]. *)
Definition run (kv nv : value) : (exn + unit) * Topo :=
  let '(r, s) := init kv nv frame0 in (r, f_self s).

End BCube.

(** ** FatTreeTopo *)

Module FatTree.

(** The frame of [FatTreeTopo.__init__]: the graph, the four lists of
    labels and the host counter. *)
Record frame := mkFrame {
  f_self : Topo;
  c : list string;
  a : list string;
  e : list string;
  s : list string;
  count : Z
}.

#[global] Instance frame_Frame : Frame frame := {|
  self := f_self;
  set_self := fun g f => mkFrame g (c f) (a f) (e f) (s f) (count f)
|}.

Definition c_append (x : string) : M frame unit :=
  modify (fun f => mkFrame (f_self f) (c f ++ [x]) (a f) (e f) (s f) (count f)).
Definition a_append (x : string) : M frame unit :=
  modify (fun f => mkFrame (f_self f) (c f) (a f ++ [x]) (e f) (s f) (count f)).
Definition e_append (x : string) : M frame unit :=
  modify (fun f => mkFrame (f_self f) (c f) (a f) (e f ++ [x]) (s f) (count f)).
Definition s_append (x : string) : M frame unit :=
  modify (fun f => mkFrame (f_self f) (c f) (a f) (e f) (s f ++ [x]) (count f)).
Definition set_count (z : Z) : M frame unit :=
  modify (fun f => mkFrame (f_self f) (c f) (a f) (e f) (s f) z).
Definition init_lists : M frame unit :=
  modify (fun f => mkFrame (f_self f) [] [] [] [] (count f)).

(** The parameter validation, in the order of the source. *)
Definition validate (kv rv : value) : M frame (Z * Z) :=
  raise_if (negb (isinstance_int kv)) TypeError ;;
  raise_if (negb (isinstance_int rv)) TypeError ;;
  match kv, rv with
  | VInt k, VInt r =>
    x <- lift (pymod (k / 2) r) ;;
    raise_if (negb (x =? 0)) ValueError ;;
    raise_if ((k <? 1) || (k mod 2 =? 1)) ValueError ;;
    ret (k, r)
  | _, _ => raise TypeError
  end.

Definition core_body (i : Z) : M frame unit :=
  sw <- addSwitch (core_label (i + 1)) ;;
  c_append sw ;;
  s_append sw.

Definition aggr_body (i : Z) : M frame unit :=
  sw <- addSwitch (aggr_label i) ;;
  a_append sw ;;
  s_append sw.

Definition edge_body (j : Z) : M frame unit :=
  sw <- addSwitch (edge_label j) ;;
  e_append sw ;;
  s_append sw.

Definition pod_link_body (aa ee : Z) : M frame unit :=
  f <- get ;;
  x <- lift (getitem (s f) (aa - 1)) ;;
  y <- lift (getitem (s f) (ee - 1)) ;;
  addLink x y.

Definition pod_body (k pod : Z) : M frame unit :=
  f <- get ;;
  let aggr_start_node := Z.of_nat (List.length (s f)) + 1 in
  let aggr_end_node := aggr_start_node + k / 2 in
  let edge_start_node := aggr_end_node in
  let edge_end_node := edge_start_node + k / 2 in
  let aggr_nodes := xrange2 aggr_start_node aggr_end_node in
  let edge_nodes := xrange2 edge_start_node edge_end_node in
  for_ aggr_nodes aggr_body ;;
  for_ edge_nodes edge_body ;;
  for_ aggr_nodes (fun aa => for_ edge_nodes (pod_link_body aa)).

Definition uplink_body (k r n_core core_node pod : Z) : M frame unit :=
  d <- lift (floordiv (k / 2) r) ;;
  q <- lift (floordiv core_node d) ;;
  let aggr_node := n_core + q + k * pod in
  f <- get ;;
  x <- lift (getitem (s f) core_node) ;;
  y <- lift (getitem (s f) aggr_node) ;;
  addLink x y.

Definition host_body (sw : string) (i : Z) : M frame unit :=
  f <- get ;;
  host <- addHost (fhost_label (count f)) ;;
  addLink sw host ;;
  f <- get ;;
  set_count (count f + 1).

(** [FatTreeTopo.__init__(self, k, r)] *)
Definition init (kv rv : value) : M frame unit :=
  init_lists ;;
  Topo_init ;;
  kr <- validate kv rv ;;
  let '(k, r) := kr in
  n_core <- lift (floordiv ((k / 2) ^ 2) r) ;;
  for_ (xrange n_core) core_body ;;
  for_ (xrange k) (pod_body k) ;;
  for_ (xrange n_core) (fun core_node =>
    for_ (xrange k) (uplink_body k r n_core core_node)) ;;
  set_count 1 ;;
  f <- get ;;
  for_ (e f) (fun sw =>
    for_ (xrange (k / 2)) (host_body sw)).

Definition frame0 : frame := mkFrame empty_topo [] [] [] [] 0.

(** The outcome and the final frame of [FatTreeTopo(k, r)]. *)
Definition run (kv rv : value) : (exn + unit) * frame := init kv rv frame0.

End FatTree.

(** ** Observations on a graph *)

Definition count_kind (kd : kind) (g : Topo) : nat :=
  List.length (filter (fun p => kind_eqb (snd p) kd) (g_nodes g)).

Definition labels (g : Topo) : list string := map fst (g_nodes g).

(** The other ends of a link as seen from [x]. *)
Definition link_ends (x : string) (l : string * string) : list string :=
  (if String.eqb (fst l) x then [snd l] else [])
  ++ (if String.eqb (snd l) x then [fst l] else []).

(** The other ends of the links at [x], in creation order. *)
Definition neighbours (g : Topo) (x : string) : list string :=
  flat_map (link_ends x) (g_links g).

(** The number of link ends at node [x]. *)
Definition degree (g : Topo) (x : string) : nat :=
  List.length (neighbours g x).

Definition touches (x : string) (l : string * string) : bool :=
  String.eqb (fst l) x || String.eqb (snd l) x.

(** The links of [g] that have [x] as an end, in creation order. *)
Definition links_of (g : Topo) (x : string) : list (string * string) :=
  filter (touches x) (g_links g).

(** The node at positional index [v] of the node enumeration. *)
Definition node_at (g : Topo) (v : Z) : string :=
  nth (Z.to_nat v) (labels g) ""%string.


(** Two nodes are linked when a link joins them, in either direction. *)
Definition linked (g : Topo) (x y : string) : Prop :=
  In (x, y) (g_links g) \/ In (y, x) (g_links g).


(** ** Closed forms of the generated graphs

    What the loops of the two constructors build, written with [map] and
    [flat_map]; the verification below shows that the constructors compute
    exactly these. *)

(** The label of the host added at iteration [v]. *)
Definition bcube_host (n v : Z) : string := host_label (v / n) (v mod n).

(** The base offset [m] of the switch at position [i] of a level. *)
Definition bcube_base (n level i : Z) : Z :=
  i mod n ^ level + i / n ^ level * n ^ (level + 1).

(** The positional indices [m, m + arg1, ..., m + (n-1) * arg1]. *)
Definition bcube_targets (n level i : Z) : list Z :=
  map (fun j => bcube_base n level i + j * n ^ level) (xrange n).

(** The switch position and the port that reach the host of positional
    index [v] at a level. *)
Definition bcube_pos (n level v : Z) : Z :=
  v / n ^ level / n * n ^ level + v mod n ^ level.
Definition bcube_port (n level v : Z) : Z := (v / n ^ level) mod n.


Definition bcube_switch_links (n level i : Z) : list (string * string) :=
  map (fun v => (switch_label level i, bcube_host n v))
      (bcube_targets n level i).

Definition bcube_hosts (n n_hosts : Z) : list (string * kind) :=
  map (fun v => (bcube_host n v, Host)) (xrange n_hosts).

Definition bcube_level_switches (k n level : Z) : list (string * kind) :=
  map (fun i => (switch_label level i, Switch)) (xrange (n ^ k)).

Definition bcube_level_links (k n level : Z) : list (string * string) :=
  flat_map (bcube_switch_links n level) (xrange (n ^ k)).

Definition bcube_graph (k n : Z) : Topo :=
  mkTopo (bcube_hosts n (n ^ (k + 1))
          ++ flat_map (bcube_level_switches k n) (xrange (k + 1)))
         (flat_map (bcube_level_links k n) (xrange (k + 1))).

(** The closed form of the Fat-Tree, for [nc] core switches. *)

Definition ft_cores (nc : Z) : list string :=
  map (fun i => core_label (i + 1)) (xrange nc).

(** The values of [aggr_nodes] and [edge_nodes] in pod [pod]. *)
Definition ft_aggr_nodes (k nc pod : Z) : list Z :=
  xrange2 (nc + k * pod + 1) (nc + k * pod + 1 + k / 2).

Definition ft_edge_nodes (k nc pod : Z) : list Z :=
  xrange2 (nc + k * pod + 1 + k / 2) (nc + k * pod + 1 + k / 2 + k / 2).

Definition ft_aggrs (k nc pod : Z) : list string :=
  map aggr_label (ft_aggr_nodes k nc pod).

Definition ft_edges (k nc pod : Z) : list string :=
  map edge_label (ft_edge_nodes k nc pod).

Definition ft_pod_switches (k nc pod : Z) : list string :=
  ft_aggrs k nc pod ++ ft_edges k nc pod.

Definition ft_pod_links (k nc pod : Z) : list (string * string) :=
  flat_map (fun aa =>
              map (fun ee => (aggr_label aa, edge_label ee))
                  (ft_edge_nodes k nc pod))
           (ft_aggr_nodes k nc pod).

(** The label of the switch at position [aggr_node] of the switch list. *)
Definition ft_uplink_target (k r nc core_node pod : Z) : string :=
  aggr_label (nc + k * pod + 1 + core_node / (k / 2 / r)).

Definition ft_uplinks (k r nc : Z) : list (string * string) :=
  flat_map (fun cn =>
              map (fun pod => (core_label (cn + 1),
                               ft_uplink_target k r nc cn pod))
                  (xrange k))
           (xrange nc).

Fixpoint ft_host_nodes (h cnt : Z) (es : list string) : list (string * kind) :=
  match es with
  | [] => []
  | _ :: es' =>
    map (fun i => (fhost_label (cnt + i), Host)) (xrange h)
    ++ ft_host_nodes h (cnt + h) es'
  end.

Fixpoint ft_host_links (h cnt : Z) (es : list string)
  : list (string * string) :=
  match es with
  | [] => []
  | sw :: es' =>
    map (fun i => (sw, fhost_label (cnt + i))) (xrange h)
    ++ ft_host_links h (cnt + h) es'
  end.

Definition ft_all_aggrs (k nc : Z) : list string :=
  flat_map (ft_aggrs k nc) (xrange k).

Definition ft_all_edges (k nc : Z) : list string :=
  flat_map (ft_edges k nc) (xrange k).

Definition ft_switches (k nc : Z) : list string :=
  ft_cores nc ++ flat_map (ft_pod_switches k nc) (xrange k).

Definition as_switch (x : string) : string * kind := (x, Switch).

(** The graph and the final frame for [nc] core switches and the uplinks
    [ups]. *)
Definition ft_graph_of (k nc : Z) (ups : list (string * string)) : Topo :=
  mkTopo (map as_switch (ft_switches k nc)
          ++ ft_host_nodes (k / 2) 1 (ft_all_edges k nc))
         (flat_map (ft_pod_links k nc) (xrange k)
          ++ ups
          ++ ft_host_links (k / 2) 1 (ft_all_edges k nc)).

Definition ft_frame_of (k nc : Z) (ups : list (string * string))
  : FatTree.frame :=
  FatTree.mkFrame (ft_graph_of k nc ups) (ft_cores nc) (ft_all_aggrs k nc)
                  (ft_all_edges k nc) (ft_switches k nc)
                  (1 + Z.of_nat (List.length (ft_all_edges k nc)) * (k / 2)).

Definition ft_graph (k r : Z) : Topo :=
  let nc := (k / 2) ^ 2 / r in ft_graph_of k nc (ft_uplinks k r nc).

Definition ft_frame (k r : Z) : FatTree.frame :=
  let nc := (k / 2) ^ 2 / r in ft_frame_of k nc (ft_uplinks k r nc).

(** The frame in which a failed Fat-Tree validation leaves the
    constructor. *)
Definition ft_failed (f0 : FatTree.frame) : FatTree.frame :=
  FatTree.mkFrame empty_topo [] [] [] [] (FatTree.count f0).

(** The three kinds of links of a Fat-Tree with [nc] core switches: inside
    a pod, from the core layer, and to a host. *)
Definition ft_pod_link (k nc : Z) (l : string * string) : Prop :=
  exists pod aa ee,
    0 <= pod < k /\ In aa (ft_aggr_nodes k nc pod)
    /\ In ee (ft_edge_nodes k nc pod)
    /\ l = (aggr_label aa, edge_label ee).

Definition ft_up_link (k r nc : Z) (l : string * string) : Prop :=
  exists cn pod,
    0 <= cn < nc /\ 0 <= pod < k
    /\ l = (core_label (cn + 1), ft_uplink_target k r nc cn pod).

Definition ft_host_link (k nc : Z) (l : string * string) : Prop :=
  In (fst l) (ft_all_edges k nc)
  /\ exists c, snd l = fhost_label c /\ 1 <= c < 1 + k * (k / 2) * (k / 2).

(** * Verification *)

(** ** Loops *)

Section Loops.
Context {S A : Type}.
Implicit Types (body : A -> M S unit) (xs : list A).

(** A loop whose frame after every prefix [done] of the iterations is
    [F done] runs to completion and ends in [F xs]. *)
Lemma for_closed (F : list A -> S) xs body :
  (forall done x rest, xs = done ++ x :: rest ->
     body x (F done) = (inr tt, F (done ++ [x]))) ->
  for_ xs body (F []) = (inr tt, F xs).
Proof.
  intros Hstep.
  assert (G : forall rest done, xs = done ++ rest ->
            for_ rest body (F done) = (inr tt, F xs)).
  { induction rest as [|x rest IH]; intros done E; simpl.
    - rewrite app_nil_r in E. now subst.
    - unfold bind. rewrite (Hstep done x rest E).
      apply IH. now rewrite <- app_assoc. }
  now apply (G xs []).
Qed.

Lemma for_closed_from (F : list A -> S) xs body (s0 : S) :
  s0 = F [] ->
  (forall done x rest, xs = done ++ x :: rest ->
     body x (F done) = (inr tt, F (done ++ [x]))) ->
  for_ xs body s0 = (inr tt, F xs).
Proof. intros ->. apply for_closed. Qed.
End Loops.

(** ** Ranges *)

Lemma xrange_length n : List.length (xrange n) = Z.to_nat n.
Proof. unfold xrange. now rewrite length_map, length_seq. Qed.

Lemma in_xrange n x : In x (xrange n) <-> 0 <= x < n.
Proof.
  unfold xrange. rewrite in_map_iff. split.
  - intros (t & <- & Ht). apply in_seq in Ht. lia.
  - intros Hx. exists (Z.to_nat x). split; [lia|]. apply in_seq. lia.
Qed.

Lemma xrange_NoDup n : NoDup (xrange n).
Proof.
  unfold xrange. apply Injective_map_NoDup.
  - intros x y. apply Nat2Z.inj.
  - apply seq_NoDup.
Qed.

Lemma xrange2_shift lo hi : xrange2 lo hi = map (Z.add lo) (xrange (hi - lo)).
Proof. unfold xrange2, xrange. now rewrite map_map. Qed.

Lemma xrange2_length lo hi : List.length (xrange2 lo hi) = Z.to_nat (hi - lo).
Proof. unfold xrange2. now rewrite length_map, length_seq. Qed.

Lemma in_xrange2 lo hi x : In x (xrange2 lo hi) <-> lo <= x < hi.
Proof.
  rewrite xrange2_shift, in_map_iff. split.
  - intros (t & <- & Ht). apply in_xrange in Ht. lia.
  - intros Hx. exists (x - lo). split; [lia|]. apply in_xrange. lia.
Qed.

Lemma xrange2_NoDup lo hi : NoDup (xrange2 lo hi).
Proof.
  rewrite xrange2_shift. apply Injective_map_NoDup.
  - intros x y. lia.
  - apply xrange_NoDup.
Qed.

(** The element that follows a prefix of a range is the length of the
    prefix. *)
Lemma seq_split_nth start len (done : list nat) x rest :
  seq start len = done ++ x :: rest -> x = (start + List.length done)%nat.
Proof.
  intros E.
  assert (H : nth (List.length done) (seq start len) 0%nat = x).
  { rewrite E, app_nth2, Nat.sub_diag; auto. }
  rewrite seq_nth in H; [lia|].
  apply (f_equal (@List.length nat)) in E.
  rewrite length_seq, length_app in E. simpl in E. lia.
Qed.

Lemma xrange_split n done x rest :
  xrange n = done ++ x :: rest ->
  x = Z.of_nat (List.length done) /\ 0 <= x < n.
Proof.
  intros E. split.
  - unfold xrange in E. apply map_eq_app in E.
    destruct E as (d & r & E & <- & Er).
    apply map_eq_cons in Er. destruct Er as (y & r' & -> & <- & _).
    apply seq_split_nth in E. rewrite length_map. now subst.
  - apply in_xrange. rewrite E. apply in_elt.
Qed.

Lemma xrange3_pos start n step :
  0 < step -> 0 <= n ->
  xrange3 start (start + n * step) step
  = inr (map (fun j => start + j * step) (xrange n)).
Proof.
  intros Hs Hn. unfold xrange3.
  destruct (Z.eqb_spec step 0) as [->|_]; [lia|].
  destruct (Z.ltb_spec 0 step) as [_|]; [|lia].
  replace ((start + n * step - start + step - 1) / step) with n.
  - unfold xrange. now rewrite map_map.
  - apply Z.div_unique with (r := step - 1); lia.
Qed.

Lemma getitem_nth {A : Type} (l : list A) (i : Z) (x : A) :
  0 <= i -> nth_error l (Z.to_nat i) = Some x -> getitem l i = inr x.
Proof.
  intros Hi E. unfold getitem.
  destruct (Z.ltb_spec i 0) as [|_]; [lia|].
  destruct (Z.ltb_spec i 0) as [|_]; [lia|]. now rewrite E.
Qed.

(** ** Lists *)

Lemma flat_map_all_nil {A B : Type} (f : A -> list B) (l : list A) :
  (forall x, In x l -> f x = []) -> flat_map f l = [].
Proof.
  induction l as [|a l IH]; simpl; intros Hf; [reflexivity|].
  rewrite Hf by now left. apply IH. intros x Hx. apply Hf. now right.
Qed.

(** When a single element of a duplicate-free list contributes, the
    concatenation is that contribution. *)
Lemma flat_map_single {A B : Type} (f : A -> list B) (l : list A) (x0 : A) :
  NoDup l -> In x0 l ->
  (forall x, In x l -> x <> x0 -> f x = []) ->
  flat_map f l = f x0.
Proof.
  induction 1 as [|a l Ha Hl IH]; simpl; intros Hin Hf; [easy|].
  destruct Hin as [->|Hin].
  - rewrite flat_map_all_nil, app_nil_r; [reflexivity|].
    intros x Hx. apply Hf; [now right|]. intros ->. contradiction.
  - rewrite Hf; [|now left|intros ->; contradiction]. simpl.
    apply IH; auto.
Qed.

Lemma flat_map_flat_map {A B C : Type} (f : A -> list B) (g : B -> list C) l :
  flat_map g (flat_map f l) = flat_map (fun x => flat_map g (f x)) l.
Proof.
  induction l as [|a l IH]; simpl; [reflexivity|].
  now rewrite flat_map_app, IH.
Qed.

Lemma flat_map_map {A B C : Type} (f : A -> B) (g : B -> list C) l :
  flat_map g (map f l) = flat_map (fun x => g (f x)) l.
Proof. induction l as [|a l IH]; simpl; [reflexivity|]. now rewrite IH. Qed.

Lemma flat_map_singleton {A B : Type} (f : A -> B) l :
  flat_map (fun x => [f x]) l = map f l.
Proof. induction l as [|a l IH]; simpl; [reflexivity|]. now rewrite IH. Qed.

Lemma filter_all {A : Type} (p : A -> bool) (l : list A) :
  (forall x, In x l -> p x = true) -> filter p l = l.
Proof.
  induction l as [|a l IH]; simpl; intros Hp; [reflexivity|].
  rewrite Hp by now left. f_equal. apply IH. intros x Hx. apply Hp. now right.
Qed.

Lemma filter_none {A : Type} (p : A -> bool) (l : list A) :
  (forall x, In x l -> p x = false) -> filter p l = [].
Proof.
  induction l as [|a l IH]; simpl; intros Hp; [reflexivity|].
  rewrite Hp by now left. apply IH. intros x Hx. apply Hp. now right.
Qed.

Lemma nth_error_map_xrange {A : Type} (f : Z -> A) (n i : Z) :
  0 <= i < n -> nth_error (map f (xrange n)) (Z.to_nat i) = Some (f i).
Proof.
  intros Hi. unfold xrange. rewrite map_map.
  rewrite nth_error_map, nth_error_seq.
  destruct (Nat.ltb_spec (Z.to_nat i) (Z.to_nat n)) as [_|]; [|lia].
  simpl. f_equal. f_equal. lia.
Qed.

(** ** Labels are injective *)

Fixpoint free_of (ch : ascii) (s : string) : Prop :=
  match s with
  | EmptyString => True
  | String a s' => a <> ch /\ free_of ch s'
  end.

Lemma str_inj a b : str a = str b -> a = b.
Proof.
  unfold str. intros E.
  apply (f_equal NilEmpty.int_of_string) in E.
  rewrite !NilEmpty.isi in E. injection E as E.
  apply (f_equal Z.of_int) in E. now rewrite !DecimalZ.of_to in E.
Qed.

Lemma uint_free_of_underscore d :
  free_of "_" (NilEmpty.string_of_uint d).
Proof. induction d; simpl; auto; split; auto; discriminate. Qed.

Lemma str_free_of_underscore z : free_of "_" (str z).
Proof.
  unfold str. destruct (Z.to_int z); simpl.
  - apply uint_free_of_underscore.
  - split; [discriminate|apply uint_free_of_underscore].
Qed.

Lemma append_sep_inj ch s1 : forall s2 t1 t2,
  free_of ch s1 -> free_of ch s2 ->
  (s1 ++ String ch t1 = s2 ++ String ch t2)%string ->
  s1 = s2 /\ t1 = t2.
Proof.
  induction s1 as [|a s1 IH]; intros [|b s2] t1 t2 F1 F2 E; simpl in *.
  - injection E as E. auto.
  - injection E as E1 E2. destruct F2 as [F2 _]. congruence.
  - injection E as E1 E2. destruct F1 as [F1 _]. congruence.
  - injection E as E1 E2. destruct F1 as [_ F1], F2 as [_ F2].
    destruct (IH s2 t1 t2 F1 F2 E2) as [-> ->]. subst. auto.
Qed.

Lemma pair_label_inj (p : ascii) a b a' b' :
  String p (str a ++ "_" ++ str b)%string
  = String p (str a' ++ "_" ++ str b')%string -> a = a' /\ b = b'.
Proof.
  intros E. injection E as E.
  apply append_sep_inj in E; try apply str_free_of_underscore.
  destruct E as [Ea Eb]. split; now apply str_inj.
Qed.

Lemma host_label_inj a b a' b' :
  host_label a b = host_label a' b' -> a = a' /\ b = b'.
Proof. apply pair_label_inj. Qed.

Lemma switch_label_inj l i l' i' :
  switch_label l i = switch_label l' i' -> l = l' /\ i = i'.
Proof. apply pair_label_inj. Qed.

Lemma host_switch_label a b l i : host_label a b <> switch_label l i.
Proof. discriminate. Qed.

Lemma core_label_inj i j : core_label i = core_label j -> i = j.
Proof. intros E. injection E as E. now apply str_inj. Qed.

Lemma aggr_label_inj i j : aggr_label i = aggr_label j -> i = j.
Proof. intros E. injection E as E. now apply str_inj. Qed.

Lemma edge_label_inj i j : edge_label i = edge_label j -> i = j.
Proof. intros E. injection E as E. now apply str_inj. Qed.

Lemma fhost_label_inj i j : fhost_label i = fhost_label j -> i = j.
Proof. intros E. injection E as E. now apply str_inj. Qed.

(** ** Membership in the graph *)

Lemma has_node_In g x : has_node g x = true <-> In x (labels g).
Proof.
  unfold has_node, labels. rewrite existsb_exists, in_map_iff. split.
  - intros (p & Hp & E). apply String.eqb_eq in E. eauto.
  - intros (p & E & Hp). exists p. split; auto. now apply String.eqb_eq.
Qed.

(** ** BCube: arithmetic of the stride scheme *)

Section BCubeArith.
Variables k n : Z.
Hypothesis Hk : 0 <= k.
Hypothesis Hn : 1 <= n.

Lemma pow_level_pos level : 0 <= level -> 0 < n ^ level.
Proof. intros. apply Z.pow_pos_nonneg; lia. Qed.

Lemma pow_plus1 e : 0 <= e -> n ^ (e + 1) = n * n ^ e.
Proof. intros. now rewrite Z.pow_add_r, Z.pow_1_r, Z.mul_comm by lia. Qed.

Lemma pow_level_split level :
  0 <= level <= k -> n ^ k = n ^ level * n ^ (k - level).
Proof. intros. rewrite <- Z.pow_add_r by lia. f_equal. lia. Qed.

(** Every positional index the wiring loop uses is the index of a host. *)
Lemma bcube_target_bound level i j :
  0 <= level <= k -> 0 <= i < n ^ k -> 0 <= j < n ->
  0 <= bcube_base n level i + j * n ^ level < n ^ (k + 1).
Proof.
  intros Hl Hi Hj. unfold bcube_base.
  rewrite !pow_plus1 by lia.
  pose proof (pow_level_pos level ltac:(lia)) as HA.
  pose proof (pow_level_pos (k - level) ltac:(lia)) as HC.
  rewrite (pow_level_split level Hl) in *.
  set (A := n ^ level) in *. set (C := n ^ (k - level)) in *.
  pose proof (Z.div_mod i A ltac:(lia)) as Hdm.
  pose proof (Z.mod_pos_bound i A HA) as Hr.
  set (q := i / A) in *. set (r := i mod A) in *.
  assert (0 <= q < C) by nia.
  split; [nia|].
  assert (q * n + j <= C * n - 1) by nia.
  nia.
Qed.

Lemma bcube_target_inv level i j :
  0 <= level -> 0 <= i -> 0 <= j < n ->
  let v := bcube_base n level i + j * n ^ level in
  bcube_pos n level v = i /\ bcube_port n level v = j.
Proof.
  intros Hl Hi Hj v. subst v. unfold bcube_base, bcube_pos, bcube_port.
  rewrite !pow_plus1 by lia.
  pose proof (pow_level_pos level Hl) as HA.
  set (A := n ^ level) in *.
  pose proof (Z.div_mod i A ltac:(lia)) as Hdm.
  pose proof (Z.mod_pos_bound i A HA) as Hr.
  set (q := i / A) in *. set (r := i mod A) in *.
  assert (Hq : 0 <= q) by nia.
  replace (r + q * (n * A) + j * A) with (r + (q * n + j) * A) by ring.
  rewrite Z.div_add, Z.mod_add by lia.
  rewrite (Z.div_small r A), (Z.mod_small r A) by lia.
  rewrite Z.add_0_l.
  rewrite Z.div_add_l, (Z.add_comm (q * n) j), Z.mod_add by lia.
  rewrite (Z.div_small j n), (Z.mod_small j n) by lia.
  split; lia.
Qed.

Lemma bcube_pos_port level v :
  0 <= level <= k -> 0 <= v < n ^ (k + 1) ->
  0 <= bcube_pos n level v < n ^ k /\ 0 <= bcube_port n level v < n /\
  bcube_base n level (bcube_pos n level v) + bcube_port n level v * n ^ level = v.
Proof.
  intros Hl Hv. unfold bcube_base, bcube_pos, bcube_port.
  rewrite !pow_plus1 in * by lia.
  pose proof (pow_level_pos level ltac:(lia)) as HA.
  pose proof (pow_level_pos (k - level) ltac:(lia)) as HC.
  rewrite (pow_level_split level Hl) in *.
  set (A := n ^ level) in *. set (C := n ^ (k - level)) in *.
  pose proof (Z.div_mod v A ltac:(lia)) as Hdm.
  pose proof (Z.mod_pos_bound v A HA) as Hr.
  set (w := v / A) in *. set (r := v mod A) in *.
  pose proof (Z.div_mod w n ltac:(lia)) as Hdm'.
  pose proof (Z.mod_pos_bound w n ltac:(lia)) as Hr'.
  set (q := w / n) in *. set (j := w mod n) in *.
  assert (0 <= w < n * C) by nia.
  assert (0 <= q < C) by nia.
  rewrite (Z.add_comm (q * A) r), Z.mod_add, Z.div_add by lia.
  rewrite (Z.div_small r A), (Z.mod_small r A) by lia.
  split; [nia|]. split; [lia|]. nia.
Qed.

Lemma bcube_host_inj v w :
  bcube_host n v = bcube_host n w -> v = w.
Proof.
  unfold bcube_host. intros E. apply host_label_inj in E.
  destruct E as [Ed Em].
  rewrite (Z.div_mod v n), (Z.div_mod w n) by lia. congruence.
Qed.
End BCubeArith.

(** ** Stepping through a constructor body *)

Lemma pymod_nz a b : b <> 0 -> pymod a b = inr (a mod b).
Proof. intros Hb. unfold pymod. now destruct (Z.eqb_spec b 0). Qed.

Lemma floordiv_nz a b : b <> 0 -> floordiv a b = inr (a / b).
Proof. intros Hb. unfold floordiv. now destruct (Z.eqb_spec b 0). Qed.

Lemma addLink_ok {S : Type} `{Frame S} (x y : string) (f : S) :
  In x (labels (self f)) -> In y (labels (self f)) ->
  addLink x y f
  = (inr tt, set_self (mkTopo (g_nodes (self f))
                              (g_links (self f) ++ [(x, y)])) f).
Proof.
  intros Hx Hy. unfold addLink, bind, get.
  apply has_node_In in Hx, Hy. now rewrite Hx, Hy.
Qed.

Ltac mred :=
  cbv beta iota zeta delta
    [bind ret raise lift get modify raise_if addHost addSwitch nodes
     Topo_init self set_self g_nodes g_links
     BCube.frame_Frame BCube.set_sid BCube.f_self BCube.sid
     FatTree.frame_Frame FatTree.f_self FatTree.c FatTree.a FatTree.e
     FatTree.s FatTree.count FatTree.c_append FatTree.a_append
     FatTree.e_append FatTree.s_append FatTree.set_count
     FatTree.init_lists].

(** ** BCube: the constructor computes the closed form *)

Section BCubeRun.
Variables k n : Z.
Hypothesis Hk : 0 <= k.
Hypothesis Hn : 1 <= n.

Let N := n ^ (k + 1).

Lemma bcube_host_loop sidv :
  for_ (xrange N) (BCube.host_body n) (BCube.mkFrame empty_topo sidv)
  = (inr tt, BCube.mkFrame (mkTopo (bcube_hosts n N) []) sidv).
Proof.
  apply for_closed_from with
    (F := fun done => BCube.mkFrame
            (mkTopo (map (fun v => (bcube_host n v, Host)) done) []) sidv).
  - reflexivity.
  - intros done x rest _. unfold BCube.host_body.
    rewrite pymod_nz, floordiv_nz by lia. mred.
    now rewrite map_app.
Qed.

Lemma bcube_getitem rest v :
  0 <= v < N ->
  getitem (map fst (bcube_hosts n N ++ rest)) v = inr (bcube_host n v).
Proof.
  intros Hv. apply getitem_nth; [lia|].
  unfold bcube_hosts. rewrite map_app, map_map. cbn [fst].
  rewrite nth_error_app1.
  - now apply (nth_error_map_xrange (bcube_host n)).
  - rewrite length_map, xrange_length. lia.
Qed.

Lemma bcube_host_In rest v :
  0 <= v < N -> In (bcube_host n v) (map fst (bcube_hosts n N ++ rest)).
Proof.
  intros Hv. rewrite map_app. apply in_or_app. left.
  unfold bcube_hosts. rewrite map_map. cbn [fst].
  apply in_map. now apply in_xrange.
Qed.

Lemma bcube_link_loop rest links sidv sw targets :
  (forall v, In v targets -> 0 <= v < N) ->
  In sw (map fst rest) ->
  for_ targets (BCube.link_body sw (map fst (bcube_hosts n N ++ rest)))
    (BCube.mkFrame (mkTopo (bcube_hosts n N ++ rest) links) sidv)
  = (inr tt,
     BCube.mkFrame
       (mkTopo (bcube_hosts n N ++ rest)
               (links ++ map (fun v => (sw, bcube_host n v)) targets))
       sidv).
Proof.
  intros Hb Hsw.
  apply for_closed_from with
    (F := fun done => BCube.mkFrame
            (mkTopo (bcube_hosts n N ++ rest)
                    (links ++ map (fun v => (sw, bcube_host n v)) done))
            sidv).
  - now rewrite app_nil_r.
  - intros done x rest' E.
    assert (Hx : 0 <= x < N) by (apply Hb; rewrite E; apply in_elt).
    unfold BCube.link_body. rewrite bcube_getitem by assumption.
    unfold bind at 1. unfold lift.
    rewrite addLink_ok.
    + mred. now rewrite map_app, <- app_assoc.
    + unfold labels. mred. rewrite map_app. apply in_or_app. now right.
    + unfold labels. mred. now apply bcube_host_In.
Qed.

Lemma bcube_xrange3 level i :
  0 <= level ->
  xrange3 (bcube_base n level i) (bcube_base n level i + n ^ (level + 1))
          (n ^ level)
  = inr (bcube_targets n level i).
Proof.
  intros Hl. rewrite (pow_plus1 n level Hl).
  apply xrange3_pos; [|lia]. apply pow_level_pos; lia.
Qed.

Lemma bcube_switch_body level i rest links :
  0 <= level <= k -> 0 <= i < n ^ k ->
  BCube.switch_body level (n ^ level) (n ^ (level + 1)) i
    (BCube.mkFrame (mkTopo (bcube_hosts n N ++ rest) links) i)
  = (inr tt,
     BCube.mkFrame
       (mkTopo (bcube_hosts n N ++ rest ++ [(switch_label level i, Switch)])
               (links ++ bcube_switch_links n level i))
       (i + 1)).
Proof.
  intros Hl Hi. unfold BCube.switch_body.
  pose proof (pow_level_pos n Hn level ltac:(lia)) as HA.
  rewrite pymod_nz, floordiv_nz by lia. mred.
  fold (bcube_base n level i). rewrite bcube_xrange3 by lia.
  rewrite <- app_assoc.
  rewrite bcube_link_loop.
  - reflexivity.
  - intros v Hv. unfold bcube_targets in Hv. apply in_map_iff in Hv.
    destruct Hv as (j & <- & Hj). apply in_xrange in Hj.
    now apply bcube_target_bound.
  - rewrite map_app. apply in_or_app. right. now left.
Qed.

Lemma bcube_level_body level rest links sidv :
  0 <= level <= k ->
  BCube.level_body k n level
    (BCube.mkFrame (mkTopo (bcube_hosts n N ++ rest) links) sidv)
  = (inr tt,
     BCube.mkFrame
       (mkTopo (bcube_hosts n N ++ rest ++ bcube_level_switches k n level)
               (links ++ bcube_level_links k n level))
       (n ^ k)).
Proof.
  intros Hl. unfold BCube.level_body. mred.
  pose (F := fun done : list Z =>
    BCube.mkFrame
      (mkTopo (bcube_hosts n N ++ rest
               ++ map (fun i => (switch_label level i, Switch)) done)
              (links ++ flat_map (bcube_switch_links n level) done))
      (Z.of_nat (List.length done))).
  transitivity (@inr exn unit tt, F (xrange (n ^ k))).
  - apply for_closed_from.
    + unfold F. simpl. now rewrite !app_nil_r.
    + intros done x rest' E. apply xrange_split in E.
      destruct E as [Ex Hx]. unfold F. rewrite <- Ex.
      rewrite bcube_switch_body by assumption.
      rewrite map_app, flat_map_app, length_app. simpl.
      rewrite !app_nil_r, <- !app_assoc.
      do 2 f_equal. lia.
  - unfold F, bcube_level_switches, bcube_level_links.
    rewrite xrange_length. do 2 f_equal.
    pose proof (pow_level_pos n Hn k Hk). lia.
Qed.

(** For valid parameters the constructor runs to completion, from any
    frame, and leaves exactly the closed form in [self]. *)
Lemma bcube_init_ok (f0 : BCube.frame) :
  BCube.init (VInt k) (VInt n) f0
  = (inr tt, BCube.mkFrame (bcube_graph k n) (n ^ k)).
Proof.
  unfold BCube.init. cbn [isinstance_int negb orb].
  destruct (Z.ltb_spec n 1) as [|_]; [lia|].
  destruct (Z.ltb_spec k 0) as [|_]; [lia|].
  mred. fold N. fold empty_topo. rewrite bcube_host_loop.
  pose (F := fun done : list Z =>
    BCube.mkFrame
      (mkTopo (bcube_hosts n N ++ flat_map (bcube_level_switches k n) done)
              (flat_map (bcube_level_links k n) done))
      (match done with [] => BCube.sid f0 | _ => n ^ k end)).
  transitivity (@inr exn unit tt, F (xrange (k + 1))).
  - apply for_closed_from.
    + unfold F. simpl. now rewrite app_nil_r.
    + intros done x rest' E. apply xrange_split in E.
      destruct E as [_ Hx]. unfold F.
      rewrite bcube_level_body by lia.
      rewrite !flat_map_app. simpl. rewrite !app_nil_r.
      now destruct done.
  - unfold F, bcube_graph. fold N.
    destruct (xrange (k + 1)) eqn:E; [|reflexivity].
    apply (f_equal (@List.length Z)) in E.
    rewrite xrange_length in E. simpl in E. lia.
Qed.

Lemma bcube_run_ok :
  BCube.run (VInt k) (VInt n) = (inr tt, bcube_graph k n).
Proof. unfold BCube.run. now rewrite bcube_init_ok. Qed.
End BCubeRun.

(** ** Links seen from a node *)

Lemma flat_map_ext_in {A B : Type} (f g : A -> list B) (l : list A) :
  (forall x, In x l -> f x = g x) -> flat_map f l = flat_map g l.
Proof.
  induction l as [|a l IH]; simpl; intros Hfg; [reflexivity|].
  rewrite Hfg by now left. f_equal. apply IH. intros x Hx. apply Hfg. now right.
Qed.

Lemma map_flat_map {A B C : Type} (f : B -> C) (g : A -> list B) l :
  map f (flat_map g l) = flat_map (fun x => map f (g x)) l.
Proof.
  induction l as [|a l IH]; simpl; [reflexivity|].
  now rewrite map_app, IH.
Qed.

Lemma filter_as_flat_map {A : Type} (p : A -> bool) (l : list A) :
  filter p l = flat_map (fun x => if p x then [x] else []) l.
Proof.
  induction l as [|a l IH]; simpl; [reflexivity|].
  rewrite IH. now destruct (p a).
Qed.

Lemma NoDup_flat_map {A B : Type} (f : A -> list B) (l : list A) :
  NoDup l ->
  (forall x, In x l -> NoDup (f x)) ->
  (forall x y z, In x l -> In y l -> In z (f x) -> In z (f y) -> x = y) ->
  NoDup (flat_map f l).
Proof.
  induction 1 as [|a l Ha Hl IH]; simpl; intros Hf Hd; [constructor|].
  apply NoDup_app.
  - apply Hf. now left.
  - apply IH.
    + intros x Hx. apply Hf. now right.
    + intros x y z Hx Hy. apply Hd; now right.
  - intros z Hz Hz'. apply in_flat_map in Hz'. destruct Hz' as (y & Hy & Hzy).
    assert (a = y) by (apply (Hd a y z); simpl; auto).
    subst. contradiction.
Qed.

Lemma link_ends_fst x y : y <> x -> link_ends x (x, y) = [y].
Proof.
  intros H. unfold link_ends. cbn [fst snd].
  rewrite String.eqb_refl. apply String.eqb_neq in H. now rewrite H.
Qed.

Lemma link_ends_snd x y : y <> x -> link_ends x (y, x) = [y].
Proof.
  intros H. unfold link_ends. cbn [fst snd].
  rewrite String.eqb_refl. apply String.eqb_neq in H. now rewrite H.
Qed.

Lemma link_ends_none x a b : a <> x -> b <> x -> link_ends x (a, b) = [].
Proof.
  intros Ha Hb. unfold link_ends. cbn [fst snd].
  apply String.eqb_neq in Ha, Hb. now rewrite Ha, Hb.
Qed.

Lemma touches_fst x y : touches x (x, y) = true.
Proof. unfold touches. cbn [fst snd]. now rewrite String.eqb_refl. Qed.

Lemma touches_none x a b : a <> x -> b <> x -> touches x (a, b) = false.
Proof.
  intros Ha Hb. unfold touches. cbn [fst snd].
  apply String.eqb_neq in Ha, Hb. now rewrite Ha, Hb.
Qed.

(** ** BCube: nodes, neighbours and degrees of the closed form *)

Section BCubeGraph.
Variables k n : Z.
Hypothesis Hk : 0 <= k.
Hypothesis Hn : 1 <= n.

Let N := n ^ (k + 1).
Let g := bcube_graph k n.

Lemma bcube_switch_labels_NoDup :
  NoDup (map fst (flat_map (bcube_level_switches k n) (xrange (k + 1)))).
Proof.
  rewrite map_flat_map. apply NoDup_flat_map.
  - apply xrange_NoDup.
  - intros l _. unfold bcube_level_switches. rewrite map_map. cbn [fst].
    apply Injective_map_NoDup; [|apply xrange_NoDup].
    intros i j E. now apply switch_label_inj in E.
  - intros l l' z _ _. unfold bcube_level_switches.
    rewrite !map_map. cbn [fst]. rewrite !in_map_iff.
    intros (i & <- & _) (j & E & _). now apply switch_label_inj in E.
Qed.

Lemma bcube_labels :
  labels g = map (bcube_host n) (xrange N)
             ++ map fst (flat_map (bcube_level_switches k n) (xrange (k + 1))).
Proof.
  unfold labels, g, bcube_graph. cbn [g_nodes].
  rewrite map_app. unfold bcube_hosts. now rewrite map_map.
Qed.

Lemma bcube_switch_label_In x :
  In x (map fst (flat_map (bcube_level_switches k n) (xrange (k + 1)))) ->
  exists level i, x = switch_label level i /\
                  0 <= level <= k /\ 0 <= i < n ^ k.
Proof.
  rewrite in_map_iff. intros ([y kd] & <- & Hy).
  apply in_flat_map in Hy. destruct Hy as (level & Hl & Hy).
  unfold bcube_level_switches in Hy. apply in_map_iff in Hy.
  destruct Hy as (i & [= <- <-] & Hi).
  apply in_xrange in Hl, Hi. exists level, i. repeat split; lia.
Qed.

Lemma bcube_labels_NoDup : NoDup (labels g).
Proof.
  rewrite bcube_labels. apply NoDup_app.
  - apply Injective_map_NoDup; [|apply xrange_NoDup].
    intros v w. now apply bcube_host_inj.
  - apply bcube_switch_labels_NoDup.
  - intros x Hx Hx'. apply in_map_iff in Hx. destruct Hx as (v & <- & _).
    apply bcube_switch_label_In in Hx'. destruct Hx' as (l & i & E & _).
    now apply host_switch_label in E.
Qed.

Lemma bcube_count_hosts : Z.of_nat (count_kind Host g) = N.
Proof.
  unfold count_kind, g, bcube_graph. cbn [g_nodes].
  rewrite filter_app, filter_all, filter_none, app_nil_r.
  - unfold bcube_hosts. rewrite length_map, xrange_length.
    pose proof (pow_level_pos n Hn (k + 1) ltac:(lia)). unfold N. lia.
  - intros [y kd] Hy. apply in_flat_map in Hy. destruct Hy as (l & _ & Hy).
    unfold bcube_level_switches in Hy. apply in_map_iff in Hy.
    now destruct Hy as (i & [= <- <-] & _).
  - intros [y kd] Hy. unfold bcube_hosts in Hy. apply in_map_iff in Hy.
    now destruct Hy as (i & [= <- <-] & _).
Qed.

Lemma bcube_count_switches :
  Z.of_nat (count_kind Switch g) = (k + 1) * n ^ k.
Proof.
  unfold count_kind, g, bcube_graph. cbn [g_nodes].
  rewrite filter_app, filter_none, filter_all.
  - cbn [app]. rewrite length_flat_map.
    rewrite (map_ext_in _ (fun _ => Z.to_nat (n ^ k))).
    + pose proof (pow_level_pos n Hn k Hk).
      assert (E : forall l : list Z,
                list_sum (map (fun _ => Z.to_nat (n ^ k)) l)
                = (List.length l * Z.to_nat (n ^ k))%nat).
      { induction l as [|a l IH]; simpl; [reflexivity|]. now rewrite IH. }
      rewrite E, xrange_length, Nat2Z.inj_mul, !Z2Nat.id by lia. reflexivity.
    + intros l _. unfold bcube_level_switches.
      now rewrite length_map, xrange_length.
  - intros [y kd] Hy. apply in_flat_map in Hy. destruct Hy as (l & _ & Hy).
    unfold bcube_level_switches in Hy. apply in_map_iff in Hy.
    now destruct Hy as (i & [= <- <-] & _).
  - intros [y kd] Hy. unfold bcube_hosts in Hy. apply in_map_iff in Hy.
    now destruct Hy as (i & [= <- <-] & _).
Qed.
End BCubeGraph.

Section BCubeLinks.
Variables k n : Z.
Hypothesis Hk : 0 <= k.
Hypothesis Hn : 1 <= n.

Let N := n ^ (k + 1).
Let g := bcube_graph k n.

(** Whatever is collected from the links of the graph, if it ignores the
    links of all other switches, is collected from the links of one
    switch. *)
Lemma bcube_select_switch {B : Type} (h : string * string -> list B)
      level i :
  0 <= level <= k -> 0 <= i < n ^ k ->
  (forall a v, a <> switch_label level i -> h (a, bcube_host n v) = []) ->
  flat_map h (g_links g) = flat_map h (bcube_switch_links n level i).
Proof.
  intros Hl Hi Hh. unfold g, bcube_graph. cbn [g_links].
  rewrite (flat_map_flat_map (bcube_level_links k n) h).
  rewrite (flat_map_single _ _ level);
    [|apply xrange_NoDup|apply in_xrange; lia|].
  - unfold bcube_level_links.
    rewrite (flat_map_flat_map (bcube_switch_links n _)).
    apply (flat_map_single
             (fun x => flat_map h (bcube_switch_links n level x)) _ i);
      [apply xrange_NoDup|now apply in_xrange|].
    intros i' _ Hne. unfold bcube_switch_links. rewrite flat_map_map.
    apply flat_map_all_nil. intros v _. apply Hh.
    intros E. apply switch_label_inj in E. now destruct E.
  - intros l' _ Hne. unfold bcube_level_links.
    rewrite (flat_map_flat_map (bcube_switch_links n _)).
    apply flat_map_all_nil. intros i' _.
    unfold bcube_switch_links. rewrite flat_map_map.
    apply flat_map_all_nil. intros v _. apply Hh.
    intros E. apply switch_label_inj in E. now destruct E.
Qed.

Lemma bcube_neighbours_switch level i :
  0 <= level <= k -> 0 <= i < n ^ k ->
  neighbours g (switch_label level i)
  = map (bcube_host n) (bcube_targets n level i).
Proof.
  intros Hl Hi. unfold neighbours.
  rewrite (bcube_select_switch _ level i Hl Hi).
  - unfold bcube_switch_links. rewrite flat_map_map.
    rewrite (flat_map_ext_in _ (fun v => [bcube_host n v])).
    + apply flat_map_singleton.
    + intros v _. apply link_ends_fst. apply host_switch_label.
  - intros a v Ha. apply link_ends_none; [assumption|].
    apply host_switch_label.
Qed.

Lemma bcube_links_of_switch level i :
  0 <= level <= k -> 0 <= i < n ^ k ->
  links_of g (switch_label level i) = bcube_switch_links n level i.
Proof.
  intros Hl Hi. unfold links_of. rewrite filter_as_flat_map.
  rewrite (bcube_select_switch _ level i Hl Hi).
  - rewrite <- filter_as_flat_map. apply filter_all.
    intros [a b] Hab. unfold bcube_switch_links in Hab.
    apply in_map_iff in Hab. destruct Hab as (v & [= <- <-] & _).
    apply touches_fst.
  - intros a v Ha. rewrite touches_none; [reflexivity|assumption|].
    apply host_switch_label.
Qed.

(** At every level a host is reached from one switch, through one port. *)
Lemma bcube_level_neighbours_host level v :
  0 <= level <= k -> 0 <= v < N ->
  flat_map (link_ends (bcube_host n v)) (bcube_level_links k n level)
  = [switch_label level (bcube_pos n level v)].
Proof.
  intros Hl Hv.
  destruct (bcube_pos_port k n Hk Hn level v Hl Hv) as (Hpos & Hport & Ev).
  assert (Hsw : forall l i, switch_label l i <> bcube_host n v).
  { intros l i E. symmetry in E. now apply host_switch_label in E. }
  unfold bcube_level_links.
    rewrite (flat_map_flat_map (bcube_switch_links n _)).
  rewrite (flat_map_single _ _ (bcube_pos n level v));
    [|apply xrange_NoDup|now apply in_xrange|].
  - unfold bcube_switch_links, bcube_targets. rewrite !flat_map_map.
    rewrite (flat_map_single _ _ (bcube_port n level v));
      [|apply xrange_NoDup|now apply in_xrange|].
    + rewrite Ev. now apply link_ends_snd.
    + intros j Hj Hne. apply in_xrange in Hj.
      apply link_ends_none; [apply Hsw|].
      intros E. apply (bcube_host_inj n Hn) in E.
      destruct (bcube_target_inv n Hn level (bcube_pos n level v) j)
        as [_ Hp]; try lia.
      cbv zeta in Hp. rewrite E in Hp. congruence.
  - intros i Hi Hne. apply in_xrange in Hi.
    unfold bcube_switch_links, bcube_targets. rewrite !flat_map_map.
    apply flat_map_all_nil. intros j Hj. apply in_xrange in Hj.
    apply link_ends_none; [apply Hsw|].
    intros E. apply (bcube_host_inj n Hn) in E.
    destruct (bcube_target_inv n Hn level i j) as [Hp _]; try lia.
    cbv zeta in Hp. rewrite E in Hp. congruence.
Qed.

Lemma bcube_neighbours_host v :
  0 <= v < N ->
  neighbours g (bcube_host n v)
  = map (fun level => switch_label level (bcube_pos n level v))
        (xrange (k + 1)).
Proof.
  intros Hv. unfold neighbours, g, bcube_graph. cbn [g_links].
  rewrite (flat_map_flat_map (bcube_level_links k n)).
  rewrite (flat_map_ext_in _
    (fun level => [switch_label level (bcube_pos n level v)])).
  - apply flat_map_singleton.
  - intros level Hl. apply in_xrange in Hl.
    apply bcube_level_neighbours_host; lia.
Qed.

Lemma bcube_node_at v : 0 <= v < N -> node_at g v = bcube_host n v.
Proof.
  intros Hv. unfold node_at, g. apply nth_error_nth.
  rewrite (bcube_labels k n). rewrite nth_error_app1.
  - now apply (nth_error_map_xrange (bcube_host n)).
  - rewrite length_map, xrange_length. lia.
Qed.

Lemma bcube_node_at_switch level i :
  0 <= level <= k -> 0 <= i < n ^ k ->
  node_at g (N + level * n ^ k + i) = switch_label level i.
Proof.
  intros Hl Hi. unfold node_at, g. apply nth_error_nth.
  pose proof (pow_level_pos n Hn (k + 1) ltac:(lia)) as HN. fold N in HN.
  pose proof (pow_level_pos n Hn k Hk) as HK.
  rewrite (bcube_labels k n). rewrite nth_error_app2;
    rewrite length_map, xrange_length; [|nia].
  fold N. replace (Z.to_nat (N + level * n ^ k + i) - Z.to_nat N)%nat
    with (Z.to_nat (level * n ^ k + i)) by nia.
  assert (Hl' : 0 <= level < k + 1) by lia.
  clear HN. revert Hl'. generalize (k + 1). intros hi Hl'.
  assert (G : forall (done : nat) (lo : nat),
    (Z.of_nat lo <= level < Z.of_nat lo + Z.of_nat done) ->
    nth_error
      (map fst (flat_map (bcube_level_switches k n)
                  (map Z.of_nat (seq lo done))))
      (Z.to_nat ((level - Z.of_nat lo) * n ^ k + i))
    = Some (switch_label level i)).
  { assert (Hlen : forall l,
      List.length (map fst (bcube_level_switches k n l)) = Z.to_nat (n ^ k)).
    { intros l. unfold bcube_level_switches.
      now rewrite !length_map, xrange_length. }
    induction done as [|done IH]; intros lo Hlo; [lia|].
    cbn [seq map flat_map]. rewrite map_app.
    destruct (Z.eq_dec level (Z.of_nat lo)) as [->|Hne].
    - rewrite nth_error_app1 by (rewrite Hlen; nia).
      unfold bcube_level_switches. rewrite map_map. cbn [fst].
      replace ((Z.of_nat lo - Z.of_nat lo) * n ^ k + i) with i by ring.
      now apply (nth_error_map_xrange (switch_label (Z.of_nat lo))).
    - rewrite nth_error_app2 by (rewrite Hlen; nia).
      rewrite Hlen.
      replace (Z.to_nat ((level - Z.of_nat lo) * n ^ k + i)
               - Z.to_nat (n ^ k))%nat
        with (Z.to_nat ((level - Z.of_nat (S lo)) * n ^ k + i)) by nia.
      apply IH. lia. }
  specialize (G (Z.to_nat hi) 0%nat). cbn [Z.of_nat] in G.
  rewrite Z.sub_0_r in G. apply G. lia.
Qed.
End BCubeLinks.

(** ** Fat-Tree: arithmetic of the switch numbering *)

Section FatTreeArith.
Variables k r : Z.
Hypothesis Hk : 0 < k.
Hypothesis Heven : k mod 2 = 0.
Hypothesis Hr : 0 < r.
Hypothesis Hdiv : (k / 2) mod r = 0.

Lemma ft_half : 0 < k / 2 /\ k = 2 * (k / 2).
Proof. pose proof (Z.div_mod k 2 ltac:(lia)). lia. Qed.

(** The grouping divisor [(k/2)/r] is positive and divides exactly. *)
Lemma ft_group : 0 < k / 2 / r /\ k / 2 = r * (k / 2 / r).
Proof.
  destruct ft_half as [Hh _].
  pose proof (Z.div_mod (k / 2) r ltac:(lia)) as E.
  rewrite Hdiv, Z.add_0_r in E. split; [nia|exact E].
Qed.

Lemma ft_n_core :
  (k / 2) ^ 2 / r = k / 2 * (k / 2 / r) /\ 0 < (k / 2) ^ 2 / r.
Proof.
  destruct ft_half as [Hh _]. destruct ft_group as [Hd E].
  assert (E' : (k / 2) ^ 2 / r = k / 2 * (k / 2 / r)).
  { rewrite Z.pow_2_r. rewrite E at 1.
    rewrite <- Z.mul_assoc, Z.mul_comm, Z.div_mul by lia. ring. }
  split; [exact E'|]. rewrite E'. nia.
Qed.

(** The group of a core switch is one of the [k/2] aggregation positions
    of a pod. *)
Lemma ft_group_bound cn :
  0 <= cn < (k / 2) ^ 2 / r -> 0 <= cn / (k / 2 / r) < k / 2.
Proof.
  intros Hcn. destruct ft_group as [Hd _].
  destruct ft_n_core as [E _]. rewrite E in Hcn. split.
  - apply Z.div_pos; lia.
  - apply Z.div_lt_upper_bound; [lia|]. nia.
Qed.
End FatTreeArith.

(** ** Positional lookup in lists built from ranges *)

Lemma nth_error_map_xrange2 {A : Type} (f : Z -> A) (lo hi x : Z) :
  lo <= x < hi ->
  nth_error (map f (xrange2 lo hi)) (Z.to_nat (x - lo)) = Some (f x).
Proof.
  intros Hx. rewrite xrange2_shift, map_map.
  rewrite (nth_error_map_xrange (fun t => f (lo + t))) by lia.
  f_equal. f_equal. lia.
Qed.

Lemma getitem_In {A : Type} (l : list A) (i : Z) (x : A) :
  getitem l i = inr x -> In x l.
Proof.
  unfold getitem. destruct (_ <? 0); [discriminate|].
  destruct (nth_error l _) eqn:E; [|discriminate].
  intros [= <-]. eapply nth_error_In; eauto.
Qed.

(** The element of a range block that sits between a prefix and a suffix. *)
Lemma getitem_block {A : Type} (pre post : list A) (f : Z -> A)
      (lo hi x i : Z) :
  lo <= x < hi -> i = Z.of_nat (List.length pre) + (x - lo) ->
  getitem (pre ++ map f (xrange2 lo hi) ++ post) i = inr (f x).
Proof.
  intros Hx ->. apply getitem_nth; [lia|].
  rewrite nth_error_app2 by lia.
  replace (Z.to_nat (Z.of_nat (List.length pre) + (x - lo))
           - List.length pre)%nat with (Z.to_nat (x - lo)) by lia.
  rewrite nth_error_app1.
  - now apply nth_error_map_xrange2.
  - rewrite length_map, xrange2_length. lia.
Qed.

Lemma length_flat_map_const {A B : Type} (f : A -> list B) (len : nat) l :
  (forall x, List.length (f x) = len) ->
  List.length (flat_map f l) = (List.length l * len)%nat.
Proof.
  intros Hf. induction l as [|a l IH]; simpl; [reflexivity|].
  now rewrite length_app, Hf, IH.
Qed.

(** Lookup in a concatenation of blocks of equal length. *)
Lemma nth_error_flat_map_blocks {A : Type} (f : Z -> list A) (len : nat)
      (n p : Z) (t : nat) :
  (forall i, List.length (f i) = len) ->
  0 <= p < n -> (t < len)%nat ->
  nth_error (flat_map f (xrange n)) (Z.to_nat p * len + t)
  = nth_error (f p) t.
Proof.
  intros Hf Hp Ht. unfold xrange.
  assert (G : forall (cnt lo : nat),
    (lo <= Z.to_nat p < lo + cnt)%nat ->
    nth_error (flat_map f (map Z.of_nat (seq lo cnt)))
              ((Z.to_nat p - lo) * len + t)
    = nth_error (f p) t).
  { induction cnt as [|cnt IH]; intros lo Hlo; [lia|].
    cbn [seq map flat_map].
    destruct (Nat.eq_dec (Z.to_nat p) lo) as [E|Hne].
    - rewrite E, Nat.sub_diag, Nat.mul_0_l, Nat.add_0_l.
      rewrite nth_error_app1 by (rewrite Hf; lia).
      f_equal. f_equal. lia.
    - rewrite nth_error_app2 by (rewrite Hf; nia).
      rewrite Hf.
      replace ((Z.to_nat p - lo) * len + t - len)%nat
        with ((Z.to_nat p - S lo) * len + t)%nat by nia.
      apply IH. lia. }
  specialize (G (Z.to_nat n) 0%nat). rewrite Nat.sub_0_r in G.
  apply G. lia.
Qed.

(** ** Fat-Tree: the constructor computes the closed form *)

Lemma ft_validate_ok (k r : Z) (f : FatTree.frame) :
  0 < k -> k mod 2 = 0 -> r <> 0 -> (k / 2) mod r = 0 ->
  FatTree.validate (VInt k) (VInt r) f = (inr (k, r), f).
Proof.
  intros Hk Heven Hr Hdiv.
  unfold FatTree.validate. cbn [isinstance_int negb].
  rewrite pymod_nz by lia. mred. rewrite Hdiv. cbn [Z.eqb negb].
  destruct (Z.ltb_spec k 1) as [|_]; [lia|].
  rewrite Heven. reflexivity.
Qed.

Section FatTreePods.
Variables k nc : Z.
Hypothesis Hk : 0 < k.
Hypothesis Heven : k mod 2 = 0.
Hypothesis Hnc : 0 <= nc.

Let h := k / 2.

Lemma ft_core_loop cnt :
  for_ (xrange nc) FatTree.core_body
       (FatTree.mkFrame empty_topo [] [] [] [] cnt)
  = (inr tt,
     FatTree.mkFrame (mkTopo (map as_switch (ft_cores nc)) [])
                     (ft_cores nc) [] [] (ft_cores nc) cnt).
Proof.
  apply for_closed_from with
    (F := fun done =>
       let cs := map (fun i => core_label (i + 1)) done in
       FatTree.mkFrame (mkTopo (map as_switch cs) []) cs [] [] cs cnt).
  - reflexivity.
  - intros done x rest _. unfold FatTree.core_body. mred.
    now rewrite !map_app.
Qed.

Lemma ft_aggr_loop xs nds links cl al el sl cnt :
  for_ xs FatTree.aggr_body
       (FatTree.mkFrame (mkTopo nds links) cl al el sl cnt)
  = (inr tt,
     FatTree.mkFrame
       (mkTopo (nds ++ map as_switch (map aggr_label xs)) links)
       cl (al ++ map aggr_label xs) el (sl ++ map aggr_label xs) cnt).
Proof.
  apply for_closed_from with
    (F := fun done =>
       FatTree.mkFrame
         (mkTopo (nds ++ map as_switch (map aggr_label done)) links)
         cl (al ++ map aggr_label done) el (sl ++ map aggr_label done) cnt).
  - cbn [map]. now rewrite !app_nil_r.
  - intros done x rest _. unfold FatTree.aggr_body. mred.
    now rewrite !map_app, <- !app_assoc.
Qed.

Lemma ft_edge_loop xs nds links cl al el sl cnt :
  for_ xs FatTree.edge_body
       (FatTree.mkFrame (mkTopo nds links) cl al el sl cnt)
  = (inr tt,
     FatTree.mkFrame
       (mkTopo (nds ++ map as_switch (map edge_label xs)) links)
       cl al (el ++ map edge_label xs) (sl ++ map edge_label xs) cnt).
Proof.
  apply for_closed_from with
    (F := fun done =>
       FatTree.mkFrame
         (mkTopo (nds ++ map as_switch (map edge_label done)) links)
         cl al (el ++ map edge_label done) (sl ++ map edge_label done) cnt).
  - cbn [map]. now rewrite !app_nil_r.
  - intros done x rest _. unfold FatTree.edge_body. mred.
    now rewrite !map_app, <- !app_assoc.
Qed.

Lemma labels_as_switch l : map fst (map as_switch l) = l.
Proof. rewrite map_map. cbn [as_switch fst]. apply map_id. Qed.

Lemma ft_pod_link_inner aa ees sl links cl al el cnt :
  getitem sl (aa - 1) = inr (aggr_label aa) ->
  (forall ee, In ee ees -> getitem sl (ee - 1) = inr (edge_label ee)) ->
  for_ ees (FatTree.pod_link_body aa)
       (FatTree.mkFrame (mkTopo (map as_switch sl) links) cl al el sl cnt)
  = (inr tt,
     FatTree.mkFrame
       (mkTopo (map as_switch sl)
               (links ++ map (fun ee => (aggr_label aa, edge_label ee)) ees))
       cl al el sl cnt).
Proof.
  intros Haa Hee.
  apply for_closed_from with
    (F := fun done =>
       FatTree.mkFrame
         (mkTopo (map as_switch sl)
                 (links
                  ++ map (fun ee => (aggr_label aa, edge_label ee)) done))
         cl al el sl cnt).
  - cbn [map]. now rewrite app_nil_r.
  - intros done x rest E.
    assert (Hx : getitem sl (x - 1) = inr (edge_label x))
      by (apply Hee; rewrite E; apply in_elt).
    unfold FatTree.pod_link_body. mred. rewrite Haa. mred.
    rewrite Hx. mred. rewrite addLink_ok.
    + mred. now rewrite map_app, <- app_assoc.
    + unfold labels. mred. rewrite labels_as_switch.
      eapply getitem_In; eauto.
    + unfold labels. mred. rewrite labels_as_switch.
      eapply getitem_In; eauto.
Qed.

Lemma ft_pod_link_loop aas ees sl links cl al el cnt :
  (forall aa, In aa aas -> getitem sl (aa - 1) = inr (aggr_label aa)) ->
  (forall ee, In ee ees -> getitem sl (ee - 1) = inr (edge_label ee)) ->
  for_ aas (fun aa => for_ ees (FatTree.pod_link_body aa))
       (FatTree.mkFrame (mkTopo (map as_switch sl) links) cl al el sl cnt)
  = (inr tt,
     FatTree.mkFrame
       (mkTopo (map as_switch sl)
               (links
                ++ flat_map (fun aa =>
                     map (fun ee => (aggr_label aa, edge_label ee)) ees)
                   aas))
       cl al el sl cnt).
Proof.
  intros Haa Hee.
  apply for_closed_from with
    (F := fun done =>
       FatTree.mkFrame
         (mkTopo (map as_switch sl)
                 (links
                  ++ flat_map (fun aa =>
                       map (fun ee => (aggr_label aa, edge_label ee)) ees)
                     done))
         cl al el sl cnt).
  - cbn [flat_map]. now rewrite app_nil_r.
  - intros done x rest E.
    rewrite ft_pod_link_inner; auto.
    + rewrite flat_map_app. cbn [flat_map].
      now rewrite app_nil_r, <- app_assoc.
    + apply Haa. rewrite E. apply in_elt.
Qed.
Lemma ft_cores_length : Z.of_nat (List.length (ft_cores nc)) = nc.
Proof.
  unfold ft_cores. rewrite length_map, xrange_length.
  lia.
Qed.

Lemma ft_aggrs_length pod : List.length (ft_aggrs k nc pod) = Z.to_nat h.
Proof.
  unfold ft_aggrs, ft_aggr_nodes. rewrite length_map, xrange2_length.
  f_equal. unfold h. lia.
Qed.

Lemma ft_edges_length pod : List.length (ft_edges k nc pod) = Z.to_nat h.
Proof.
  unfold ft_edges, ft_edge_nodes. rewrite length_map, xrange2_length.
  f_equal. unfold h. lia.
Qed.

Lemma ft_pod_switches_length pod :
  List.length (ft_pod_switches k nc pod) = Z.to_nat k.
Proof.
  unfold ft_pod_switches.
  rewrite length_app, ft_aggrs_length, ft_edges_length.
  destruct (ft_half k Hk Heven). unfold h. lia.
Qed.

(** One pod: the switch list grows by the pod's aggregation and edge
    switches, wired as a complete bipartite graph. *)
Lemma ft_pod_body pod pre links cl al el cnt :
  Z.of_nat (List.length pre) = nc + k * pod ->
  FatTree.pod_body k pod
    (FatTree.mkFrame (mkTopo (map as_switch pre) links) cl al el pre cnt)
  = (inr tt,
     FatTree.mkFrame
       (mkTopo (map as_switch (pre ++ ft_pod_switches k nc pod))
               (links ++ ft_pod_links k nc pod))
       cl (al ++ ft_aggrs k nc pod) (el ++ ft_edges k nc pod)
       (pre ++ ft_pod_switches k nc pod) cnt).
Proof.
  intros Hlen. unfold FatTree.pod_body. mred. rewrite Hlen.
  fold (ft_aggr_nodes k nc pod). fold (ft_edge_nodes k nc pod).
  rewrite ft_aggr_loop. mred. rewrite ft_edge_loop. mred.
  rewrite <- !map_app, <- app_assoc.
  fold (ft_aggrs k nc pod). fold (ft_edges k nc pod).
  fold (ft_pod_switches k nc pod).
  rewrite ft_pod_link_loop; [reflexivity| |].
  - intros aa Haa. unfold ft_aggr_nodes in Haa.
    pose proof Haa as Hin. apply in_xrange2 in Hin.
    unfold ft_pod_switches, ft_aggrs, ft_aggr_nodes.
    eapply getitem_block; [eassumption|lia].
  - intros ee Hee. unfold ft_edge_nodes in Hee.
    pose proof Hee as Hin. apply in_xrange2 in Hin.
    unfold ft_pod_switches. rewrite app_assoc.
    rewrite <- (app_nil_r (ft_edges k nc pod)).
    unfold ft_edges at 1, ft_edge_nodes.
    eapply getitem_block; [eassumption|].
    rewrite length_app, ft_aggrs_length, Nat2Z.inj_add, Hlen.
    destruct (ft_half k Hk Heven). unfold h. lia.
Qed.

Lemma ft_pod_loop cnt :
  for_ (xrange k) (FatTree.pod_body k)
    (FatTree.mkFrame (mkTopo (map as_switch (ft_cores nc)) [])
                     (ft_cores nc) [] [] (ft_cores nc) cnt)
  = (inr tt,
     FatTree.mkFrame
       (mkTopo (map as_switch (ft_switches k nc))
               (flat_map (ft_pod_links k nc) (xrange k)))
       (ft_cores nc) (ft_all_aggrs k nc) (ft_all_edges k nc)
       (ft_switches k nc) cnt).
Proof.
  apply for_closed_from with
    (F := fun done =>
       let sl := ft_cores nc ++ flat_map (ft_pod_switches k nc) done in
       FatTree.mkFrame
         (mkTopo (map as_switch sl) (flat_map (ft_pod_links k nc) done))
         (ft_cores nc) (flat_map (ft_aggrs k nc) done)
         (flat_map (ft_edges k nc) done) sl cnt).
  - cbn [flat_map]. now rewrite app_nil_r.
  - intros done x rest E. apply xrange_split in E. destruct E as [Ex Hx].
    cbv zeta. rewrite (ft_pod_body x).
    + rewrite !flat_map_app. cbn [flat_map].
      now rewrite !app_nil_r, <- !app_assoc.
    + rewrite length_app, Nat2Z.inj_add, ft_cores_length.
      rewrite (length_flat_map_const _ (Z.to_nat k))
        by apply ft_pod_switches_length.
      rewrite Nat2Z.inj_mul, <- Ex, Z2Nat.id by lia. ring.
Qed.

Lemma ft_getitem_core cn :
  0 <= cn < nc -> getitem (ft_switches k nc) cn = inr (core_label (cn + 1)).
Proof.
  intros Hcn. apply getitem_nth; [lia|].
  unfold ft_switches. rewrite nth_error_app1.
  - unfold ft_cores.
    now apply (nth_error_map_xrange (fun i => core_label (i + 1))).
  - pose proof ft_cores_length. lia.
Qed.

End FatTreePods.

Section FatTreeUplinks.
Variables k r : Z.
Hypothesis Hk : 0 < k.
Hypothesis Heven : k mod 2 = 0.
Hypothesis Hr : 0 < r.
Hypothesis Hdiv : (k / 2) mod r = 0.

Let h := k / 2.
Let nc := (k / 2) ^ 2 / r.

Lemma ft_nc_nonneg : 0 <= nc.
Proof. destruct (ft_n_core k r Hk Heven Hr Hdiv). unfold nc. lia. Qed.

(** The position the uplink loop computes holds an aggregation switch of
    the pod. *)
Lemma ft_getitem_aggr cn pod :
  0 <= cn < nc -> 0 <= pod < k ->
  getitem (ft_switches k nc) (nc + cn / (k / 2 / r) + k * pod)
  = inr (ft_uplink_target k r nc cn pod).
Proof.
  intros Hcn Hpod.
  pose proof (ft_group_bound k r Hk Heven Hr Hdiv cn Hcn) as Hq.
  set (q := cn / (k / 2 / r)) in *.
  destruct (ft_half k Hk Heven) as [Hh Hk2].
  apply getitem_nth; [lia|].
  unfold ft_switches.
  pose proof (ft_cores_length k nc ft_nc_nonneg) as Hlen.
  rewrite nth_error_app2 by lia.
  replace (Z.to_nat (nc + q + k * pod) - List.length (ft_cores nc))%nat
    with (Z.to_nat pod * Z.to_nat k + Z.to_nat q)%nat by nia.
  rewrite (nth_error_flat_map_blocks _ (Z.to_nat k) k pod);
    [|now apply ft_pod_switches_length|lia|lia].
  unfold ft_pod_switches. rewrite nth_error_app1
    by (rewrite ft_aggrs_length; unfold h; lia).
  unfold ft_aggrs, ft_aggr_nodes, ft_uplink_target. fold q.
  replace (Z.to_nat q)
    with (Z.to_nat ((nc + k * pod + 1 + q) - (nc + k * pod + 1))) by lia.
  apply nth_error_map_xrange2. lia.
Qed.

Lemma ft_uplink_inner cn links cl al el cnt nds :
  0 <= cn < nc ->
  for_ (xrange k) (FatTree.uplink_body k r nc cn)
    (FatTree.mkFrame
       (mkTopo (map as_switch (ft_switches k nc) ++ nds) links)
       cl al el (ft_switches k nc) cnt)
  = (inr tt,
     FatTree.mkFrame
       (mkTopo (map as_switch (ft_switches k nc) ++ nds)
               (links
                ++ map (fun pod => (core_label (cn + 1),
                                    ft_uplink_target k r nc cn pod))
                       (xrange k)))
       cl al el (ft_switches k nc) cnt).
Proof.
  intros Hcn.
  apply for_closed_from with
    (F := fun done =>
       FatTree.mkFrame
         (mkTopo (map as_switch (ft_switches k nc) ++ nds)
                 (links
                  ++ map (fun pod => (core_label (cn + 1),
                                      ft_uplink_target k r nc cn pod))
                         done))
         cl al el (ft_switches k nc) cnt).
  - cbn [map]. now rewrite app_nil_r.
  - intros done x rest E. apply xrange_split in E. destruct E as [_ Hx].
    destruct (ft_group k r Hk Heven Hr Hdiv) as [Hd _].
    unfold FatTree.uplink_body.
    rewrite (floordiv_nz (k / 2) r) by lia. mred.
    rewrite floordiv_nz by lia. mred.
    rewrite ft_getitem_core by (assumption || apply ft_nc_nonneg). mred.
    rewrite ft_getitem_aggr by assumption. mred.
    rewrite addLink_ok.
    + mred. now rewrite map_app, <- app_assoc.
    + unfold labels. mred. rewrite map_app, labels_as_switch.
      apply in_or_app. left.
      eapply getitem_In. apply ft_getitem_core; [apply ft_nc_nonneg|eassumption].
    + unfold labels. mred. rewrite map_app, labels_as_switch.
      apply in_or_app. left.
      eapply getitem_In. now apply ft_getitem_aggr.
Qed.

Lemma ft_uplink_loop cl al el cnt links :
  for_ (xrange nc)
       (fun cn => for_ (xrange k) (FatTree.uplink_body k r nc cn))
    (FatTree.mkFrame (mkTopo (map as_switch (ft_switches k nc)) links)
                     cl al el (ft_switches k nc) cnt)
  = (inr tt,
     FatTree.mkFrame
       (mkTopo (map as_switch (ft_switches k nc))
               (links ++ ft_uplinks k r nc))
       cl al el (ft_switches k nc) cnt).
Proof.
  apply for_closed_from with
    (F := fun done =>
       FatTree.mkFrame
         (mkTopo (map as_switch (ft_switches k nc))
                 (links
                  ++ flat_map (fun cn =>
                       map (fun pod => (core_label (cn + 1),
                                        ft_uplink_target k r nc cn pod))
                           (xrange k)) done))
         cl al el (ft_switches k nc) cnt).
  - cbn [flat_map]. now rewrite app_nil_r.
  - intros done x rest E. apply xrange_split in E. destruct E as [_ Hx].
    pose proof (ft_uplink_inner x
      (links ++ flat_map (fun cn =>
                  map (fun pod => (core_label (cn + 1),
                                   ft_uplink_target k r nc cn pod))
                      (xrange k)) done) cl al el cnt [] Hx) as G.
    rewrite !app_nil_r in G. rewrite G.
    rewrite flat_map_app. cbn [flat_map].
    now rewrite app_nil_r, <- app_assoc.
Qed.
End FatTreeUplinks.

Section FatTreeHosts.
Variable h : Z.
Hypothesis Hh : 0 <= h.
Variables cl al el sl : list string.

Lemma ft_host_inner sw nds links cnt :
  In sw (map fst nds) ->
  for_ (xrange h) (FatTree.host_body sw)
    (FatTree.mkFrame (mkTopo nds links) cl al el sl cnt)
  = (inr tt,
     FatTree.mkFrame
       (mkTopo (nds ++ map (fun i => (fhost_label (cnt + i), Host))
                           (xrange h))
               (links ++ map (fun i => (sw, fhost_label (cnt + i)))
                             (xrange h)))
       cl al el sl (cnt + h)).
Proof.
  intros Hsw.
  pose (F := fun done : list Z =>
    FatTree.mkFrame
      (mkTopo (nds ++ map (fun i => (fhost_label (cnt + i), Host)) done)
              (links ++ map (fun i => (sw, fhost_label (cnt + i))) done))
      cl al el sl (cnt + Z.of_nat (List.length done))).
  transitivity (@inr exn unit tt, F (xrange h)).
  - apply for_closed_from.
    + unfold F. cbn [map List.length Z.of_nat].
      now rewrite !app_nil_r, Z.add_0_r.
    + intros done x rest E. apply xrange_split in E. destruct E as [Ex _].
      unfold F, FatTree.host_body. mred. rewrite addLink_ok.
      * mred. rewrite !map_app, length_app, <- !app_assoc.
        cbn [map List.length]. rewrite <- Ex.
        do 2 f_equal. lia.
      * unfold labels. mred. rewrite !map_app.
        apply in_or_app. left. apply in_or_app. now left.
      * unfold labels. mred. rewrite !map_app.
        apply in_or_app. right. apply in_eq.
  - unfold F. rewrite xrange_length. do 2 f_equal. lia.
Qed.

Lemma ft_host_loop es : forall nds links cnt,
  (forall sw, In sw es -> In sw (map fst nds)) ->
  for_ es (fun sw => for_ (xrange h) (FatTree.host_body sw))
    (FatTree.mkFrame (mkTopo nds links) cl al el sl cnt)
  = (inr tt,
     FatTree.mkFrame
       (mkTopo (nds ++ ft_host_nodes h cnt es)
               (links ++ ft_host_links h cnt es))
       cl al el sl (cnt + Z.of_nat (List.length es) * h)).
Proof.
  induction es as [|sw es IH]; intros nds links cnt Hin.
  - cbn [for_ ft_host_nodes ft_host_links List.length Z.of_nat]. unfold ret.
    now rewrite !app_nil_r, Z.mul_0_l, Z.add_0_r.
  - cbn [for_ ft_host_nodes ft_host_links]. unfold bind.
    rewrite ft_host_inner by (apply Hin; apply in_eq).
    rewrite IH.
    + rewrite <- !app_assoc. do 2 f_equal.
      cbn [List.length]. lia.
    + intros sw' Hsw'. rewrite map_app. apply in_or_app. left.
      apply Hin. now apply in_cons.
Qed.
End FatTreeHosts.

Section FatTreeInit.
Variables k r : Z.
Hypothesis Hk : 0 < k.
Hypothesis Heven : k mod 2 = 0.
Hypothesis Hr : 0 < r.
Hypothesis Hdiv : (k / 2) mod r = 0.

Lemma ft_all_edges_switches x :
  In x (ft_all_edges k ((k / 2) ^ 2 / r)) ->
  In x (ft_switches k ((k / 2) ^ 2 / r)).
Proof.
  unfold ft_all_edges, ft_switches. rewrite !in_flat_map.
  intros (pod & Hpod & Hx). apply in_or_app. right.
  apply in_flat_map. exists pod. split; [assumption|].
  unfold ft_pod_switches. apply in_or_app. now right.
Qed.

(** For valid parameters the constructor runs to completion, from any
    frame, and ends in the closed form. *)
Lemma ft_init_ok (f0 : FatTree.frame) :
  FatTree.init (VInt k) (VInt r) f0 = (inr tt, ft_frame k r).
Proof.
  unfold FatTree.init. mred.
  rewrite ft_validate_ok by (assumption || lia). mred.
  rewrite floordiv_nz by lia. mred.
  rewrite ft_core_loop. mred.
  rewrite ft_pod_loop
    by (assumption || apply (ft_nc_nonneg k r Hk Heven Hr Hdiv)). mred.
  rewrite (ft_uplink_loop k r Hk Heven Hr Hdiv). mred.
  rewrite ft_host_loop.
  - unfold ft_frame, ft_frame_of, ft_graph_of. cbv zeta.
    now rewrite <- app_assoc.
  - destruct (ft_half k Hk Heven). lia.
  - intros sw Hsw. rewrite labels_as_switch.
    now apply ft_all_edges_switches.
Qed.

Lemma ft_run_ok : FatTree.run (VInt k) (VInt r) = (inr tt, ft_frame k r).
Proof. apply ft_init_ok. Qed.
End FatTreeInit.

(** ** Runs with a negative ratio

    The validation accepts a negative [r] that divides [k/2]; [n_core] is
    then negative, no core switch and no uplink is created, and the pods and
    hosts are built as usual. *)

Lemma xrange_nonpos n : n <= 0 -> xrange n = [].
Proof. intros Hn. unfold xrange. now replace (Z.to_nat n) with 0%nat by lia. Qed.

Lemma ft_init_negative (k r : Z) (f0 : FatTree.frame) :
  0 < k -> k mod 2 = 0 -> r < 0 -> (k / 2) mod r = 0 ->
  FatTree.init (VInt k) (VInt r) f0 = (inr tt, ft_frame_of k 0 []).
Proof.
  intros Hk Heven Hr Hdiv.
  destruct (ft_half k Hk Heven) as [Hh _].
  assert (Hneg : (k / 2) ^ 2 / r <= 0).
  { rewrite Z.pow_2_r.
    pose proof (Z.div_mod (k / 2 * (k / 2)) r ltac:(lia)) as E.
    pose proof (Z.mod_neg_bound (k / 2 * (k / 2)) r Hr). nia. }
  destruct f0 as [g0 c0 a0 e0 s0 cnt0].
  unfold FatTree.init. mred.
  rewrite ft_validate_ok by (assumption || lia). mred.
  rewrite floordiv_nz by lia. mred.
  rewrite (xrange_nonpos _ Hneg). cbn [for_]. mred.
  pose proof (ft_pod_loop k 0 Hk Heven ltac:(lia) cnt0) as G.
  change (ft_cores 0) with (@nil string) in G. cbn [map] in G.
  unfold empty_topo. rewrite G. mred.
  rewrite ft_host_loop.
  - reflexivity.
  - lia.
  - intros sw Hsw. rewrite labels_as_switch.
    unfold ft_all_edges in Hsw. unfold ft_switches.
    apply in_flat_map in Hsw. destruct Hsw as (pod & Hpod & Hsw).
    apply in_or_app. right. apply in_flat_map. exists pod.
    split; [assumption|]. unfold ft_pod_switches. apply in_or_app. now right.
Qed.

(** ** Validation failures *)

Lemma bcube_init_type_error (kv nv : value) (f0 : BCube.frame) :
  isinstance_int kv && isinstance_int nv = false ->
  BCube.init kv nv f0
  = (inl TypeError, BCube.mkFrame empty_topo (BCube.sid f0)).
Proof. destruct kv, nv; intros H; try discriminate H; reflexivity. Qed.

Lemma bcube_init_range_error (k n : Z) (f0 : BCube.frame) :
  n < 1 \/ k < 0 ->
  BCube.init (VInt k) (VInt n) f0
  = (inl ValueError, BCube.mkFrame empty_topo (BCube.sid f0)).
Proof.
  intros H. unfold BCube.init. cbn [isinstance_int negb orb]. mred.
  destruct (Z.ltb_spec n 1); [reflexivity|].
  destruct (Z.ltb_spec k 0); [reflexivity|lia].
Qed.

Lemma ft_init_type_error (kv rv : value) (f0 : FatTree.frame) :
  isinstance_int kv && isinstance_int rv = false ->
  FatTree.init kv rv f0 = (inl TypeError, ft_failed f0).
Proof. destruct kv, rv; intros H; try discriminate H; reflexivity. Qed.

Lemma ft_init_zero_ratio (k : Z) (f0 : FatTree.frame) :
  FatTree.init (VInt k) (VInt 0) f0 = (inl ZeroDivisionError, ft_failed f0).
Proof. reflexivity. Qed.

Lemma ft_init_range_error (k r : Z) (f0 : FatTree.frame) :
  r <> 0 -> (k / 2) mod r <> 0 \/ k < 1 \/ k mod 2 = 1 ->
  FatTree.init (VInt k) (VInt r) f0 = (inl ValueError, ft_failed f0).
Proof.
  intros Hr H. unfold FatTree.init, FatTree.validate.
  cbn [isinstance_int negb]. rewrite pymod_nz by assumption. mred.
  destruct (Z.eqb_spec ((k / 2) mod r) 0) as [E|_]; [|reflexivity].
  cbn [negb]. destruct (Z.ltb_spec k 1) as [|Hk1]; [reflexivity|].
  destruct (Z.eqb_spec (k mod 2) 1) as [|Hodd]; [reflexivity|]. lia.
Qed.

(** ** BCube: the nodes of each kind *)

Lemma bcube_host_nodes (k n : Z) (x : string) :
  In (x, Host) (g_nodes (bcube_graph k n)) ->
  exists v, 0 <= v < n ^ (k + 1) /\ x = bcube_host n v.
Proof.
  unfold bcube_graph. cbn [g_nodes]. intros H. apply in_app_or in H.
  destruct H as [H|H].
  - unfold bcube_hosts in H. apply in_map_iff in H.
    destruct H as (v & [= <-] & Hv). apply in_xrange in Hv. eauto.
  - apply in_flat_map in H. destruct H as (l & _ & H).
    unfold bcube_level_switches in H. apply in_map_iff in H.
    now destruct H as (i & [=] & _).
Qed.

Lemma bcube_switch_nodes (k n : Z) (x : string) :
  In (x, Switch) (g_nodes (bcube_graph k n)) ->
  exists level i, 0 <= level <= k /\ 0 <= i < n ^ k /\
                  x = switch_label level i.
Proof.
  unfold bcube_graph. cbn [g_nodes]. intros H. apply in_app_or in H.
  destruct H as [H|H].
  - unfold bcube_hosts in H. apply in_map_iff in H.
    now destruct H as (v & [=] & _).
  - apply in_flat_map in H. destruct H as (l & Hl & H).
    unfold bcube_level_switches in H. apply in_map_iff in H.
    destruct H as (i & [= <-] & Hi). apply in_xrange in Hl, Hi.
    exists l, i. repeat split; lia.
Qed.

Lemma bcube_targets_length (n level i : Z) :
  0 <= n -> Z.of_nat (List.length (bcube_targets n level i)) = n.
Proof.
  intros Hn. unfold bcube_targets. rewrite length_map, xrange_length. lia.
Qed.

(** The guards of the model are live: linking a label that is not in the
    graph raises [UnknownNodeError], indexing past the end raises
    [IndexError]. *)
Lemma addLink_unknown {S : Type} `{Frame S} (x y : string) (f : S) :
  ~ In x (labels (self f)) \/ ~ In y (labels (self f)) ->
  addLink x y f = (inl UnknownNodeError, f).
Proof.
  intros Hxy. unfold addLink, bind, get.
  destruct (has_node (self f) x) eqn:Ex, (has_node (self f) y) eqn:Ey;
    try reflexivity.
  apply has_node_In in Ex, Ey. tauto.
Qed.

Lemma getitem_out_of_range {A : Type} (l : list A) (i : Z) :
  Z.of_nat (List.length l) <= i -> getitem l i = inl IndexError.
Proof.
  intros Hi. unfold getitem.
  destruct (Z.ltb_spec i 0) as [|_]; [lia|].
  destruct (Z.ltb_spec i 0) as [|_]; [lia|].
  destruct (nth_error l (Z.to_nat i)) eqn:E; [|reflexivity].
  assert (nth_error l (Z.to_nat i) <> None) by congruence.
  apply nth_error_Some in H. lia.
Qed.

(** ** Fat-Tree: labels of the closed form *)

Lemma aggr_edge_label i j : aggr_label i <> edge_label j.
Proof. discriminate. Qed.

Lemma map_seq_from_zero {A : Type} (len : nat) :
  forall (f : nat -> A) (start : nat),
  map f (seq start len) = map (fun t => f (start + t)%nat) (seq 0 len).
Proof.
  induction len as [|len IH]; intros f start; simpl; [reflexivity|].
  rewrite Nat.add_0_r. f_equal.
  rewrite (IH f (S start)), (IH (fun t => f (start + t)%nat) 1%nat).
  apply map_ext. intros t. f_equal. lia.
Qed.

Lemma xrange2_app a b c :
  a <= b <= c -> xrange2 a c = xrange2 a b ++ xrange2 b c.
Proof.
  intros H. unfold xrange2.
  replace (Z.to_nat (c - a)) with (Z.to_nat (b - a) + Z.to_nat (c - b))%nat
    by lia.
  rewrite seq_app, map_app. f_equal.
  rewrite map_seq_from_zero. apply map_ext. intros t. lia.
Qed.

Section FatTreeGraph.
Variables k nc : Z.
Hypothesis Hk : 0 < k.
Hypothesis Heven : k mod 2 = 0.
Hypothesis Hnc : 0 <= nc.

Let h := k / 2.

Lemma ft_aggr_In pod x :
  In x (ft_aggrs k nc pod) <->
  exists j, x = aggr_label j /\
            nc + k * pod + 1 <= j < nc + k * pod + 1 + h.
Proof.
  unfold ft_aggrs, ft_aggr_nodes. rewrite in_map_iff. fold h. split.
  - intros (j & <- & Hj). apply in_xrange2 in Hj. eauto.
  - intros (j & -> & Hj). exists j. split; [reflexivity|].
    now apply in_xrange2.
Qed.

Lemma ft_edge_In pod x :
  In x (ft_edges k nc pod) <->
  exists j, x = edge_label j /\
            nc + k * pod + 1 + h <= j < nc + k * pod + 1 + h + h.
Proof.
  unfold ft_edges, ft_edge_nodes. rewrite in_map_iff. fold h. split.
  - intros (j & <- & Hj). apply in_xrange2 in Hj. eauto.
  - intros (j & -> & Hj). exists j. split; [reflexivity|].
    now apply in_xrange2.
Qed.

(** The switch numbers of different pods do not overlap. *)
Lemma ft_pod_of_number p p' j j' :
  j = j' ->
  nc + k * p + 1 <= j < nc + k * p + 1 + h + h ->
  nc + k * p' + 1 <= j' < nc + k * p' + 1 + h + h ->
  p = p'.
Proof.
  destruct (ft_half k Hk Heven) as [Hh E]. fold h in Hh, E.
  intros -> H1 H2. nia.
Qed.

Lemma ft_aggrs_NoDup pod : NoDup (ft_aggrs k nc pod).
Proof.
  unfold ft_aggrs. apply Injective_map_NoDup; [|apply xrange2_NoDup].
  intros i j. apply aggr_label_inj.
Qed.

Lemma ft_edges_NoDup pod : NoDup (ft_edges k nc pod).
Proof.
  unfold ft_edges. apply Injective_map_NoDup; [|apply xrange2_NoDup].
  intros i j. apply edge_label_inj.
Qed.

Lemma ft_pod_switches_NoDup pod : NoDup (ft_pod_switches k nc pod).
Proof.
  unfold ft_pod_switches. apply NoDup_app.
  - apply ft_aggrs_NoDup.
  - apply ft_edges_NoDup.
  - intros x Ha He. apply ft_aggr_In in Ha. apply ft_edge_In in He.
    destruct Ha as (i & -> & _), He as (j & E & _).
    now apply aggr_edge_label in E.
Qed.

Lemma ft_all_aggrs_NoDup : NoDup (ft_all_aggrs k nc).
Proof.
  unfold ft_all_aggrs. apply NoDup_flat_map.
  - apply xrange_NoDup.
  - intros p _. apply ft_aggrs_NoDup.
  - intros p p' x _ _ Hx Hx'. apply ft_aggr_In in Hx, Hx'.
    destruct Hx as (j & -> & Hj), Hx' as (j' & E & Hj').
    apply aggr_label_inj in E.
    apply (ft_pod_of_number p p' j j' E); lia.
Qed.

Lemma ft_all_edges_NoDup : NoDup (ft_all_edges k nc).
Proof.
  destruct (ft_half k Hk Heven) as [Hh _]. fold h in Hh.
  unfold ft_all_edges. apply NoDup_flat_map.
  - apply xrange_NoDup.
  - intros p _. apply ft_edges_NoDup.
  - intros p p' x _ _ Hx Hx'. apply ft_edge_In in Hx, Hx'.
    destruct Hx as (j & -> & Hj), Hx' as (j' & E & Hj').
    apply edge_label_inj in E.
    apply (ft_pod_of_number p p' j j' E); lia.
Qed.

Lemma ft_cores_NoDup : NoDup (ft_cores nc).
Proof.
  unfold ft_cores. apply Injective_map_NoDup; [|apply xrange_NoDup].
  intros i j E. apply core_label_inj in E. lia.
Qed.

(** Every switch label is of one of the three forms. *)
Lemma ft_switch_In x :
  In x (ft_switches k nc) ->
  (exists j, x = core_label j) \/ (exists j, x = aggr_label j)
  \/ (exists j, x = edge_label j).
Proof.
  unfold ft_switches. intros H. apply in_app_or in H. destruct H as [H|H].
  - unfold ft_cores in H. apply in_map_iff in H.
    destruct H as (i & <- & _). eauto.
  - apply in_flat_map in H. destruct H as (p & _ & H).
    unfold ft_pod_switches in H. apply in_app_or in H. destruct H as [H|H].
    + apply ft_aggr_In in H. destruct H as (j & -> & _). eauto.
    + apply ft_edge_In in H. destruct H as (j & -> & _). eauto.
Qed.

Lemma ft_switches_NoDup : NoDup (ft_switches k nc).
Proof.
  destruct (ft_half k Hk Heven) as [Hh _]. fold h in Hh.
  unfold ft_switches. apply NoDup_app.
  - apply ft_cores_NoDup.
  - apply NoDup_flat_map.
    + apply xrange_NoDup.
    + intros p _. apply ft_pod_switches_NoDup.
    + intros p p' x _ _ Hx Hx'. unfold ft_pod_switches in Hx, Hx'.
      apply in_app_or in Hx, Hx'.
      destruct Hx as [Hx|Hx], Hx' as [Hx'|Hx'];
        try apply ft_aggr_In in Hx; try apply ft_edge_In in Hx;
        try apply ft_aggr_In in Hx'; try apply ft_edge_In in Hx';
        destruct Hx as (j & -> & Hj), Hx' as (j' & E & Hj');
        try (apply aggr_label_inj in E); try (apply edge_label_inj in E);
        try discriminate E;
        apply (ft_pod_of_number p p' j j' E); lia.
  - intros x Hc Hp. unfold ft_cores in Hc. apply in_map_iff in Hc.
    destruct Hc as (i & <- & _).
    apply in_flat_map in Hp. destruct Hp as (p & _ & Hp).
    unfold ft_pod_switches in Hp. apply in_app_or in Hp.
    destruct Hp as [Hp|Hp];
      [apply ft_aggr_In in Hp|apply ft_edge_In in Hp];
      destruct Hp as (j & E & _); discriminate E.
Qed.

Lemma ft_all_aggrs_length :
  Z.of_nat (List.length (ft_all_aggrs k nc)) = k * h.
Proof.
  destruct (ft_half k Hk Heven) as [Hh _]. fold h in Hh.
  unfold ft_all_aggrs.
  rewrite (length_flat_map_const _ (Z.to_nat h)) by apply ft_aggrs_length.
  rewrite xrange_length, Nat2Z.inj_mul, !Z2Nat.id by lia. reflexivity.
Qed.

Lemma ft_all_edges_length :
  Z.of_nat (List.length (ft_all_edges k nc)) = k * h.
Proof.
  destruct (ft_half k Hk Heven) as [Hh _]. fold h in Hh.
  unfold ft_all_edges.
  rewrite (length_flat_map_const _ (Z.to_nat h)) by apply ft_edges_length.
  rewrite xrange_length, Nat2Z.inj_mul, !Z2Nat.id by lia. reflexivity.
Qed.
End FatTreeGraph.

(** ** Fat-Tree: hosts and their links *)

Section FatTreeHostLinks.
Variable h : Z.
Hypothesis Hh : 0 <= h.

Lemma ft_host_nodes_labels es : forall cnt,
  map fst (ft_host_nodes h cnt es)
  = map fhost_label (xrange2 cnt (cnt + Z.of_nat (List.length es) * h)).
Proof.
  induction es as [|sw es IH]; intros cnt.
  - cbn [ft_host_nodes List.length Z.of_nat map].
    unfold xrange2. now replace (Z.to_nat _) with 0%nat by lia.
  - cbn [ft_host_nodes]. rewrite map_app, IH, map_map. cbn [fst].
    rewrite (xrange2_app cnt (cnt + h)
               (cnt + Z.of_nat (List.length (sw :: es)) * h))
      by (cbn [List.length]; nia).
    rewrite map_app. f_equal.
    + rewrite xrange2_shift, map_map. do 2 f_equal. lia.
    + do 2 f_equal. cbn [List.length]. lia.
Qed.

Lemma ft_host_nodes_kind es : forall cnt p,
  In p (ft_host_nodes h cnt es) -> snd p = Host.
Proof.
  induction es as [|sw es IH]; intros cnt p Hp; [contradiction|].
  cbn [ft_host_nodes] in Hp. apply in_app_or in Hp. destruct Hp as [Hp|Hp].
  - apply in_map_iff in Hp. now destruct Hp as (i & <- & _).
  - eapply IH; eauto.
Qed.

Lemma ft_host_nodes_length es cnt :
  Z.of_nat (List.length (ft_host_nodes h cnt es))
  = Z.of_nat (List.length es) * h.
Proof.
  rewrite <- (length_map fst), ft_host_nodes_labels.
  rewrite length_map, xrange2_length. nia.
Qed.

Section Ends.
Variable x : string.
Hypothesis Hx : forall i, fhost_label i <> x.

Lemma ft_host_links_ends_absent es : forall cnt,
  ~ In x es -> flat_map (link_ends x) (ft_host_links h cnt es) = [].
Proof.
  induction es as [|sw es IH]; intros cnt Hin; [reflexivity|].
  cbn [ft_host_links]. rewrite flat_map_app, IH.
  - rewrite app_nil_r, flat_map_map. apply flat_map_all_nil.
    intros i _. apply link_ends_none; [|apply Hx].
    intros ->. apply Hin. apply in_eq.
  - intros H. apply Hin. now apply in_cons.
Qed.

(** An edge switch is linked to [h] nodes by the host loop. *)
Lemma ft_host_links_ends_length es : forall cnt,
  NoDup es -> In x es ->
  List.length (flat_map (link_ends x) (ft_host_links h cnt es))
  = Z.to_nat h.
Proof.
  induction es as [|sw es IH]; intros cnt Hnd Hin; [contradiction|].
  inversion Hnd as [|? ? Hsw Hnd']; subst.
  cbn [ft_host_links]. rewrite flat_map_app, length_app, flat_map_map.
  destruct (string_dec sw x) as [->|Hne].
  - rewrite (flat_map_ext_in _ (fun i => [fhost_label (cnt + i)])).
    + rewrite flat_map_singleton, length_map, xrange_length.
      now rewrite ft_host_links_ends_absent.
    + intros i _. apply link_ends_fst. apply Hx.
  - rewrite flat_map_all_nil.
    + apply IH; [assumption|]. destruct Hin; [contradiction|assumption].
    + intros i _. apply link_ends_none; [assumption|apply Hx].
Qed.

(** ... and all of them are hosts. *)
Lemma ft_host_links_ends_hosts es : forall cnt y,
  In y (flat_map (link_ends x) (ft_host_links h cnt es)) ->
  In (y, Host) (ft_host_nodes h cnt es).
Proof.
  induction es as [|sw es IH]; intros cnt y Hy; [contradiction|].
  cbn [ft_host_links ft_host_nodes] in *.
  rewrite flat_map_app in Hy. apply in_app_or in Hy.
  apply in_or_app. destruct Hy as [Hy|Hy].
  - left. rewrite flat_map_map in Hy. apply in_flat_map in Hy.
    destruct Hy as (i & Hi & Hy). apply in_map_iff. exists i.
    split; [|assumption]. f_equal.
    unfold link_ends in Hy. cbn [fst snd] in Hy.
    pose proof (Hx (cnt + i)) as Hne. apply String.eqb_neq in Hne.
    rewrite Hne, app_nil_r in Hy.
    destruct (String.eqb sw x); [|contradiction].
    destruct Hy as [<-|[]]. reflexivity.
  - right. now apply IH.
Qed.
End Ends.

End FatTreeHostLinks.

(** ** Fat-Tree: neighbours in the closed form *)

Section FatTreeNeighbours.
Variables k nc : Z.
Variable ups : list (string * string).
Hypothesis Hk : 0 < k.
Hypothesis Heven : k mod 2 = 0.
Hypothesis Hnc : 0 <= nc.
(** Every uplink joins a core switch to an aggregation switch. *)
Hypothesis Hups : forall l, In l ups ->
  exists i j, l = (core_label i, aggr_label j)
              /\ In (core_label i) (ft_cores nc).

Let h := k / 2.
Let g := ft_graph_of k nc ups.

Lemma ft_graph_labels :
  labels g
  = ft_switches k nc ++ map fhost_label (xrange2 1 (1 + k * h * h)).
Proof.
  destruct (ft_half k Hk Heven) as [Hh _]. fold h in Hh.
  unfold labels, g, ft_graph_of. cbn [g_nodes].
  rewrite map_app, labels_as_switch, ft_host_nodes_labels by (fold h; lia).
  rewrite (ft_all_edges_length k nc Hk Heven). reflexivity.
Qed.

Lemma ft_graph_labels_NoDup : NoDup (labels g).
Proof.
  rewrite ft_graph_labels. apply NoDup_app.
  - now apply ft_switches_NoDup.
  - apply Injective_map_NoDup; [|apply xrange2_NoDup].
    intros i j. apply fhost_label_inj.
  - intros x Hs Hh. apply in_map_iff in Hh. destruct Hh as (i & <- & _).
    apply ft_switch_In in Hs.
    destruct Hs as [(j & E)|[(j & E)|(j & E)]]; discriminate E.
Qed.

Lemma ft_graph_host_count : Z.of_nat (count_kind Host g) = k * h * h.
Proof.
  destruct (ft_half k Hk Heven) as [Hh _]. fold h in Hh.
  unfold count_kind, g, ft_graph_of. cbn [g_nodes].
  rewrite filter_app, filter_none, filter_all.
  - cbn [app]. rewrite ft_host_nodes_length by (fold h; lia).
    now rewrite (ft_all_edges_length k nc Hk Heven).
  - intros p Hp. now rewrite (ft_host_nodes_kind _ _ _ _ Hp).
  - intros p Hp. apply in_map_iff in Hp. now destruct Hp as (x & <- & _).
Qed.

Lemma ft_pod_links_ends_edge pod ee :
  0 <= pod < k -> In ee (ft_edge_nodes k nc pod) ->
  flat_map (link_ends (edge_label ee))
           (flat_map (ft_pod_links k nc) (xrange k))
  = ft_aggrs k nc pod.
Proof.
  intros Hpod Hee.
  assert (Hne : forall i j, aggr_label i <> edge_label j)
    by (intros; discriminate).
  pose proof Hee as Hee'. unfold ft_edge_nodes in Hee'.
  apply in_xrange2 in Hee'.
  rewrite (flat_map_flat_map (ft_pod_links k nc)).
  rewrite (flat_map_single _ _ pod);
    [|apply xrange_NoDup|now apply in_xrange|].
  - unfold ft_pod_links. rewrite flat_map_flat_map.
    rewrite (flat_map_ext_in _ (fun aa => [aggr_label aa])).
    + apply flat_map_singleton.
    + intros aa _. rewrite flat_map_map.
      rewrite (flat_map_single _ _ ee);
        [|apply xrange2_NoDup|assumption|].
      * now apply link_ends_snd.
      * intros ee' _ Hne'. apply link_ends_none; [apply Hne|].
        intros E. apply edge_label_inj in E. contradiction.
  - intros pod' Hpod' Hne'. apply in_xrange in Hpod'.
    unfold ft_pod_links. rewrite flat_map_flat_map.
    apply flat_map_all_nil. intros aa _. rewrite flat_map_map.
    apply flat_map_all_nil. intros ee' Hee''.
    unfold ft_edge_nodes in Hee''. apply in_xrange2 in Hee''.
    apply link_ends_none; [apply Hne|].
    intros E. apply edge_label_inj in E. apply Hne'.
    destruct (ft_half k Hk Heven).
    apply (ft_pod_of_number k nc Hk Heven pod' pod ee' ee E); lia.
Qed.

Lemma ft_pod_links_ends_aggr pod aa :
  0 <= pod < k -> In aa (ft_aggr_nodes k nc pod) ->
  flat_map (link_ends (aggr_label aa))
           (flat_map (ft_pod_links k nc) (xrange k))
  = ft_edges k nc pod.
Proof.
  intros Hpod Haa.
  assert (Hne : forall i j, edge_label i <> aggr_label j)
    by (intros; discriminate).
  pose proof Haa as Haa'. unfold ft_aggr_nodes in Haa'.
  apply in_xrange2 in Haa'.
  rewrite (flat_map_flat_map (ft_pod_links k nc)).
  rewrite (flat_map_single _ _ pod);
    [|apply xrange_NoDup|now apply in_xrange|].
  - unfold ft_pod_links. rewrite flat_map_flat_map.
    rewrite (flat_map_single _ _ aa);
      [|apply xrange2_NoDup|assumption|].
    + rewrite flat_map_map.
      rewrite (flat_map_ext_in _ (fun ee => [edge_label ee])).
      * apply flat_map_singleton.
      * intros ee _. apply link_ends_fst. apply Hne.
    + intros aa' _ Hne'. rewrite flat_map_map.
      apply flat_map_all_nil. intros ee _.
      apply link_ends_none; [|apply Hne].
      intros E. apply aggr_label_inj in E. contradiction.
  - intros pod' Hpod' Hne'. apply in_xrange in Hpod'.
    unfold ft_pod_links. rewrite flat_map_flat_map.
    apply flat_map_all_nil. intros aa' Haa''. rewrite flat_map_map.
    apply flat_map_all_nil. intros ee _.
    unfold ft_aggr_nodes in Haa''. apply in_xrange2 in Haa''.
    apply link_ends_none; [|apply Hne].
    intros E. apply aggr_label_inj in E. apply Hne'.
    destruct (ft_half k Hk Heven).
    apply (ft_pod_of_number k nc Hk Heven pod' pod aa' aa E); lia.
Qed.

Lemma ft_uplinks_ends_edge ee :
  flat_map (link_ends (edge_label ee)) ups = [].
Proof.
  apply flat_map_all_nil. intros l Hl.
  destruct (Hups l Hl) as (i & j & -> & _).
  apply link_ends_none; discriminate.
Qed.

Lemma ft_uplinks_ends_aggr aa y :
  In y (flat_map (link_ends (aggr_label aa)) ups) -> In y (ft_cores nc).
Proof.
  intros Hy. apply in_flat_map in Hy. destruct Hy as (l & Hl & Hy).
  destruct (Hups l Hl) as (i & j & -> & Hc).
  unfold link_ends in Hy. cbn [fst snd] in Hy.
  assert (E : String.eqb (core_label i) (aggr_label aa) = false)
    by (apply String.eqb_neq; discriminate).
  rewrite E in Hy. cbn [app] in Hy.
  destruct (String.eqb (aggr_label j) (aggr_label aa)); [|contradiction].
  destruct Hy as [<-|[]]. assumption.
Qed.

(** The neighbours of an edge switch: the aggregation switches of its
    pod, then what the host loop attached. *)
Lemma ft_neighbours_edge pod ee :
  0 <= pod < k -> In ee (ft_edge_nodes k nc pod) ->
  neighbours g (edge_label ee)
  = ft_aggrs k nc pod
    ++ flat_map (link_ends (edge_label ee))
                (ft_host_links h 1 (ft_all_edges k nc)).
Proof.
  intros Hpod Hee. unfold neighbours, g, ft_graph_of. cbn [g_links].
  rewrite !flat_map_app, ft_uplinks_ends_edge.
  now rewrite (ft_pod_links_ends_edge pod ee).
Qed.

(** The neighbours of an aggregation switch: the edge switches of its
    pod, then the core switches that chose it. *)
Lemma ft_neighbours_aggr pod aa :
  0 <= pod < k -> In aa (ft_aggr_nodes k nc pod) ->
  neighbours g (aggr_label aa)
  = ft_edges k nc pod ++ flat_map (link_ends (aggr_label aa)) ups.
Proof.
  intros Hpod Haa. unfold neighbours, g, ft_graph_of. cbn [g_links].
  rewrite !flat_map_app, (ft_pod_links_ends_aggr pod aa) by assumption.
  rewrite ft_host_links_ends_absent, app_nil_r; [reflexivity| |].
  - intros i. discriminate.
  - intros Hin. unfold ft_all_edges in Hin. apply in_flat_map in Hin.
    destruct Hin as (p & _ & Hin). apply ft_edge_In in Hin.
    destruct Hin as (j & E & _). discriminate E.
Qed.
End FatTreeNeighbours.

Lemma ft_uplinks_shape (k r nc : Z) (l : string * string) :
  In l (ft_uplinks k r nc) ->
  exists i j, l = (core_label i, aggr_label j)
              /\ In (core_label i) (ft_cores nc).
Proof.
  unfold ft_uplinks. intros Hl. apply in_flat_map in Hl.
  destruct Hl as (cn & Hcn & Hl). apply in_map_iff in Hl.
  destruct Hl as (pod & <- & _). unfold ft_uplink_target.
  eexists _, _. split; [reflexivity|].
  unfold ft_cores. now apply (in_map (fun i => core_label (i + 1))).
Qed.

Lemma ft_uplink_In (k r nc cn pod : Z) :
  0 <= cn < nc -> 0 <= pod < k ->
  In (core_label (cn + 1), ft_uplink_target k r nc cn pod)
     (ft_uplinks k r nc).
Proof.
  intros Hcn Hpod. unfold ft_uplinks. apply in_flat_map.
  exists cn. split; [now apply in_xrange|].
  apply (in_map (fun pod => (core_label (cn + 1),
                             ft_uplink_target k r nc cn pod))).
  now apply in_xrange.
Qed.

Lemma ft_cube_quarter (k : Z) :
  0 < k -> k mod 2 = 0 -> k ^ 3 / 4 = k * (k / 2) * (k / 2).
Proof.
  intros Hk Heven. destruct (ft_half k Hk Heven) as [_ E].
  set (h := k / 2) in *.
  replace (k ^ 3) with (k * h * h * 4).
  - apply Z.div_mul. lia.
  - replace (k ^ 3) with (k * k * k) by ring. nia.
Qed.

(** The final frame of a valid Fat-Tree run, whatever the sign of [r]. *)
Lemma ft_init_accepts (k r : Z) (f0 : FatTree.frame) :
  0 < k -> k mod 2 = 0 -> r <> 0 -> (k / 2) mod r = 0 ->
  exists f, (forall f0, FatTree.init (VInt k) (VInt r) f0 = (inr tt, f)).
Proof.
  intros Hk Heven Hr Hdiv. destruct (Z.lt_trichotomy r 0) as [Hneg|[E|Hpos]].
  - exists (ft_frame_of k 0 []). intros f. now apply ft_init_negative.
  - contradiction.
  - exists (ft_frame k r). intros f. now apply ft_init_ok.
Qed.

(** ** Fat-Tree: the positions the pod loop reads *)

Section FatTreePositions.
Variables k nc : Z.
Hypothesis Hk : 0 < k.
Hypothesis Heven : k mod 2 = 0.
Hypothesis Hnc : 0 <= nc.

Lemma ft_getitem_pod_aggr pod aa :
  0 <= pod < k -> In aa (ft_aggr_nodes k nc pod) ->
  getitem (ft_switches k nc) (aa - 1) = inr (aggr_label aa).
Proof.
  intros Hpod Haa. unfold ft_aggr_nodes in Haa.
  pose proof Haa as Hin. apply in_xrange2 in Hin.
  destruct (ft_half k Hk Heven) as [Hh Ek].
  apply getitem_nth; [lia|].
  unfold ft_switches. pose proof (ft_cores_length k nc Hnc) as Hlen.
  rewrite nth_error_app2 by lia.
  replace (Z.to_nat (aa - 1) - List.length (ft_cores nc))%nat
    with (Z.to_nat pod * Z.to_nat k
          + Z.to_nat (aa - (nc + k * pod + 1)))%nat by nia.
  rewrite (nth_error_flat_map_blocks _ (Z.to_nat k) k pod);
    [|now apply ft_pod_switches_length|lia|lia].
  unfold ft_pod_switches. rewrite nth_error_app1
    by (rewrite ft_aggrs_length; lia).
  unfold ft_aggrs, ft_aggr_nodes. now apply nth_error_map_xrange2.
Qed.

Lemma ft_getitem_pod_edge pod ee :
  0 <= pod < k -> In ee (ft_edge_nodes k nc pod) ->
  getitem (ft_switches k nc) (ee - 1) = inr (edge_label ee).
Proof.
  intros Hpod Hee. unfold ft_edge_nodes in Hee.
  pose proof Hee as Hin. apply in_xrange2 in Hin.
  destruct (ft_half k Hk Heven) as [Hh Ek].
  apply getitem_nth; [lia|].
  unfold ft_switches. pose proof (ft_cores_length k nc Hnc) as Hlen.
  rewrite nth_error_app2 by lia.
  replace (Z.to_nat (ee - 1) - List.length (ft_cores nc))%nat
    with (Z.to_nat pod * Z.to_nat k
          + Z.to_nat (ee - (nc + k * pod + 1)))%nat by nia.
  rewrite (nth_error_flat_map_blocks _ (Z.to_nat k) k pod);
    [|now apply ft_pod_switches_length|lia|lia].
  unfold ft_pod_switches. rewrite nth_error_app2
    by (rewrite ft_aggrs_length; lia).
  rewrite ft_aggrs_length.
  replace (Z.to_nat (ee - (nc + k * pod + 1)) - Z.to_nat (k / 2))%nat
    with (Z.to_nat (ee - (nc + k * pod + 1 + k / 2))) by lia.
  unfold ft_edges, ft_edge_nodes. now apply nth_error_map_xrange2.
Qed.
End FatTreePositions.

(** ** The constructors on small inputs *)

Example bcube_0_2 :
  BCube.run (VInt 0) (VInt 2)
  = (inr tt,
     mkTopo [("h0_0", Host); ("h0_1", Host); ("s0_0", Switch)]
            [("s0_0", "h0_0"); ("s0_0", "h0_1")])%string.
Proof. reflexivity. Qed.

Example bcube_1_2_links :
  g_links (snd (BCube.run (VInt 1) (VInt 2)))
  = [("s0_0", "h0_0"); ("s0_0", "h0_1"); ("s0_1", "h1_0"); ("s0_1", "h1_1");
     ("s1_0", "h0_0"); ("s1_0", "h1_0"); ("s1_1", "h0_1"); ("s1_1", "h1_1")
    ]%string.
Proof. reflexivity. Qed.

Example fattree_2_1 :
  let f := snd (FatTree.run (VInt 2) (VInt 1)) in
  FatTree.s f = ["c1"; "a2"; "e3"; "a4"; "e5"]%string
  /\ g_links (FatTree.f_self f)
     = [("a2", "e3"); ("a4", "e5"); ("c1", "a2"); ("c1", "a4");
        ("e3", "h1"); ("e5", "h2")]%string.
Proof. split; reflexivity. Qed.

Example fattree_odd_k :
  fst (FatTree.run (VInt 3) (VInt 1)) = inl ValueError.
Proof. reflexivity. Qed.

Example fattree_bad_ratio :
  fst (FatTree.run (VInt 4) (VInt 3)) = inl ValueError.
Proof. reflexivity. Qed.

Example fattree_negative_ratio :
  let f := snd (FatTree.run (VInt 2) (VInt (-1))) in
  fst (FatTree.run (VInt 2) (VInt (-1))) = inr tt
  /\ FatTree.s f = ["a1"; "e2"; "a3"; "e4"]%string.
Proof. split; reflexivity. Qed.

(** * The claims of the specification *)

(** ** Validation *)

(** C6.  BCube validation: when [k] or [n] is not an integer the
    constructor raises [TypeError]; otherwise, when [n < 1] or [k < 0], it
    raises [ValueError]; in both cases, from whatever frame the constructor
    starts, the graph is empty when the error is raised. *)
Theorem bcube_invalid_parameters (kv nv : value) (f0 : BCube.frame) :
  (isinstance_int kv && isinstance_int nv = false ->
   fst (BCube.init kv nv f0) = inl TypeError
   /\ BCube.f_self (snd (BCube.init kv nv f0)) = empty_topo)
  /\ (forall k n, kv = VInt k -> nv = VInt n -> n < 1 \/ k < 0 ->
      fst (BCube.init kv nv f0) = inl ValueError
      /\ BCube.f_self (snd (BCube.init kv nv f0)) = empty_topo).
Proof.
  split.
  - intros H. now rewrite bcube_init_type_error.
  - intros k n -> -> H. now rewrite bcube_init_range_error.
Qed.

Lemma bcube_invalid_parameters_witness :
  (fst (BCube.init (VStr "x") (VInt 4) BCube.frame0) = inl TypeError
   /\ BCube.f_self (snd (BCube.init (VStr "x") (VInt 4) BCube.frame0)) = empty_topo)
  /\ (fst (BCube.init (VInt (-1)) (VInt 4) BCube.frame0) = inl ValueError
      /\ BCube.f_self (snd (BCube.init (VInt (-1)) (VInt 4) BCube.frame0))
         = empty_topo).
Proof.
  split.
  - apply (proj1 (bcube_invalid_parameters (VStr "x") (VInt 4) BCube.frame0)).
    reflexivity.
  - apply (proj2 (bcube_invalid_parameters (VInt (-1)) (VInt 4) BCube.frame0)
             (-1) 4); [reflexivity|reflexivity|right; lia].
Defined.

(** C10.  For every even [k >= 2], [FatTreeTopo(k, 0)] raises
    [ZeroDivisionError]: the validation evaluates [k // 2 % r] before it
    looks at anything else of [r]; no node exists when the error is
    raised. *)
Theorem fattree_zero_ratio_raises (k : Z) (f0 : FatTree.frame) :
  2 <= k -> k mod 2 = 0 ->
  fst (FatTree.init (VInt k) (VInt 0) f0) = inl ZeroDivisionError
  /\ g_nodes (FatTree.f_self (snd (FatTree.init (VInt k) (VInt 0) f0))) = [].
Proof. intros _ _. now rewrite ft_init_zero_ratio. Qed.

Lemma fattree_zero_ratio_raises_witness :
  2 <= 4 /\ 4 mod 2 = 0
  /\ fst (FatTree.init (VInt 4) (VInt 0) FatTree.frame0)
     = inl ZeroDivisionError
  /\ g_nodes (FatTree.f_self (snd (FatTree.init (VInt 4) (VInt 0) FatTree.frame0)))
     = [].
Proof.
  split; [lia|]. split; [reflexivity|].
  apply (fattree_zero_ratio_raises 4 FatTree.frame0); [lia|reflexivity].
Defined.

(** C5, at the input where the code departs from it: [FatTreeTopo(2, 0)]
    passes both type checks and then fails with [ZeroDivisionError], which
    is neither of the two documented error kinds. *)
Theorem fattree_validation_third_error :
  exists e, fst (FatTree.run (VInt 2) (VInt 0)) = inl e
            /\ e <> TypeError /\ e <> ValueError.
Proof. exists ZeroDivisionError. repeat split; discriminate. Qed.

(** ** Determinism *)

(** C9.  Two invocations of a generator with the same parameters produce
    the same outcome and the same graph (the same nodes in the same order
    and the same links), whatever the frames the two invocations start
    from. *)
Theorem generators_deterministic :
  (forall kv nv (f0 f1 : BCube.frame),
     fst (BCube.init kv nv f0) = fst (BCube.init kv nv f1)
     /\ BCube.f_self (snd (BCube.init kv nv f0)) = BCube.f_self (snd (BCube.init kv nv f1)))
  /\ (forall kv rv (f0 f1 : FatTree.frame),
        fst (FatTree.init kv rv f0) = fst (FatTree.init kv rv f1)
        /\ FatTree.f_self (snd (FatTree.init kv rv f0))
           = FatTree.f_self (snd (FatTree.init kv rv f1))).
Proof.
  split.
  - intros kv nv f0 f1.
    destruct (isinstance_int kv && isinstance_int nv) eqn:Ty.
    + destruct kv as [k| |], nv as [n| |]; try discriminate Ty.
      destruct (Z_lt_dec n 1) as [Hn|Hn];
        [now rewrite !bcube_init_range_error by auto|].
      destruct (Z_lt_dec k 0) as [Hk|Hk];
        [now rewrite !bcube_init_range_error by auto|].
      now rewrite !bcube_init_ok by lia.
    + now rewrite !bcube_init_type_error by assumption.
  - intros kv rv f0 f1.
    destruct (isinstance_int kv && isinstance_int rv) eqn:Ty.
    + destruct kv as [k| |], rv as [r| |]; try discriminate Ty.
      destruct (Z.eq_dec r 0) as [->|Hr];
        [now rewrite !ft_init_zero_ratio|].
      destruct (Z.eq_dec ((k / 2) mod r) 0) as [Hdiv|Hdiv];
        [|now rewrite !ft_init_range_error by auto].
      destruct (Z_lt_dec k 1) as [Hk|Hk];
        [now rewrite !ft_init_range_error by auto|].
      destruct (Z.eq_dec (k mod 2) 1) as [Hodd|Hodd];
        [now rewrite !ft_init_range_error by auto|].
      assert (Heven : k mod 2 = 0)
        by (pose proof (Z.mod_pos_bound k 2 ltac:(lia)); lia).
      destruct (ft_init_accepts k r f0 ltac:(lia) Heven Hr Hdiv) as [f Hf].
      now rewrite !Hf.
    + now rewrite !ft_init_type_error by assumption.
Qed.

(** ** BCube *)

(** C1.  For [k >= 0] and [n >= 1] the BCube constructor succeeds with
    exactly [n^(k+1)] hosts and [(k+1) * n^k] switches, all with distinct
    labels; every host has degree [k+1], its neighbours being one switch of
    each level in turn; every switch has degree [n]. *)
Theorem bcube_counts_and_degrees (k n : Z) :
  0 <= k -> 1 <= n ->
  exists g,
    BCube.run (VInt k) (VInt n) = (inr tt, g)
    /\ NoDup (labels g)
    /\ Z.of_nat (count_kind Host g) = n ^ (k + 1)
    /\ Z.of_nat (count_kind Switch g) = (k + 1) * n ^ k
    /\ (forall x, In (x, Host) (g_nodes g) ->
          Z.of_nat (degree g x) = k + 1
          /\ exists pos : Z -> Z,
               neighbours g x
               = map (fun level => switch_label level (pos level))
                     (xrange (k + 1)))
    /\ (forall x, In (x, Switch) (g_nodes g) -> Z.of_nat (degree g x) = n).
Proof.
  intros Hk Hn. exists (bcube_graph k n).
  split; [now apply bcube_run_ok|].
  split; [now apply bcube_labels_NoDup|].
  split; [now apply bcube_count_hosts|].
  split; [now apply bcube_count_switches|].
  split.
  - intros x Hx. apply bcube_host_nodes in Hx. destruct Hx as (v & Hv & ->).
    unfold degree. rewrite bcube_neighbours_host by assumption.
    split.
    + rewrite length_map, xrange_length. lia.
    + now exists (fun level => bcube_pos n level v).
  - intros x Hx. apply bcube_switch_nodes in Hx.
    destruct Hx as (level & i & Hl & Hi & ->).
    unfold degree. rewrite bcube_neighbours_switch by assumption.
    rewrite length_map. apply bcube_targets_length. lia.
Qed.

Lemma bcube_counts_and_degrees_witness :
  exists g,
    BCube.run (VInt 1) (VInt 2) = (inr tt, g)
    /\ Z.of_nat (count_kind Host g) = 2 ^ (1 + 1)
    /\ Z.of_nat (count_kind Switch g) = (1 + 1) * 2 ^ 1.
Proof.
  destruct (bcube_counts_and_degrees 1 2 ltac:(lia) ltac:(lia))
    as (g & Hrun & _ & Hh & Hs & _).
  exists g. auto.
Defined.

(** C3.  In the graph built for valid [(k, n)], the switch of level [l] and
    position [i] (the node at index [n^(k+1) + l * n^k + i]) is linked to
    exactly the [n] nodes at the positional indices [m + j * arg1],
    [0 <= j < n], of the node enumeration, where [arg1 = n^l],
    [arg2 = n^(l+1)] and [m = i mod arg1 + (i div arg1) * arg2]; these are
    [n] different nodes. *)
Theorem bcube_switch_wiring (k n level i : Z) :
  0 <= k -> 1 <= n -> 0 <= level <= k -> 0 <= i < n ^ k ->
  exists g,
    BCube.run (VInt k) (VInt n) = (inr tt, g)
    /\ let arg1 := n ^ level in
       let arg2 := n ^ (level + 1) in
       let m := i mod arg1 + i / arg1 * arg2 in
       let sw := switch_label level i in
       let linked := map (fun j => node_at g (m + j * arg1)) (xrange n) in
       node_at g (n ^ (k + 1) + level * n ^ k + i) = sw
       /\ links_of g sw = map (fun x => (sw, x)) linked
       /\ neighbours g sw = linked
       /\ NoDup linked.
Proof.
  intros Hk Hn Hl Hi. exists (bcube_graph k n).
  split; [now apply bcube_run_ok|]. cbv zeta.
  fold (bcube_base n level i).
  assert (E : map (fun j => node_at (bcube_graph k n)
                              (bcube_base n level i + j * n ^ level))
                  (xrange n)
              = map (bcube_host n) (bcube_targets n level i)).
  { unfold bcube_targets. rewrite map_map. apply map_ext_in.
    intros j Hj. apply in_xrange in Hj.
    apply bcube_node_at; try assumption.
    now apply bcube_target_bound. }
  rewrite E.
  split; [now apply bcube_node_at_switch|].
  split; [|split].
  - rewrite bcube_links_of_switch by assumption.
    unfold bcube_switch_links. now rewrite map_map.
  - now apply bcube_neighbours_switch.
  - unfold bcube_targets. rewrite map_map.
    apply Injective_map_NoDup; [|apply xrange_NoDup].
    intros j j' Ej. apply (bcube_host_inj n Hn) in Ej.
    pose proof (pow_level_pos n Hn level ltac:(lia)). nia.
Qed.

Lemma bcube_switch_wiring_witness :
  exists g,
    BCube.run (VInt 1) (VInt 2) = (inr tt, g)
    /\ neighbours g (switch_label 1 1)
       = map (fun j => node_at g (1 mod 2 ^ 1 + 1 / 2 ^ 1 * 2 ^ (1 + 1)
                                  + j * 2 ^ 1))
             (xrange 2).
Proof.
  destruct (bcube_switch_wiring 1 2 1 1 ltac:(lia) ltac:(lia) ltac:(lia)
              ltac:(cbn; lia))
    as (g & Hrun & _ & _ & Hn & _).
  exists g. split; [exact Hrun|exact Hn].
Defined.

(** ** Fat-Tree *)

(** C2.  For a positive even [k] and a positive [r] dividing [k/2] the
    Fat-Tree constructor succeeds with [(k/2)^2/r] core switches,
    [k * (k/2)] aggregation switches, [k * (k/2)] edge switches and [k^3/4]
    hosts, all with distinct labels; every edge switch has degree [k], its
    neighbours being [k/2] aggregation switches followed by [k/2] hosts;
    the neighbours of every aggregation switch are [k/2] edge switches
    followed by core switches only. *)
Theorem fattree_counts_and_degrees (k r : Z) :
  0 < k -> k mod 2 = 0 -> 0 < r -> (k / 2) mod r = 0 ->
  exists f,
    FatTree.run (VInt k) (VInt r) = (inr tt, f)
    /\ let g := FatTree.f_self f in
       NoDup (labels g)
       /\ Z.of_nat (List.length (FatTree.c f)) = (k / 2) ^ 2 / r
       /\ Z.of_nat (List.length (FatTree.a f)) = k * (k / 2)
       /\ Z.of_nat (List.length (FatTree.e f)) = k * (k / 2)
       /\ Z.of_nat (count_kind Host g) = k ^ 3 / 4
       /\ (forall x, In x (FatTree.e f) ->
             Z.of_nat (degree g x) = k
             /\ exists aggrs hosts,
                  neighbours g x = aggrs ++ hosts
                  /\ Z.of_nat (List.length aggrs) = k / 2
                  /\ Z.of_nat (List.length hosts) = k / 2
                  /\ (forall y, In y aggrs -> In y (FatTree.a f))
                  /\ (forall y, In y hosts -> In (y, Host) (g_nodes g)))
       /\ (forall x, In x (FatTree.a f) ->
             exists edges cores,
               neighbours g x = edges ++ cores
               /\ Z.of_nat (List.length edges) = k / 2
               /\ (forall y, In y edges -> In y (FatTree.e f))
               /\ (forall y, In y cores -> In y (FatTree.c f))).
Proof.
  intros Hk Heven Hr Hdiv. exists (ft_frame k r).
  split; [now apply ft_run_ok|].
  pose proof (ft_nc_nonneg k r Hk Heven Hr Hdiv) as Hnc.
  destruct (ft_half k Hk Heven) as [Hh Ek].
  unfold ft_frame, ft_frame_of, ft_graph_of. cbv zeta.
  cbn [FatTree.f_self FatTree.c FatTree.a FatTree.e].
  set (nc := (k / 2) ^ 2 / r) in *.
  fold (ft_graph_of k nc (ft_uplinks k r nc)).
  set (g := ft_graph_of k nc (ft_uplinks k r nc)).
  split; [apply ft_graph_labels_NoDup; assumption|].
  split; [now apply (ft_cores_length k)|].
  split; [now apply ft_all_aggrs_length|].
  split; [now apply ft_all_edges_length|].
  split.
  { rewrite ft_cube_quarter by assumption.
    apply ft_graph_host_count; assumption. }
  split.
  - intros x Hx. unfold ft_all_edges in Hx. apply in_flat_map in Hx.
    destruct Hx as (pod & Hpod & Hx). apply in_xrange in Hpod.
    pose proof Hx as Hx'. unfold ft_edges in Hx'. apply in_map_iff in Hx'.
    destruct Hx' as (ee & <- & Hee).
    pose proof (ft_neighbours_edge k nc (ft_uplinks k r nc) Hk Heven
                  (ft_uplinks_shape k r nc) pod ee Hpod Hee) as EN.
    fold g in EN.
    assert (Hlen : List.length
              (flat_map (link_ends (edge_label ee))
                 (ft_host_links (k / 2) 1 (ft_all_edges k nc)))
            = Z.to_nat (k / 2)).
    { apply ft_host_links_ends_length.
      - intros i. discriminate.
      - now apply ft_all_edges_NoDup.
      - unfold ft_all_edges. apply in_flat_map. exists pod.
        split; [now apply in_xrange|assumption]. }
    split.
    + unfold degree. rewrite EN, length_app, Hlen, ft_aggrs_length. lia.
    + eexists _, _. split; [exact EN|].
      split; [rewrite ft_aggrs_length; lia|].
      split; [rewrite Hlen; lia|]. split.
      * intros y Hy. unfold ft_all_aggrs. apply in_flat_map. exists pod.
        split; [now apply in_xrange|assumption].
      * intros y Hy. unfold g, ft_graph_of. cbn [g_nodes].
        apply in_or_app. right.
        apply (ft_host_links_ends_hosts (k / 2) (edge_label ee)); auto.
        intros i. discriminate.
  - intros x Hx. unfold ft_all_aggrs in Hx. apply in_flat_map in Hx.
    destruct Hx as (pod & Hpod & Hx). apply in_xrange in Hpod.
    unfold ft_aggrs in Hx. apply in_map_iff in Hx.
    destruct Hx as (aa & <- & Haa).
    pose proof (ft_neighbours_aggr k nc (ft_uplinks k r nc) Hk Heven
                  pod aa Hpod Haa) as EN.
    fold g in EN.
    eexists _, _. split; [exact EN|].
    split; [rewrite ft_edges_length; lia|]. split.
    + intros y Hy. unfold ft_all_edges. apply in_flat_map. exists pod.
      split; [now apply in_xrange|assumption].
    + intros y Hy.
      apply (ft_uplinks_ends_aggr nc (ft_uplinks k r nc)
               (ft_uplinks_shape k r nc) aa y Hy).
Qed.

Lemma fattree_counts_and_degrees_witness :
  exists f,
    FatTree.run (VInt 4) (VInt 2) = (inr tt, f)
    /\ Z.of_nat (List.length (FatTree.c f)) = (4 / 2) ^ 2 / 2
    /\ Z.of_nat (count_kind Host (FatTree.f_self f)) = 4 ^ 3 / 4.
Proof.
  destruct (fattree_counts_and_degrees 4 2 ltac:(lia) ltac:(reflexivity)
              ltac:(lia) ltac:(reflexivity))
    as (f & Hrun & _ & Hc & _ & _ & Hh & _).
  exists f. auto.
Defined.

(** C4, as the specification words it, fails at [FatTreeTopo(4, 1)] for
    core switch [0] and pod [0]: position [0 div (4/2/1) + 4*0 = 0] of the
    switch ordering holds the core switch itself, and the graph has no
    link between the core switch and the node at that position. *)
Lemma fattree_uplink_position_counterexample :
  let f := snd (FatTree.run (VInt 4) (VInt 1)) in
  fst (FatTree.run (VInt 4) (VInt 1)) = inr tt
  /\ ~ (exists x y,
          getitem (FatTree.s f) 0 = inr x
          /\ getitem (FatTree.s f) (0 / (4 / 2 / 1) + 4 * 0) = inr y
          /\ (In (x, y) (g_links (FatTree.f_self f))
              \/ In (y, x) (g_links (FatTree.f_self f)))).
Proof.
  cbv zeta. split; [reflexivity|].
  intros (x & y & Hx & Hy & Hl).
  vm_compute in Hx, Hy. injection Hx as <-. injection Hy as <-.
  assert (E : existsb (fun l => String.eqb (fst l) "c1"
                                && String.eqb (snd l) "c1")
                (g_links (FatTree.f_self
                            (snd (FatTree.run (VInt 4) (VInt 1)))))
              = false) by (vm_compute; reflexivity).
  assert (T : existsb (fun l => String.eqb (fst l) "c1"
                                && String.eqb (snd l) "c1")
                (g_links (FatTree.f_self
                            (snd (FatTree.run (VInt 4) (VInt 1)))))
              = true).
  { apply existsb_exists. exists ("c1", "c1")%string.
    split; [tauto|reflexivity]. }
  congruence.
Qed.

(** C4, amended.  For valid [(k, r)], every core switch index [c] in
    [[0, n_core)] and every pod [p] in [[0, k)], the graph has a link from
    core switch [c] (position [c] of the switch ordering) to the switch at
    position [n_core + (c div (k/2/r)) + k*p], which is an aggregation
    switch and lies in the aggregation band of pod [p]. *)
Theorem fattree_uplink_wiring (k r cn pod : Z) :
  0 < k -> k mod 2 = 0 -> 0 < r -> (k / 2) mod r = 0 ->
  0 <= cn < (k / 2) ^ 2 / r -> 0 <= pod < k ->
  exists f x y,
    FatTree.run (VInt k) (VInt r) = (inr tt, f)
    /\ let n_core := (k / 2) ^ 2 / r in
       let aggr_node := n_core + cn / (k / 2 / r) + k * pod in
       getitem (FatTree.s f) cn = inr x
       /\ In x (FatTree.c f)
       /\ getitem (FatTree.s f) aggr_node = inr y
       /\ In y (FatTree.a f)
       /\ n_core + k * pod <= aggr_node < n_core + k * pod + k / 2
       /\ In (x, y) (g_links (FatTree.f_self f)).
Proof.
  intros Hk Heven Hr Hdiv Hcn Hpod.
  pose proof (ft_group_bound k r Hk Heven Hr Hdiv cn Hcn) as Hq.
  pose proof (ft_nc_nonneg k r Hk Heven Hr Hdiv) as Hnc.
  exists (ft_frame k r), (core_label (cn + 1)),
         (ft_uplink_target k r ((k / 2) ^ 2 / r) cn pod).
  split; [now apply ft_run_ok|]. cbv zeta.
  unfold ft_frame, ft_frame_of, ft_graph_of. cbv zeta.
  cbn [FatTree.f_self FatTree.c FatTree.a FatTree.s g_links].
  split; [now apply ft_getitem_core|].
  split.
  { unfold ft_cores. apply (in_map (fun i => core_label (i + 1))).
    now apply in_xrange. }
  split; [now apply ft_getitem_aggr|].
  split.
  { unfold ft_all_aggrs. apply in_flat_map. exists pod.
    split; [now apply in_xrange|].
    unfold ft_uplink_target, ft_aggrs, ft_aggr_nodes.
    apply in_map. apply in_xrange2. lia. }
  split; [lia|].
  apply in_or_app. right. apply in_or_app. left. now apply ft_uplink_In.
Qed.

Lemma fattree_uplink_wiring_witness :
  exists f x y,
    FatTree.run (VInt 4) (VInt 1) = (inr tt, f)
    /\ getitem (FatTree.s f) 3 = inr x
    /\ getitem (FatTree.s f) ((4 / 2) ^ 2 / 1 + 3 / (4 / 2 / 1) + 4 * 2)
       = inr y
    /\ In (x, y) (g_links (FatTree.f_self f)).
Proof.
  destruct (fattree_uplink_wiring 4 1 3 2 ltac:(lia) ltac:(reflexivity)
              ltac:(lia) ltac:(reflexivity) ltac:(cbn; lia) ltac:(lia))
    as (f & x & y & Hrun & Hx & _ & Hy & _ & _ & Hl).
  exists f, x, y. auto.
Defined.




(** ** No link to an unknown node *)

(** C8.  For valid parameters both constructors run to completion in the
    model whose [addLink] raises [UnknownNodeError] on an unknown endpoint
    and whose indexing raises [IndexError] outside the list, so neither
    guard fires.  In BCube every positional index [m + j * arg1] lies in
    [[0, n^(k+1))] and is the index of a host.  In Fat-Tree the indices
    [aa - 1] and [ee - 1] of the pod loop hold an aggregation and an edge
    switch, [core_node] holds a core switch, and [aggr_node] lies in the
    aggregation band [[n_core + k*p, n_core + k*p + k/2)] of pod [p] and
    holds an aggregation switch. *)
Theorem generators_link_existing_nodes :
  (forall k n, 0 <= k -> 1 <= n ->
     exists g,
       BCube.run (VInt k) (VInt n) = (inr tt, g)
       /\ forall level i j,
            0 <= level <= k -> 0 <= i < n ^ k -> 0 <= j < n ->
            let arg1 := n ^ level in
            let arg2 := n ^ (level + 1) in
            let m := i mod arg1 + i / arg1 * arg2 in
            0 <= m + j * arg1 < n ^ (k + 1)
            /\ In (node_at g (m + j * arg1), Host) (g_nodes g))
  /\ (forall k r, 0 < k -> k mod 2 = 0 -> 0 < r -> (k / 2) mod r = 0 ->
        exists f,
          FatTree.run (VInt k) (VInt r) = (inr tt, f)
          /\ let n_core := (k / 2) ^ 2 / r in
             (forall pod aa ee,
                0 <= pod < k ->
                n_core + k * pod + 1 <= aa < n_core + k * pod + 1 + k / 2 ->
                n_core + k * pod + 1 + k / 2 <= ee
                  < n_core + k * pod + 1 + k / 2 + k / 2 ->
                (exists x, getitem (FatTree.s f) (aa - 1) = inr x
                           /\ In x (FatTree.a f))
                /\ (exists y, getitem (FatTree.s f) (ee - 1) = inr y
                              /\ In y (FatTree.e f)))
             /\ (forall cn pod,
                   0 <= cn < n_core -> 0 <= pod < k ->
                   let aggr_node := n_core + cn / (k / 2 / r) + k * pod in
                   n_core + k * pod <= aggr_node < n_core + k * pod + k / 2
                   /\ (exists x, getitem (FatTree.s f) cn = inr x
                                 /\ In x (FatTree.c f))
                   /\ (exists y, getitem (FatTree.s f) aggr_node = inr y
                                 /\ In y (FatTree.a f)))).
Proof.
  split.
  - intros k n Hk Hn. exists (bcube_graph k n).
    split; [now apply bcube_run_ok|].
    intros level i j Hl Hi Hj. cbv zeta. fold (bcube_base n level i).
    pose proof (bcube_target_bound k n Hk Hn level i j Hl Hi Hj) as Hb.
    split; [exact Hb|].
    rewrite bcube_node_at by assumption.
    unfold bcube_graph. cbn [g_nodes]. apply in_or_app. left.
    unfold bcube_hosts.
    apply (in_map (fun v => (bcube_host n v, Host))). now apply in_xrange.
  - intros k r Hk Heven Hr Hdiv. exists (ft_frame k r).
    split; [now apply ft_run_ok|]. cbv zeta.
    pose proof (ft_nc_nonneg k r Hk Heven Hr Hdiv) as Hnc.
    unfold ft_frame, ft_frame_of. cbv zeta.
    cbn [FatTree.c FatTree.a FatTree.e FatTree.s].
    set (nc := (k / 2) ^ 2 / r) in *. split.
    + intros pod aa ee Hpod Haa Hee.
      assert (Ia : In aa (ft_aggr_nodes k nc pod))
        by (unfold ft_aggr_nodes; now apply in_xrange2).
      assert (Ie : In ee (ft_edge_nodes k nc pod))
        by (unfold ft_edge_nodes; now apply in_xrange2).
      split.
      * exists (aggr_label aa).
        split; [now apply (ft_getitem_pod_aggr k nc Hk Heven Hnc pod)|].
        unfold ft_all_aggrs. apply in_flat_map. exists pod.
        split; [now apply in_xrange|]. unfold ft_aggrs. now apply in_map.
      * exists (edge_label ee).
        split; [now apply (ft_getitem_pod_edge k nc Hk Heven Hnc pod)|].
        unfold ft_all_edges. apply in_flat_map. exists pod.
        split; [now apply in_xrange|]. unfold ft_edges. now apply in_map.
    + intros cn pod Hcn Hpod.
      pose proof (ft_group_bound k r Hk Heven Hr Hdiv cn Hcn) as Hq.
      split; [lia|]. split.
      * exists (core_label (cn + 1)). split; [now apply ft_getitem_core|].
        unfold ft_cores. apply (in_map (fun i => core_label (i + 1))).
        now apply in_xrange.
      * exists (ft_uplink_target k r nc cn pod).
        split; [now apply ft_getitem_aggr|].
        unfold ft_all_aggrs. apply in_flat_map. exists pod.
        split; [now apply in_xrange|].
        unfold ft_uplink_target, ft_aggrs, ft_aggr_nodes.
        apply in_map. apply in_xrange2. fold nc. lia.
Qed.

Lemma generators_link_existing_nodes_witness :
  (exists g, BCube.run (VInt 1) (VInt 2) = (inr tt, g)
             /\ 0 <= 1 mod 2 ^ 1 + 1 / 2 ^ 1 * 2 ^ (1 + 1) + 1 * 2 ^ 1
                < 2 ^ (1 + 1))
  /\ (exists f, FatTree.run (VInt 4) (VInt 2) = (inr tt, f)
                /\ (4 / 2) ^ 2 / 2 + 4 * 3
                   <= (4 / 2) ^ 2 / 2 + 1 / (4 / 2 / 2) + 4 * 3
                   < (4 / 2) ^ 2 / 2 + 4 * 3 + 4 / 2).
Proof.
  destruct generators_link_existing_nodes as [HB HF]. split.
  - destruct (HB 1 2 ltac:(lia) ltac:(lia)) as (g & Hrun & Hidx).
    exists g. split; [exact Hrun|].
    exact (proj1 (Hidx 1 1 1 ltac:(lia) ltac:(cbn; lia) ltac:(lia))).
  - destruct (HF 4 2 ltac:(lia) ltac:(reflexivity) ltac:(lia)
                ltac:(reflexivity)) as (f & Hrun & _ & Hup).
    exists f. split; [exact Hrun|].
    exact (proj1 (Hup 1 3 ltac:(cbn; lia) ltac:(lia))).
Defined.


(** * Further properties of the constructors *)

(** ** Which parameters are accepted *)

(** X1.  [BCubeTopo(k, n)] runs to completion exactly when both parameters
    are integers with [k >= 0] and [n >= 1]. *)
Theorem bcube_accepts_iff (kv nv : value) (f0 : BCube.frame) :
  fst (BCube.init kv nv f0) = inr tt
  <-> exists k n, kv = VInt k /\ nv = VInt n /\ 0 <= k /\ 1 <= n.
Proof.
  split.
  - intros Hrun.
    destruct (isinstance_int kv && isinstance_int nv) eqn:Ty.
    + destruct kv as [k| |], nv as [n| |]; try discriminate Ty.
      exists k, n. split; [reflexivity|]. split; [reflexivity|].
      destruct (Z_lt_dec n 1) as [Hn|Hn].
      { rewrite bcube_init_range_error in Hrun by auto. discriminate Hrun. }
      destruct (Z_lt_dec k 0) as [Hk|Hk].
      { rewrite bcube_init_range_error in Hrun by auto. discriminate Hrun. }
      lia.
    + rewrite bcube_init_type_error in Hrun by assumption. discriminate Hrun.
  - intros (k & n & -> & -> & Hk & Hn). now rewrite bcube_init_ok.
Qed.

(** X2.  [FatTreeTopo(k, r)] runs to completion exactly when both
    parameters are integers, [k] is positive and even, and [r] is a
    non-zero divisor of [k/2]: a negative divisor is accepted as well. *)
Theorem fattree_accepts_iff (kv rv : value) (f0 : FatTree.frame) :
  fst (FatTree.init kv rv f0) = inr tt
  <-> exists k r, kv = VInt k /\ rv = VInt r
                  /\ 0 < k /\ k mod 2 = 0 /\ r <> 0 /\ (k / 2) mod r = 0.
Proof.
  split.
  - intros Hrun.
    destruct (isinstance_int kv && isinstance_int rv) eqn:Ty.
    + destruct kv as [k| |], rv as [r| |]; try discriminate Ty.
      exists k, r. split; [reflexivity|]. split; [reflexivity|].
      destruct (Z.eq_dec r 0) as [->|Hr].
      { rewrite ft_init_zero_ratio in Hrun. discriminate Hrun. }
      destruct (Z.eq_dec ((k / 2) mod r) 0) as [Hdiv|Hdiv].
      2:{ rewrite ft_init_range_error in Hrun by auto. discriminate Hrun. }
      destruct (Z_lt_dec k 1) as [Hk|Hk].
      { rewrite ft_init_range_error in Hrun by auto. discriminate Hrun. }
      destruct (Z.eq_dec (k mod 2) 1) as [Hodd|Hodd].
      { rewrite ft_init_range_error in Hrun by auto. discriminate Hrun. }
      pose proof (Z.mod_pos_bound k 2 ltac:(lia)). repeat split; lia.
    + rewrite ft_init_type_error in Hrun by assumption. discriminate Hrun.
  - intros (k & r & -> & -> & Hk & Heven & Hr & Hdiv).
    destruct (ft_init_accepts k r f0 Hk Heven Hr Hdiv) as [f Hf].
    now rewrite Hf.
Qed.

(** ** Fat-Tree with a negative ratio *)

(** X3.  A negative [r] that divides [k/2] passes the validation; the
    constructor then builds the pods and the hosts but no core switch and
    no uplink: every aggregation switch is left with its [k/2] edge
    switches as only neighbours. *)
Theorem fattree_negative_ratio_no_core (k r : Z) :
  0 < k -> k mod 2 = 0 -> r < 0 -> (k / 2) mod r = 0 ->
  exists f,
    FatTree.run (VInt k) (VInt r) = (inr tt, f)
    /\ let g := FatTree.f_self f in
       FatTree.c f = []
       /\ Z.of_nat (List.length (FatTree.a f)) = k * (k / 2)
       /\ Z.of_nat (List.length (FatTree.e f)) = k * (k / 2)
       /\ Z.of_nat (count_kind Host g) = k ^ 3 / 4
       /\ (forall x, In x (FatTree.a f) ->
             Z.of_nat (degree g x) = k / 2
             /\ forall y, In y (neighbours g x) -> In y (FatTree.e f)).
Proof.
  intros Hk Heven Hr Hdiv. exists (ft_frame_of k 0 []).
  split; [now apply ft_init_negative|]. cbv zeta.
  destruct (ft_half k Hk Heven) as [Hh Ek].
  assert (Hups : forall l : string * string, In l [] ->
            exists i j, l = (core_label i, aggr_label j)
                        /\ In (core_label i) (ft_cores 0))
    by (intros l []).
  unfold ft_frame_of.
  cbn [FatTree.f_self FatTree.c FatTree.a FatTree.e].
  split; [reflexivity|].
  split; [apply ft_all_aggrs_length; assumption|].
  split; [apply ft_all_edges_length; assumption|].
  split.
  { rewrite ft_cube_quarter by assumption.
    apply ft_graph_host_count; assumption. }
  intros x Hx. unfold ft_all_aggrs in Hx. apply in_flat_map in Hx.
  destruct Hx as (pod & Hpod & Hx). apply in_xrange in Hpod.
  unfold ft_aggrs in Hx. apply in_map_iff in Hx.
  destruct Hx as (aa & <- & Haa).
  pose proof (ft_neighbours_aggr k 0 [] Hk Heven pod aa Hpod Haa) as EN.
  cbn [flat_map] in EN. rewrite app_nil_r in EN.
  unfold degree. rewrite EN. split.
  - rewrite ft_edges_length. lia.
  - intros y Hy. unfold ft_all_edges. apply in_flat_map. exists pod.
    split; [now apply in_xrange|assumption].
Qed.

Lemma fattree_negative_ratio_no_core_witness :
  exists f,
    FatTree.run (VInt 4) (VInt (-2)) = (inr tt, f)
    /\ FatTree.c f = []
    /\ Z.of_nat (List.length (FatTree.a f)) = 4 * (4 / 2).
Proof.
  destruct (fattree_negative_ratio_no_core 4 (-2) ltac:(lia)
              ltac:(reflexivity) ltac:(lia) ltac:(reflexivity))
    as (f & Hrun & Hc & Ha & _).
  exists f. auto.
Defined.

(** ** Fat-Tree: the numbering of the switches *)

(** X4.  In the switch list of a valid run the label of the switch at
    position [p] carries the number [p + 1]: it is [c(p+1)] in the core
    part and [a(p+1)] or [e(p+1)] in the pods; the list has
    [n_core + k * k] entries. *)
Theorem fattree_switch_numbering (k r : Z) :
  0 < k -> k mod 2 = 0 -> 0 < r -> (k / 2) mod r = 0 ->
  exists f,
    FatTree.run (VInt k) (VInt r) = (inr tt, f)
    /\ let n_core := (k / 2) ^ 2 / r in
       Z.of_nat (List.length (FatTree.s f)) = n_core + k * k
       /\ forall p, 0 <= p < n_core + k * k ->
            exists x, getitem (FatTree.s f) p = inr x
                      /\ (x = core_label (p + 1) /\ p < n_core
                          \/ n_core <= p
                             /\ (x = aggr_label (p + 1) /\ In x (FatTree.a f)
                                 \/ x = edge_label (p + 1)
                                    /\ In x (FatTree.e f))).
Proof.
  intros Hk Heven Hr Hdiv. exists (ft_frame k r).
  split; [now apply ft_run_ok|]. cbv zeta.
  pose proof (ft_nc_nonneg k r Hk Heven Hr Hdiv) as Hnc.
  destruct (ft_half k Hk Heven) as [Hh Ek].
  unfold ft_frame, ft_frame_of. cbv zeta.
  cbn [FatTree.s FatTree.a FatTree.e].
  set (nc := (k / 2) ^ 2 / r) in *. split.
  - unfold ft_switches.
    rewrite length_app, Nat2Z.inj_add, (ft_cores_length k nc Hnc).
    rewrite (length_flat_map_const _ (Z.to_nat k))
      by (now apply ft_pod_switches_length).
    rewrite xrange_length, Nat2Z.inj_mul, !Z2Nat.id by lia. reflexivity.
  - intros p Hp. destruct (Z_lt_dec p nc) as [Hc|Hc].
    + exists (core_label (p + 1)).
      split; [apply ft_getitem_core; lia|]. left. split; [reflexivity|lia].
    + pose proof (Z.div_mod (p - nc) k ltac:(lia)) as Hdm.
      pose proof (Z.mod_pos_bound (p - nc) k Hk) as Hm.
      set (pod := (p - nc) / k) in *. set (t := (p - nc) mod k) in *.
      assert (Hpod : 0 <= pod < k) by nia.
      destruct (Z_lt_dec t (k / 2)) as [Ht|Ht].
      * assert (Haa : In (p + 1) (ft_aggr_nodes k nc pod))
          by (unfold ft_aggr_nodes; apply in_xrange2; lia).
        exists (aggr_label (p + 1)). split.
        { replace p with (p + 1 - 1) at 1 by lia.
          now apply (ft_getitem_pod_aggr k nc Hk Heven Hnc pod). }
        right. split; [lia|]. left. split; [reflexivity|].
        unfold ft_all_aggrs. apply in_flat_map. exists pod.
        split; [now apply in_xrange|]. unfold ft_aggrs. now apply in_map.
      * assert (Hee : In (p + 1) (ft_edge_nodes k nc pod))
          by (unfold ft_edge_nodes; apply in_xrange2; lia).
        exists (edge_label (p + 1)). split.
        { replace p with (p + 1 - 1) at 1 by lia.
          now apply (ft_getitem_pod_edge k nc Hk Heven Hnc pod). }
        right. split; [lia|]. right. split; [reflexivity|].
        unfold ft_all_edges. apply in_flat_map. exists pod.
        split; [now apply in_xrange|]. unfold ft_edges. now apply in_map.
Qed.

Lemma fattree_switch_numbering_witness :
  exists f,
    FatTree.run (VInt 4) (VInt 2) = (inr tt, f)
    /\ Z.of_nat (List.length (FatTree.s f)) = (4 / 2) ^ 2 / 2 + 4 * 4.
Proof.
  destruct (fattree_switch_numbering 4 2 ltac:(lia) ltac:(reflexivity)
              ltac:(lia) ltac:(reflexivity)) as (f & Hrun & Hlen & _).
  exists f. auto.
Defined.

(** ** Fat-Tree: the core layer *)

Lemma xrange_as_xrange2 n : xrange n = xrange2 0 n.
Proof.
  unfold xrange, xrange2. rewrite Z.sub_0_r. apply map_ext. intros t. lia.
Qed.

(** Among the first [h * d] naturals exactly [d] fall into group [q]. *)
Lemma group_filter (d h q : Z) :
  0 < d -> 0 <= q < h ->
  filter (fun cn => cn / d =? q) (xrange (h * d))
  = xrange2 (q * d) (q * d + d).
Proof.
  intros Hd Hq. rewrite xrange_as_xrange2.
  rewrite (xrange2_app 0 (q * d) (h * d)) by nia.
  rewrite (xrange2_app (q * d) (q * d + d) (h * d)) by nia.
  rewrite !filter_app, filter_none, filter_all, filter_none.
  - now rewrite app_nil_r.
  - intros cn Hcn. apply in_xrange2 in Hcn. apply Z.eqb_neq.
    assert (q + 1 <= cn / d) by (apply Z.div_le_lower_bound; nia). lia.
  - intros cn Hcn. apply in_xrange2 in Hcn. apply Z.eqb_eq.
    symmetry. apply Z.div_unique with (r := cn - q * d); lia.
  - intros cn Hcn. apply in_xrange2 in Hcn. apply Z.eqb_neq.
    assert (cn / d < q) by (apply Z.div_lt_upper_bound; nia). lia.
Qed.

Section FatTreeCore.
Variables k r : Z.
Hypothesis Hk : 0 < k.
Hypothesis Heven : k mod 2 = 0.
Hypothesis Hr : 0 < r.
Hypothesis Hdiv : (k / 2) mod r = 0.

Let nc := (k / 2) ^ 2 / r.
Let d := k / 2 / r.
Let g := ft_graph k r.

Lemma ft_pods_ends_none x :
  (forall i, aggr_label i <> x) -> (forall i, edge_label i <> x) ->
  flat_map (link_ends x) (flat_map (ft_pod_links k nc) (xrange k)) = [].
Proof.
  intros Ha He. apply flat_map_all_nil. intros l Hl.
  apply in_flat_map in Hl. destruct Hl as (pod & _ & Hl).
  unfold ft_pod_links in Hl. apply in_flat_map in Hl.
  destruct Hl as (aa & _ & Hl). apply in_map_iff in Hl.
  destruct Hl as (ee & <- & _). now apply link_ends_none.
Qed.

Lemma ft_uplink_target_inj cn pod pod' :
  ft_uplink_target k r nc cn pod = ft_uplink_target k r nc cn pod' ->
  pod = pod'.
Proof.
  unfold ft_uplink_target. intros E. apply aggr_label_inj in E. nia.
Qed.

(** The neighbours of a core switch, in creation order: the aggregation
    switch it selects in pod 0, in pod 1, and so on. *)
Lemma ft_neighbours_core cn :
  0 <= cn < nc ->
  neighbours g (core_label (cn + 1))
  = map (ft_uplink_target k r nc cn) (xrange k).
Proof.
  intros Hcn. unfold neighbours, g, ft_graph, ft_graph_of. cbv zeta.
  cbn [g_links]. fold nc. rewrite !flat_map_app.
  rewrite ft_pods_ends_none by (intros; discriminate).
  rewrite ft_host_links_ends_absent.
  - rewrite app_nil_r. cbn [app]. unfold ft_uplinks.
    rewrite flat_map_flat_map.
    rewrite (flat_map_single _ _ cn);
      [|apply xrange_NoDup|now apply in_xrange|].
    + rewrite flat_map_map.
      rewrite (flat_map_ext_in _
                 (fun pod => [ft_uplink_target k r nc cn pod])).
      * apply flat_map_singleton.
      * intros pod _. apply link_ends_fst. discriminate.
    + intros cn' _ Hne. rewrite flat_map_map. apply flat_map_all_nil.
      intros pod _. apply link_ends_none; [|discriminate].
      intros E. apply core_label_inj in E. lia.
  - intros i. discriminate.
  - intros Hin. unfold ft_all_edges in Hin. apply in_flat_map in Hin.
    destruct Hin as (p & _ & Hin). apply in_map_iff in Hin.
    destruct Hin as (j & E & _). discriminate E.
Qed.

(** The core switches that select the aggregation switch at offset [q] of
    a pod are those of group [q]. *)
Lemma ft_uplinks_ends_aggr_group pod q :
  0 <= pod < k -> 0 <= q < k / 2 ->
  flat_map (link_ends (aggr_label (nc + k * pod + 1 + q)))
           (ft_uplinks k r nc)
  = map (fun cn => core_label (cn + 1))
        (filter (fun cn => cn / d =? q) (xrange nc)).
Proof.
  intros Hpod Hq.
  destruct (ft_half k Hk Heven) as [Hh Ek].
  unfold ft_uplinks. rewrite flat_map_flat_map.
  rewrite filter_as_flat_map, map_flat_map.
  apply flat_map_ext_in. intros cn Hcn. apply in_xrange in Hcn.
  pose proof (ft_group_bound k r Hk Heven Hr Hdiv cn Hcn) as Hb.
  fold d in Hb. rewrite flat_map_map. unfold ft_uplink_target. fold d.
  destruct (Z.eqb_spec (cn / d) q) as [E|Hne].
  - rewrite (flat_map_single _ _ pod);
      [|apply xrange_NoDup|now apply in_xrange|].
    + rewrite E. apply link_ends_snd. discriminate.
    + intros pod' Hpod' Hne. apply in_xrange in Hpod'.
      apply link_ends_none; [discriminate|].
      intros E'. apply aggr_label_inj in E'. nia.
  - apply flat_map_all_nil. intros pod' Hpod'. apply in_xrange in Hpod'.
    apply link_ends_none; [discriminate|].
    intros E'. apply aggr_label_inj in E'.
    set (q' := cn / d) in *.
    assert (pod' = pod) by nia. subst pod'. lia.
Qed.

Lemma ft_uplinks_ends_aggr_list pod q :
  0 <= pod < k -> 0 <= q < k / 2 ->
  flat_map (link_ends (aggr_label (nc + k * pod + 1 + q)))
           (ft_uplinks k r nc)
  = map (fun cn => core_label (cn + 1))
        (xrange2 (q * d) (q * d + d)).
Proof.
  intros Hpod Hq. rewrite ft_uplinks_ends_aggr_group by assumption.
  destruct (ft_group k r Hk Heven Hr Hdiv) as [Hd _].
  destruct (ft_n_core k r Hk Heven Hr Hdiv) as [Enc _].
  unfold nc. rewrite Enc. fold d. now rewrite group_filter by assumption.
Qed.
End FatTreeCore.

(** X5.  In a valid Fat-Tree every core switch has degree [k]: its
    neighbours are, pod by pod, the switch at position
    [n_core + (c div (k/2/r)) + k*p] of the switch list, which is an
    aggregation switch; so it has exactly one neighbour in every pod. *)
Theorem fattree_core_switch_neighbours (k r cn : Z) :
  0 < k -> k mod 2 = 0 -> 0 < r -> (k / 2) mod r = 0 ->
  0 <= cn < (k / 2) ^ 2 / r ->
  exists f x,
    FatTree.run (VInt k) (VInt r) = (inr tt, f)
    /\ getitem (FatTree.s f) cn = inr x
    /\ let g := FatTree.f_self f in
       let n_core := (k / 2) ^ 2 / r in
       Z.of_nat (degree g x) = k
       /\ forall pod, 0 <= pod < k ->
            exists y,
              nth_error (neighbours g x) (Z.to_nat pod) = Some y
              /\ getitem (FatTree.s f) (n_core + cn / (k / 2 / r) + k * pod)
                 = inr y
              /\ In y (FatTree.a f).
Proof.
  intros Hk Heven Hr Hdiv Hcn.
  pose proof (ft_nc_nonneg k r Hk Heven Hr Hdiv) as Hnc.
  pose proof (ft_group_bound k r Hk Heven Hr Hdiv cn Hcn) as Hq.
  exists (ft_frame k r), (core_label (cn + 1)).
  split; [now apply ft_run_ok|].
  unfold ft_frame at 1 2, ft_frame_of. cbv zeta.
  cbn [FatTree.s FatTree.f_self FatTree.a].
  split; [now apply ft_getitem_core|].
  fold (ft_graph_of k ((k / 2) ^ 2 / r)
          (ft_uplinks k r ((k / 2) ^ 2 / r))).
  change (ft_graph_of k ((k / 2) ^ 2 / r)
            (ft_uplinks k r ((k / 2) ^ 2 / r))) with (ft_graph k r).
  unfold degree. rewrite ft_neighbours_core by assumption.
  split; [rewrite length_map, xrange_length; lia|].
  intros pod Hpod.
  exists (ft_uplink_target k r ((k / 2) ^ 2 / r) cn pod).
  split; [now apply (nth_error_map_xrange
                       (ft_uplink_target k r ((k / 2) ^ 2 / r) cn))|].
  split; [now apply ft_getitem_aggr|].
  unfold ft_all_aggrs. apply in_flat_map. exists pod.
  split; [now apply in_xrange|].
  unfold ft_uplink_target, ft_aggrs, ft_aggr_nodes.
  apply in_map. apply in_xrange2. lia.
Qed.

Lemma fattree_core_switch_neighbours_witness :
  exists f x,
    FatTree.run (VInt 4) (VInt 2) = (inr tt, f)
    /\ getitem (FatTree.s f) 1 = inr x
    /\ Z.of_nat (degree (FatTree.f_self f) x) = 4.
Proof.
  destruct (fattree_core_switch_neighbours 4 2 1 ltac:(lia)
              ltac:(reflexivity) ltac:(lia) ltac:(reflexivity)
              ltac:(cbn; lia)) as (f & x & Hrun & Hx & Hd & _).
  exists f, x. auto.
Defined.

(** X6.  In a valid Fat-Tree every aggregation switch has [k/2] edge
    switches and exactly [(k/2)/r] core switches as neighbours, hence
    degree [k/2 + (k/2)/r]: the full [k] when [r = 1], fewer uplinks as [r]
    grows. *)
Theorem fattree_aggregation_degree (k r : Z) :
  0 < k -> k mod 2 = 0 -> 0 < r -> (k / 2) mod r = 0 ->
  exists f,
    FatTree.run (VInt k) (VInt r) = (inr tt, f)
    /\ let g := FatTree.f_self f in
       forall x, In x (FatTree.a f) ->
         Z.of_nat (degree g x) = k / 2 + k / 2 / r
         /\ exists edges cores,
              neighbours g x = edges ++ cores
              /\ Z.of_nat (List.length edges) = k / 2
              /\ Z.of_nat (List.length cores) = k / 2 / r
              /\ (forall y, In y edges -> In y (FatTree.e f))
              /\ (forall y, In y cores -> In y (FatTree.c f)).
Proof.
  intros Hk Heven Hr Hdiv.
  pose proof (ft_nc_nonneg k r Hk Heven Hr Hdiv) as Hnc.
  destruct (ft_half k Hk Heven) as [Hh Ek].
  destruct (ft_group k r Hk Heven Hr Hdiv) as [Hd Eh].
  destruct (ft_n_core k r Hk Heven Hr Hdiv) as [Enc _].
  exists (ft_frame k r). split; [now apply ft_run_ok|].
  unfold ft_frame, ft_frame_of. cbv zeta.
  cbn [FatTree.f_self FatTree.c FatTree.a FatTree.e].
  set (nc := (k / 2) ^ 2 / r) in *.
  set (g := ft_graph_of k nc (ft_uplinks k r nc)).
  intros x Hx. unfold ft_all_aggrs in Hx. apply in_flat_map in Hx.
  destruct Hx as (pod & Hpod & Hx). apply in_xrange in Hpod.
  unfold ft_aggrs in Hx. apply in_map_iff in Hx.
  destruct Hx as (aa & <- & Haa).
  pose proof (ft_neighbours_aggr k nc (ft_uplinks k r nc) Hk Heven
                pod aa Hpod Haa) as EN.
  fold g in EN.
  pose proof Haa as Hband. unfold ft_aggr_nodes in Hband.
  apply in_xrange2 in Hband.
  pose proof (ft_uplinks_ends_aggr_list k r Hk Heven Hr Hdiv pod
                (aa - (nc + k * pod + 1)) Hpod ltac:(lia)) as EU.
  fold nc in EU.
  replace (nc + k * pod + 1 + (aa - (nc + k * pod + 1))) with aa in EU
    by lia.
  rewrite EU in EN.
  assert (Hcl : Z.of_nat
            (List.length
               (map (fun cn => core_label (cn + 1))
                  (xrange2 ((aa - (nc + k * pod + 1)) * (k / 2 / r))
                     ((aa - (nc + k * pod + 1)) * (k / 2 / r) + k / 2 / r))))
          = k / 2 / r)
    by (rewrite length_map, xrange2_length; lia).
  split.
  - unfold degree. rewrite EN, length_app, Nat2Z.inj_add, Hcl.
    rewrite ft_edges_length. lia.
  - eexists _, _. split; [exact EN|].
    split; [rewrite ft_edges_length; lia|].
    split; [exact Hcl|]. split.
    + intros y Hy. unfold ft_all_edges. apply in_flat_map. exists pod.
      split; [now apply in_xrange|assumption].
    + intros y Hy. apply in_map_iff in Hy. destruct Hy as (cn & <- & Hcn).
      apply in_xrange2 in Hcn. unfold ft_cores.
      apply (in_map (fun i => core_label (i + 1))). apply in_xrange.
      rewrite Enc. nia.
Qed.

Lemma fattree_aggregation_degree_witness :
  exists f,
    FatTree.run (VInt 4) (VInt 2) = (inr tt, f)
    /\ forall x, In x (FatTree.a f) ->
         Z.of_nat (degree (FatTree.f_self f) x) = 4 / 2 + 4 / 2 / 2.
Proof.
  destruct (fattree_aggregation_degree 4 2 ltac:(lia) ltac:(reflexivity)
              ltac:(lia) ltac:(reflexivity)) as (f & Hrun & Hdeg).
  exists f. split; [exact Hrun|]. intros x Hx. exact (proj1 (Hdeg x Hx)).
Defined.

(** ** Fat-Tree: hosts *)

Section FatTreeHostEnds.
Variable h : Z.
Hypothesis Hh : 0 <= h.

Lemma ft_host_links_shape es : forall cnt l,
  In l (ft_host_links h cnt es) ->
  In (fst l) es
  /\ exists c, snd l = fhost_label c
               /\ cnt <= c < cnt + Z.of_nat (List.length es) * h.
Proof.
  induction es as [|sw es IH]; intros cnt l Hl; [contradiction|].
  cbn [ft_host_links] in Hl. apply in_app_or in Hl.
  cbn [List.length]. destruct Hl as [Hl|Hl].
  - apply in_map_iff in Hl. destruct Hl as (i & <- & Hi).
    apply in_xrange in Hi. cbn [fst snd].
    split; [apply in_eq|]. exists (cnt + i). split; [reflexivity|nia].
  - destruct (IH _ _ Hl) as (H1 & c & H2 & H3).
    split; [now apply in_cons|]. exists c. split; [assumption|nia].
Qed.

Lemma ft_host_links_snd es : forall cnt,
  map snd (ft_host_links h cnt es)
  = map fhost_label (xrange2 cnt (cnt + Z.of_nat (List.length es) * h)).
Proof.
  induction es as [|sw es IH]; intros cnt.
  - cbn [ft_host_links List.length Z.of_nat map].
    unfold xrange2. now replace (Z.to_nat _) with 0%nat by lia.
  - cbn [ft_host_links]. rewrite map_app, IH, map_map. cbn [snd].
    rewrite (xrange2_app cnt (cnt + h)
               (cnt + Z.of_nat (List.length (sw :: es)) * h))
      by (cbn [List.length]; nia).
    rewrite map_app. f_equal.
    + rewrite xrange2_shift, map_map. do 2 f_equal. lia.
    + do 2 f_equal. cbn [List.length]. lia.
Qed.

Lemma ft_host_links_length es cnt :
  Z.of_nat (List.length (ft_host_links h cnt es))
  = Z.of_nat (List.length es) * h.
Proof.
  rewrite <- (length_map snd), ft_host_links_snd.
  rewrite length_map, xrange2_length. nia.
Qed.

(** A host is the end of exactly one link of the host loop. *)
Lemma ft_host_links_ends_host es : forall cnt c,
  (forall sw i, In sw es -> sw <> fhost_label i) ->
  cnt <= c < cnt + Z.of_nat (List.length es) * h ->
  exists sw, In sw es
             /\ flat_map (link_ends (fhost_label c))
                         (ft_host_links h cnt es) = [sw].
Proof.
  induction es as [|sw es IH]; intros cnt c Hes Hc.
  - cbn [List.length Z.of_nat] in Hc. lia.
  - cbn [ft_host_links]. rewrite flat_map_app, flat_map_map.
    destruct (Z_lt_dec c (cnt + h)) as [Hlt|Hge].
    + exists sw. split; [apply in_eq|].
      rewrite (flat_map_single _ _ (c - cnt));
        [|apply xrange_NoDup|apply in_xrange; lia|].
      * replace (cnt + (c - cnt)) with c by lia.
        rewrite link_ends_snd by (apply Hes; apply in_eq).
        rewrite flat_map_all_nil; [reflexivity|].
        intros l Hl. apply ft_host_links_shape in Hl.
        destruct Hl as (Hf & c' & Hs & Hc').
        destruct l as [a b]. cbn [fst snd] in *. subst b.
        apply link_ends_none.
        -- apply Hes. now apply in_cons.
        -- intros E. apply fhost_label_inj in E. lia.
      * intros i Hi Hne. apply in_xrange in Hi.
        apply link_ends_none; [apply Hes; apply in_eq|].
        intros E. apply fhost_label_inj in E. lia.
    + destruct (IH (cnt + h) c) as (sw' & Hin & E).
      * intros sw0 i H0. apply Hes. now apply in_cons.
      * cbn [List.length] in Hc. lia.
      * exists sw'. split; [now apply in_cons|].
        rewrite flat_map_all_nil; [exact E|].
        intros i Hi. apply in_xrange in Hi.
        apply link_ends_none; [apply Hes; apply in_eq|].
        intros E'. apply fhost_label_inj in E'. lia.
Qed.
End FatTreeHostEnds.

(** X7.  In a valid Fat-Tree every host has degree 1, and its only
    neighbour is an edge switch. *)
Theorem fattree_host_degree (k r : Z) :
  0 < k -> k mod 2 = 0 -> 0 < r -> (k / 2) mod r = 0 ->
  exists f,
    FatTree.run (VInt k) (VInt r) = (inr tt, f)
    /\ let g := FatTree.f_self f in
       forall y, In (y, Host) (g_nodes g) ->
         exists sw, In sw (FatTree.e f) /\ neighbours g y = [sw].
Proof.
  intros Hk Heven Hr Hdiv.
  pose proof (ft_nc_nonneg k r Hk Heven Hr Hdiv) as Hnc.
  destruct (ft_half k Hk Heven) as [Hh Ek].
  exists (ft_frame k r). split; [now apply ft_run_ok|].
  unfold ft_frame, ft_frame_of, ft_graph_of. cbv zeta.
  cbn [FatTree.f_self FatTree.e g_nodes].
  set (nc := (k / 2) ^ 2 / r) in *.
  intros y Hy. apply in_app_or in Hy. destruct Hy as [Hy|Hy].
  { apply in_map_iff in Hy. destruct Hy as (x & E & _). discriminate E. }
  apply (in_map fst) in Hy. cbn [fst] in Hy.
  rewrite ft_host_nodes_labels in Hy by lia.
  apply in_map_iff in Hy. destruct Hy as (c & <- & Hc).
  apply in_xrange2 in Hc.
  destruct (ft_host_links_ends_host (k / 2) ltac:(lia)
              (ft_all_edges k nc) 1 c) as (sw & Hsw & E).
  - intros sw i Hin. unfold ft_all_edges in Hin. apply in_flat_map in Hin.
    destruct Hin as (p & _ & Hin). apply in_map_iff in Hin.
    destruct Hin as (j & <- & _). discriminate.
  - exact Hc.
  - exists sw. split; [exact Hsw|].
    unfold neighbours. cbn [g_links]. rewrite !flat_map_app, E.
    rewrite (ft_pods_ends_none k r) by (intros; discriminate).
    rewrite flat_map_all_nil; [reflexivity|].
    intros l Hl. apply ft_uplinks_shape in Hl.
    destruct Hl as (i & j & -> & _). apply link_ends_none; discriminate.
Qed.

Lemma fattree_host_degree_witness :
  exists f,
    FatTree.run (VInt 4) (VInt 2) = (inr tt, f)
    /\ forall y, In (y, Host) (g_nodes (FatTree.f_self f)) ->
         exists sw, In sw (FatTree.e f)
                    /\ neighbours (FatTree.f_self f) y = [sw].
Proof.
  exact (fattree_host_degree 4 2 ltac:(lia) ltac:(reflexivity)
           ltac:(lia) ltac:(reflexivity)).
Defined.

(** ** Fat-Tree: the link list *)

Section FatTreeLinks.
Variables k r : Z.
Hypothesis Hk : 0 < k.
Hypothesis Heven : k mod 2 = 0.
Hypothesis Hr : 0 < r.
Hypothesis Hdiv : (k / 2) mod r = 0.

Let nc := (k / 2) ^ 2 / r.
Let g := ft_graph k r.

Lemma ft_pod_links_In l :
  In l (flat_map (ft_pod_links k nc) (xrange k)) <-> ft_pod_link k nc l.
Proof.
  unfold ft_pod_link. rewrite in_flat_map. split.
  - intros (pod & Hpod & Hl). apply in_xrange in Hpod.
    unfold ft_pod_links in Hl. apply in_flat_map in Hl.
    destruct Hl as (aa & Haa & Hl). apply in_map_iff in Hl.
    destruct Hl as (ee & <- & Hee). exists pod, aa, ee. auto.
  - intros (pod & aa & ee & Hpod & Haa & Hee & ->).
    exists pod. split; [now apply in_xrange|].
    unfold ft_pod_links. apply in_flat_map. exists aa.
    split; [assumption|].
    now apply (in_map (fun ee => (aggr_label aa, edge_label ee))).
Qed.

Lemma ft_uplinks_In l : In l (ft_uplinks k r nc) <-> ft_up_link k r nc l.
Proof.
  unfold ft_up_link, ft_uplinks. rewrite in_flat_map. split.
  - intros (cn & Hcn & Hl). apply in_xrange in Hcn.
    apply in_map_iff in Hl. destruct Hl as (pod & <- & Hpod).
    apply in_xrange in Hpod. exists cn, pod. auto.
  - intros (cn & pod & Hcn & Hpod & ->). exists cn.
    split; [now apply in_xrange|].
    apply (in_map (fun pod => (core_label (cn + 1),
                               ft_uplink_target k r nc cn pod))).
    now apply in_xrange.
Qed.

Lemma ft_links_shape l :
  In l (g_links g) -> ft_pod_link k nc l \/ ft_up_link k r nc l \/ ft_host_link k nc l.
Proof.
  destruct (ft_half k Hk Heven) as [Hh Ek].
  unfold g, ft_graph, ft_graph_of. cbv zeta. cbn [g_links]. fold nc.
  intros Hl. apply in_app_or in Hl. destruct Hl as [Hl|Hl].
  { left. now apply ft_pod_links_In. }
  apply in_app_or in Hl. destruct Hl as [Hl|Hl].
  { right. left. now apply ft_uplinks_In. }
  right. right. apply ft_host_links_shape in Hl; [|lia].
  destruct Hl as (Hf & c & Hs & Hc). split; [assumption|].
  exists c. split; [assumption|].
  rewrite (ft_all_edges_length k nc Hk Heven) in Hc. lia.
Qed.

Lemma ft_pod_links_NoDup :
  NoDup (flat_map (ft_pod_links k nc) (xrange k)).
Proof.
  destruct (ft_half k Hk Heven) as [Hh Ek].
  apply NoDup_flat_map.
  - apply xrange_NoDup.
  - intros pod _. unfold ft_pod_links. apply NoDup_flat_map.
    + apply xrange2_NoDup.
    + intros aa _. apply Injective_map_NoDup; [|apply xrange2_NoDup].
      intros ee ee' [= E]. now apply str_inj.
    + intros aa aa' l _ _ Hl Hl'. apply in_map_iff in Hl, Hl'.
      destruct Hl as (ee & <- & _), Hl' as (ee' & [= E _] & _).
      symmetry. now apply str_inj.
  - intros pod pod' l _ _ Hl Hl'. unfold ft_pod_links in Hl, Hl'.
    apply in_flat_map in Hl, Hl'.
    destruct Hl as (aa & Haa & Hl), Hl' as (aa' & Haa' & Hl').
    apply in_map_iff in Hl, Hl'.
    destruct Hl as (ee & <- & _), Hl' as (ee' & [= E _] & _).
    apply str_inj in E. unfold ft_aggr_nodes in Haa, Haa'.
    apply in_xrange2 in Haa, Haa'.
    apply (ft_pod_of_number k nc Hk Heven pod pod' aa aa');
      [congruence|lia|lia].
Qed.

Lemma ft_uplinks_NoDup : NoDup (ft_uplinks k r nc).
Proof.
  unfold ft_uplinks. apply NoDup_flat_map.
  - apply xrange_NoDup.
  - intros cn _. apply Injective_map_NoDup; [|apply xrange_NoDup].
    intros pod pod' [= E]. apply str_inj in E. nia.
  - intros cn cn' l _ _ Hl Hl'. apply in_map_iff in Hl, Hl'.
    destruct Hl as (pod & <- & _), Hl' as (pod' & [= E _] & _).
    apply str_inj in E. lia.
Qed.

Lemma ft_host_links_NoDup :
  NoDup (ft_host_links (k / 2) 1 (ft_all_edges k nc)).
Proof.
  destruct (ft_half k Hk Heven) as [Hh Ek].
  apply (NoDup_map_inv snd). rewrite ft_host_links_snd by lia.
  apply Injective_map_NoDup; [|apply xrange2_NoDup].
  intros i j. apply fhost_label_inj.
Qed.

Lemma ft_links_NoDup : NoDup (g_links g).
Proof.
  unfold g, ft_graph, ft_graph_of. cbv zeta. cbn [g_links]. fold nc.
  apply NoDup_app; [apply ft_pod_links_NoDup| |].
  - apply NoDup_app; [apply ft_uplinks_NoDup|apply ft_host_links_NoDup|].
    intros l Hu Hh. apply ft_uplinks_In in Hu.
    destruct Hu as (cn & pod & _ & _ & ->).
    destruct (ft_half k Hk Heven) as [Hh' _].
    apply ft_host_links_shape in Hh; [|lia].
    destruct Hh as (_ & c & E & _). discriminate E.
  - intros l Hp Hrest. apply ft_pod_links_In in Hp.
    destruct Hp as (pod & aa & ee & _ & _ & _ & ->).
    apply in_app_or in Hrest. destruct Hrest as [Hu|Hh].
    + apply ft_uplinks_In in Hu.
      destruct Hu as (cn & pod' & _ & _ & E). discriminate E.
    + destruct (ft_half k Hk Heven) as [Hh' _].
      apply ft_host_links_shape in Hh; [|lia].
      destruct Hh as (_ & c & E & _). discriminate E.
Qed.

Lemma ft_links_length :
  Z.of_nat (List.length (g_links g))
  = k * (k / 2) * (k / 2) + nc * k + k * (k / 2) * (k / 2).
Proof.
  destruct (ft_half k Hk Heven) as [Hh Ek].
  pose proof (ft_nc_nonneg k r Hk Heven Hr Hdiv) as Hnc. fold nc in Hnc.
  unfold g, ft_graph, ft_graph_of. cbv zeta. cbn [g_links]. fold nc.
  rewrite !length_app, !Nat2Z.inj_add.
  rewrite ft_host_links_length by lia.
  rewrite (ft_all_edges_length k nc Hk Heven).
  rewrite (length_flat_map_const _ (Z.to_nat (k / 2) * Z.to_nat (k / 2))).
  - unfold ft_uplinks.
    rewrite (length_flat_map_const _ (Z.to_nat k))
      by (intros; now rewrite length_map, xrange_length).
    rewrite !xrange_length, !Nat2Z.inj_mul, !Z2Nat.id by lia. ring.
  - intros pod. unfold ft_pod_links.
    rewrite (length_flat_map_const _ (Z.to_nat (k / 2))).
    + unfold ft_aggr_nodes. rewrite xrange2_length. f_equal. lia.
    + intros aa. unfold ft_edge_nodes.
      rewrite length_map, xrange2_length. f_equal. lia.
Qed.
End FatTreeLinks.

Section FatTreeSimple.
Variables k r : Z.
Hypothesis Hk : 0 < k.
Hypothesis Heven : k mod 2 = 0.
Hypothesis Hr : 0 < r.
Hypothesis Hdiv : (k / 2) mod r = 0.

Let nc := (k / 2) ^ 2 / r.
Let g := ft_graph k r.

Lemma ft_aggr_switch pod aa :
  0 <= pod < k -> In aa (ft_aggr_nodes k nc pod) ->
  In (aggr_label aa) (ft_switches k nc).
Proof.
  intros Hpod Haa. unfold ft_switches. apply in_or_app. right.
  apply in_flat_map. exists pod. split; [now apply in_xrange|].
  unfold ft_pod_switches. apply in_or_app. left.
  unfold ft_aggrs. now apply in_map.
Qed.

Lemma ft_edge_switch pod ee :
  0 <= pod < k -> In ee (ft_edge_nodes k nc pod) ->
  In (edge_label ee) (ft_switches k nc).
Proof.
  intros Hpod Hee. unfold ft_switches. apply in_or_app. right.
  apply in_flat_map. exists pod. split; [now apply in_xrange|].
  unfold ft_pod_switches. apply in_or_app. right.
  unfold ft_edges. now apply in_map.
Qed.

Lemma ft_link_ends_nodes x y :
  In (x, y) (g_links g) -> In x (labels g) /\ In y (labels g).
Proof.
  intros Hl.
  pose proof (ft_nc_nonneg k r Hk Heven Hr Hdiv) as Hnc. fold nc in Hnc.
  unfold g, ft_graph. cbv zeta. fold nc.
  rewrite (ft_graph_labels k nc (ft_uplinks k r nc) Hk Heven).
  apply ft_links_shape in Hl; try assumption. fold nc in Hl.
  destruct Hl as [Hl|[Hl|Hl]].
  - destruct Hl as (pod & aa & ee & Hpod & Haa & Hee & [= -> ->]).
    split; apply in_or_app; left;
      [now apply (ft_aggr_switch pod)|now apply (ft_edge_switch pod)].
  - destruct Hl as (cn & pod & Hcn & Hpod & [= -> ->]).
    pose proof (ft_group_bound k r Hk Heven Hr Hdiv cn Hcn) as Hq.
    split; apply in_or_app; left.
    + unfold ft_switches. apply in_or_app. left. unfold ft_cores.
      apply (in_map (fun i => core_label (i + 1))). now apply in_xrange.
    + unfold ft_uplink_target. apply (ft_aggr_switch pod _ Hpod).
      unfold ft_aggr_nodes. apply in_xrange2. fold nc. lia.
  - destruct Hl as (Hf & c & Hs & Hc). cbn [fst snd] in Hf, Hs. subst y.
    split; apply in_or_app.
    + left. now apply ft_all_edges_switches.
    + right. apply in_map. now apply in_xrange2.
Qed.

(** Links always run from the upper layer to the lower one, so no link has
    a mirror image. *)
Lemma ft_link_not_reversed x y :
  In (x, y) (g_links g) -> ~ In (y, x) (g_links g).
Proof.
  intros Hl Hl'. apply ft_links_shape in Hl, Hl'; try assumption.
  unfold ft_pod_link, ft_up_link, ft_host_link, ft_uplink_target in *.
  unfold ft_all_edges in *.
  destruct Hl as [(p & aa & ee & _ & _ & _ & [= -> ->])
                 |[(cn & p & _ & _ & [= -> ->])
                  |(Hf & c & Hs & _)]];
    destruct Hl' as [(p' & aa' & ee' & _ & _ & _ & E)
                    |[(cn' & p' & _ & _ & E)
                     |(Hf' & c' & Hs' & _)]];
    cbn [fst snd] in *;
    try discriminate E; try discriminate Hs';
    try (injection E as E1 E2; rewrite E1 in Hs; discriminate Hs).
  subst y. apply in_flat_map in Hf'. destruct Hf' as (q & _ & Hf').
  apply in_map_iff in Hf'. destruct Hf' as (j & E & _). discriminate E.
Qed.

Lemma ft_aggr_edge_link_iff pod pod' aa ee :
  0 <= pod < k -> 0 <= pod' < k ->
  In aa (ft_aggr_nodes k nc pod) -> In ee (ft_edge_nodes k nc pod') ->
  In (aggr_label aa, edge_label ee) (g_links g) <-> pod = pod'.
Proof.
  intros Hpod Hpod' Haa Hee.
  destruct (ft_half k Hk Heven) as [Hh Ek]. split.
  - intros Hl. apply ft_links_shape in Hl; try assumption. fold nc in Hl.
    destruct Hl as [Hl|[Hl|Hl]].
    + destruct Hl as (q & aa' & ee' & Hq & Haa' & Hee' & [= Ea Ee]).
      apply str_inj in Ea, Ee. subst aa' ee'.
      unfold ft_aggr_nodes, ft_edge_nodes in *.
      apply in_xrange2 in Haa, Hee, Haa', Hee'.
      assert (pod = q)
        by (apply (ft_pod_of_number k nc Hk Heven pod q aa aa); lia).
      assert (pod' = q)
        by (apply (ft_pod_of_number k nc Hk Heven pod' q ee ee); lia).
      congruence.
    + destruct Hl as (cn & q & _ & _ & E). discriminate E.
    + destruct Hl as (_ & c & E & _). discriminate E.
  - intros <-. unfold g, ft_graph, ft_graph_of. cbv zeta. cbn [g_links].
    fold nc. apply in_or_app. left. apply ft_pod_links_In.
    exists pod, aa, ee. auto.
Qed.
End FatTreeSimple.

(** X8.  The pods of a valid Fat-Tree are wired separately and completely:
    an aggregation switch and an edge switch are linked exactly when they
    belong to the same pod. *)
Theorem fattree_pod_wiring (k r : Z) :
  0 < k -> k mod 2 = 0 -> 0 < r -> (k / 2) mod r = 0 ->
  exists f,
    FatTree.run (VInt k) (VInt r) = (inr tt, f)
    /\ let n_core := (k / 2) ^ 2 / r in
       forall pod pod' aa ee,
         0 <= pod < k -> 0 <= pod' < k ->
         n_core + k * pod + 1 <= aa < n_core + k * pod + 1 + k / 2 ->
         n_core + k * pod' + 1 + k / 2 <= ee
           < n_core + k * pod' + 1 + k / 2 + k / 2 ->
         In (aggr_label aa) (FatTree.a f)
         /\ In (edge_label ee) (FatTree.e f)
         /\ (In (aggr_label aa, edge_label ee) (g_links (FatTree.f_self f))
             <-> pod = pod').
Proof.
  intros Hk Heven Hr Hdiv. exists (ft_frame k r).
  split; [now apply ft_run_ok|]. cbv zeta.
  intros pod pod' aa ee Hpod Hpod' Haa Hee.
  assert (Ia : In aa (ft_aggr_nodes k ((k / 2) ^ 2 / r) pod))
    by (unfold ft_aggr_nodes; now apply in_xrange2).
  assert (Ie : In ee (ft_edge_nodes k ((k / 2) ^ 2 / r) pod'))
    by (unfold ft_edge_nodes; now apply in_xrange2).
  split; [|split].
  - unfold ft_frame, ft_frame_of. cbv zeta. cbn [FatTree.a].
    unfold ft_all_aggrs. apply in_flat_map. exists pod.
    split; [now apply in_xrange|]. unfold ft_aggrs. now apply in_map.
  - unfold ft_frame, ft_frame_of. cbv zeta. cbn [FatTree.e].
    unfold ft_all_edges. apply in_flat_map. exists pod'.
    split; [now apply in_xrange|]. unfold ft_edges. now apply in_map.
  - change (FatTree.f_self (ft_frame k r)) with (ft_graph k r).
    now apply ft_aggr_edge_link_iff.
Qed.

Lemma fattree_pod_wiring_witness :
  exists f,
    FatTree.run (VInt 4) (VInt 2) = (inr tt, f)
    /\ (In (aggr_label 7, edge_label 13) (g_links (FatTree.f_self f))
        <-> 1 = 2).
Proof.
  destruct (fattree_pod_wiring 4 2 ltac:(lia) ltac:(reflexivity)
              ltac:(lia) ltac:(reflexivity)) as (f & Hrun & Hw).
  exists f. split; [exact Hrun|].
  exact (proj2 (proj2 (Hw 1 2 7 13 ltac:(lia) ltac:(lia)
                         ltac:(cbn; lia) ltac:(cbn; lia)))).
Defined.

(** X9.  The graph of a valid Fat-Tree is simple: it has
    [k*(k/2)^2 + n_core*k + k^3/4] links, no link occurs twice, no link has
    a mirror image (so none is a loop), and both ends of every link are
    nodes of the graph. *)
Theorem fattree_simple_graph (k r : Z) :
  0 < k -> k mod 2 = 0 -> 0 < r -> (k / 2) mod r = 0 ->
  exists f,
    FatTree.run (VInt k) (VInt r) = (inr tt, f)
    /\ let g := FatTree.f_self f in
       Z.of_nat (List.length (g_links g))
       = k * (k / 2) ^ 2 + (k / 2) ^ 2 / r * k + k ^ 3 / 4
       /\ NoDup (g_links g)
       /\ forall x y, In (x, y) (g_links g) ->
            In x (labels g) /\ In y (labels g) /\ ~ In (y, x) (g_links g).
Proof.
  intros Hk Heven Hr Hdiv. exists (ft_frame k r).
  split; [now apply ft_run_ok|]. cbv zeta.
  change (FatTree.f_self (ft_frame k r)) with (ft_graph k r).
  split; [|split].
  - rewrite ft_links_length, ft_cube_quarter by assumption.
    rewrite Z.pow_2_r. ring.
  - now apply ft_links_NoDup.
  - intros x y Hl.
    destruct (ft_link_ends_nodes k r Hk Heven Hr Hdiv x y Hl) as [Hx Hy].
    split; [exact Hx|]. split; [exact Hy|].
    now apply ft_link_not_reversed.
Qed.

Lemma fattree_simple_graph_witness :
  exists f,
    FatTree.run (VInt 4) (VInt 2) = (inr tt, f)
    /\ Z.of_nat (List.length (g_links (FatTree.f_self f)))
       = 4 * (4 / 2) ^ 2 + (4 / 2) ^ 2 / 2 * 4 + 4 ^ 3 / 4
    /\ NoDup (g_links (FatTree.f_self f)).
Proof.
  destruct (fattree_simple_graph 4 2 ltac:(lia) ltac:(reflexivity)
              ltac:(lia) ltac:(reflexivity)) as (f & Hrun & Hlen & Hnd & _).
  exists f. auto.
Defined.

(** ** The digits of a host index *)

Section BCubeDigits.
Variable n : Z.
Hypothesis Hn : 1 <= n.

Lemma bcube_pos_components level v w :
  0 <= level -> bcube_pos n level v = bcube_pos n level w ->
  v mod n ^ level = w mod n ^ level
  /\ v / n ^ level / n = w / n ^ level / n.
Proof.
  intros Hl E. unfold bcube_pos in E.
  pose proof (pow_level_pos n Hn level Hl) as HA.
  set (A := n ^ level) in *.
  pose proof (Z.mod_pos_bound v A HA) as Hv.
  pose proof (Z.mod_pos_bound w A HA) as Hw.
  split.
  - apply (f_equal (fun x => x mod A)) in E.
    rewrite !(Z.add_comm (_ * A)), !Z.mod_add, !Z.mod_mod in E by lia.
    exact E.
  - apply (f_equal (fun x => x / A)) in E.
    rewrite !Z.div_add_l, !(Z.div_small (_ mod A)) in E by lia. lia.
Qed.

(** The switches of two levels that reach a host determine the host. *)
Lemma bcube_pos_pair_inj level level' v w :
  0 <= level < level' ->
  bcube_pos n level v = bcube_pos n level w ->
  bcube_pos n level' v = bcube_pos n level' w ->
  v = w.
Proof.
  intros Hl E E'.
  apply bcube_pos_components in E, E'; try lia.
  destruct E as [Em Ed], E' as [Em' _].
  pose proof (pow_level_pos n Hn level ltac:(lia)) as HA.
  pose proof (pow_level_pos n Hn (level' - level - 1) ltac:(lia)) as HB.
  assert (EA : n ^ level' = n ^ level * n * n ^ (level' - level - 1)).
  { replace level' with (level + 1 + (level' - level - 1)) at 1 by lia.
    now rewrite !Z.pow_add_r, Z.pow_1_r by lia. }
  rewrite EA in Em'.
  set (A := n ^ level) in *. set (B := n ^ (level' - level - 1)) in *.
  pose proof (Z.div_mod v A ltac:(lia)) as Dv.
  pose proof (Z.div_mod w A ltac:(lia)) as Dw.
  pose proof (Z.div_mod (v / A) n ltac:(lia)) as Dv'.
  pose proof (Z.div_mod (w / A) n ltac:(lia)) as Dw'.
  pose proof (Z.mod_pos_bound (v / A) n ltac:(lia)) as Bv.
  pose proof (Z.mod_pos_bound (w / A) n ltac:(lia)) as Bw.
  pose proof (Z.div_mod v (A * n * B) ltac:(nia)) as Mv.
  pose proof (Z.div_mod w (A * n * B) ltac:(nia)) as Mw.
  rewrite Ed in Dv'. rewrite Em in Dv. rewrite Em' in Mv.
  set (dv := (v / A) mod n) in *. set (dw := (w / A) mod n) in *.
  set (x := v / (A * n * B)) in *. set (y := w / (A * n * B)) in *.
  assert (Eq : v / A = w / A + (dv - dw)) by lia.
  rewrite Eq in Dv.
  assert (Ediff : A * (dv - dw) = A * (n * B * (x - y))) by lia.
  apply Z.mul_reg_l in Ediff; [|lia].
  assert (Ex : x - y = 0).
  { set (t := x - y) in *. clearbody t.
    destruct (Z.lt_trichotomy t 0) as [Ht|[Ht|Ht]]; [|exact Ht|].
    - assert (B * t <= -1) by nia. nia.
    - assert (1 <= B * t) by nia. nia. }
  rewrite Ex in Ediff. lia.
Qed.
End BCubeDigits.

(** ** The link list of BCube *)

Section BCubeStructure.
Variables k n : Z.
Hypothesis Hk : 0 <= k.
Hypothesis Hn : 1 <= n.

Let N := n ^ (k + 1).
Let g := bcube_graph k n.

Lemma bcube_links_In l :
  In l (g_links g)
  <-> exists level i j,
        0 <= level <= k /\ 0 <= i < n ^ k /\ 0 <= j < n
        /\ l = (switch_label level i,
                bcube_host n (bcube_base n level i + j * n ^ level)).
Proof.
  unfold g, bcube_graph. cbn [g_links]. rewrite in_flat_map. split.
  - intros (level & Hl & H). unfold bcube_level_links in H.
    apply in_flat_map in H. destruct H as (i & Hi & H).
    unfold bcube_switch_links, bcube_targets in H. rewrite map_map in H.
    apply in_map_iff in H. destruct H as (j & <- & Hj).
    apply in_xrange in Hl, Hi, Hj. exists level, i, j.
    repeat split; lia.
  - intros (level & i & j & Hl & Hi & Hj & ->). exists level.
    split; [apply in_xrange; lia|]. unfold bcube_level_links.
    apply in_flat_map. exists i. split; [now apply in_xrange|].
    unfold bcube_switch_links, bcube_targets. rewrite map_map.
    apply in_map_iff. exists j. split; [reflexivity|now apply in_xrange].
Qed.

(** A host is linked to the switch of a level whose position is the host's
    index with the digit of that level removed. *)
Lemma bcube_link_pos level i v :
  0 <= level <= k -> 0 <= i < n ^ k -> 0 <= v < N ->
  In (switch_label level i, bcube_host n v) (g_links g)
  <-> i = bcube_pos n level v.
Proof.
  intros Hl Hi Hv. rewrite bcube_links_In. split.
  - intros (level' & i' & j & Hl' & Hi' & Hj & E).
    apply pair_equal_spec in E. destruct E as [E1 E2].
    apply switch_label_inj in E1. destruct E1 as [<- <-].
    apply (bcube_host_inj n Hn) in E2. subst v.
    pose proof (bcube_target_inv n Hn level i j ltac:(lia) ltac:(lia)
                  ltac:(lia)) as [Hp _].
    cbv zeta in Hp. now rewrite Hp.
  - intros ->.
    destruct (bcube_pos_port k n Hk Hn level v Hl Hv) as (Hpos & Hport & Ev).
    exists level, (bcube_pos n level v), (bcube_port n level v).
    repeat split; try lia. now rewrite Ev.
Qed.

Lemma bcube_link_nodes x y :
  In (x, y) (g_links g) ->
  In (x, Switch) (g_nodes g) /\ In (y, Host) (g_nodes g).
Proof.
  intros H. apply bcube_links_In in H.
  destruct H as (level & i & j & Hl & Hi & Hj & [= -> ->]).
  unfold g, bcube_graph. cbn [g_nodes]. split; apply in_or_app.
  - right. apply in_flat_map. exists level.
    split; [apply in_xrange; lia|]. unfold bcube_level_switches.
    apply (in_map (fun i => (switch_label level i, Switch))).
    now apply in_xrange.
  - left. unfold bcube_hosts.
    apply (in_map (fun v => (bcube_host n v, Host))). apply in_xrange.
    now apply (bcube_target_bound k n Hk Hn).
Qed.

Lemma bcube_links_NoDup : NoDup (g_links g).
Proof.
  unfold g, bcube_graph. cbn [g_links]. apply NoDup_flat_map.
  - apply xrange_NoDup.
  - intros level Hl. apply in_xrange in Hl. unfold bcube_level_links.
    apply NoDup_flat_map.
    + apply xrange_NoDup.
    + intros i _. unfold bcube_switch_links, bcube_targets.
      rewrite map_map. apply Injective_map_NoDup_in; [|apply xrange_NoDup].
      intros j j' _ _ E. apply pair_equal_spec in E. destruct E as [_ E].
      apply (bcube_host_inj n Hn) in E.
      pose proof (pow_level_pos n Hn level ltac:(lia)). nia.
    + intros i i' l _ _ H H'. unfold bcube_switch_links in H, H'.
      apply in_map_iff in H, H'.
      destruct H as (v & <- & _), H' as (v' & E & _).
      apply pair_equal_spec in E. destruct E as [E _].
      apply switch_label_inj in E. now destruct E.
  - intros level level' l _ _ H H'. unfold bcube_level_links in H, H'.
    apply in_flat_map in H, H'.
    destruct H as (i & _ & H), H' as (i' & _ & H').
    unfold bcube_switch_links in H, H'. apply in_map_iff in H, H'.
    destruct H as (v & <- & _), H' as (v' & E & _).
    apply pair_equal_spec in E. destruct E as [E _].
    apply switch_label_inj in E. now destruct E.
Qed.

Lemma bcube_links_length :
  Z.of_nat (List.length (g_links g)) = (k + 1) * N.
Proof.
  pose proof (pow_level_pos n Hn k Hk) as HK.
  unfold g, bcube_graph. cbn [g_links].
  rewrite (length_flat_map_const _ (Z.to_nat (n ^ k) * Z.to_nat n)%nat).
  - rewrite xrange_length, !Nat2Z.inj_mul, !Z2Nat.id by lia.
    unfold N. rewrite (pow_plus1 n k Hk). ring.
  - intros level. unfold bcube_level_links.
    rewrite (length_flat_map_const _ (Z.to_nat n)).
    + now rewrite xrange_length.
    + intros i. unfold bcube_switch_links, bcube_targets.
      now rewrite !length_map, xrange_length.
Qed.
End BCubeStructure.

(** X10.  BCube addressing: in the graph built for valid [(k, n)], the host
    at positional index [v] is linked to the switch at position [i] of level
    [l] exactly when [i] is [v] with its base-[n] digit [l] removed, that is
    [i = (v div n^(l+1)) * n^l + v mod n^l]. *)
Theorem bcube_host_switch_link (k n level i v : Z) :
  0 <= k -> 1 <= n -> 0 <= level <= k -> 0 <= i < n ^ k ->
  0 <= v < n ^ (k + 1) ->
  exists g,
    BCube.run (VInt k) (VInt n) = (inr tt, g)
    /\ node_at g v = host_label (v / n) (v mod n)
    /\ (In (switch_label level i, node_at g v) (g_links g)
        <-> i = v / n ^ (level + 1) * n ^ level + v mod n ^ level).
Proof.
  intros Hk Hn Hl Hi Hv. exists (bcube_graph k n).
  split; [now apply bcube_run_ok|].
  rewrite bcube_node_at by assumption.
  split; [reflexivity|].
  rewrite bcube_link_pos by assumption. unfold bcube_pos.
  pose proof (pow_level_pos n Hn level ltac:(lia)) as HA.
  rewrite Z.div_div by lia.
  rewrite (pow_plus1 n level) by lia.
  now rewrite (Z.mul_comm n).
Qed.

Lemma bcube_host_switch_link_witness :
  exists g,
    BCube.run (VInt 2) (VInt 3) = (inr tt, g)
    /\ node_at g 14 = host_label (14 / 3) (14 mod 3)
    /\ (In (switch_label 1 5, node_at g 14) (g_links g)
        <-> 5 = 14 / 3 ^ (1 + 1) * 3 ^ 1 + 14 mod 3 ^ 1).
Proof.
  apply (bcube_host_switch_link 2 3 1 5 14); cbn; lia.
Defined.

(** X11.  Two different switches of a BCube have at most one host in
    common, and two different switches of the same level have none. *)
Theorem bcube_switches_share_one_host (k n level i level' i' : Z) :
  0 <= k -> 1 <= n ->
  0 <= level <= k -> 0 <= i < n ^ k ->
  0 <= level' <= k -> 0 <= i' < n ^ k ->
  (level, i) <> (level', i') ->
  exists g,
    BCube.run (VInt k) (VInt n) = (inr tt, g)
    /\ let sw := switch_label level i in
       let sw' := switch_label level' i' in
       (forall x y,
          In x (neighbours g sw) -> In x (neighbours g sw') ->
          In y (neighbours g sw) -> In y (neighbours g sw') -> x = y)
       /\ (level = level' ->
           forall x, In x (neighbours g sw) -> ~ In x (neighbours g sw')).
Proof.
  intros Hk Hn Hl Hi Hl' Hi' Hne. exists (bcube_graph k n).
  split; [now apply bcube_run_ok|]. cbv zeta.
  rewrite !bcube_neighbours_switch by assumption.
  assert (Hpos : forall l p x,
            0 <= l <= k -> 0 <= p < n ^ k ->
            In x (map (bcube_host n) (bcube_targets n l p)) ->
            exists v, x = bcube_host n v /\ bcube_pos n l v = p).
  { intros l p x Hlb Hp Hx. apply in_map_iff in Hx.
    destruct Hx as (v & <- & Hv). unfold bcube_targets in Hv.
    apply in_map_iff in Hv. destruct Hv as (j & <- & Hj).
    apply in_xrange in Hj. eexists. split; [reflexivity|].
    pose proof (bcube_target_inv n Hn l p j ltac:(lia) ltac:(lia)
                  ltac:(lia)) as [Hp' _].
    exact Hp'. }
  split.
  - intros x y Hx Hx' Hy Hy'.
    apply (Hpos level i) in Hx, Hy; try assumption.
    apply (Hpos level' i') in Hx', Hy'; try assumption.
    destruct Hx as (v & -> & Pv), Hx' as (v' & Ev & Pv').
    destruct Hy as (w & -> & Pw), Hy' as (w' & Ew & Pw').
    apply (bcube_host_inj n Hn) in Ev, Ew. subst v' w'.
    f_equal.
    destruct (Z.lt_trichotomy level level') as [Hlt|[Heq|Hgt]].
    + apply (bcube_pos_pair_inj n Hn level level'); [lia|congruence..].
    + exfalso. apply Hne. subst level'. f_equal. congruence.
    + apply (bcube_pos_pair_inj n Hn level' level); [lia|congruence..].
  - intros <- x Hx Hx'.
    apply (Hpos level i) in Hx; try assumption.
    apply (Hpos level i') in Hx'; try assumption.
    destruct Hx as (v & -> & Pv), Hx' as (v' & Ev & Pv').
    apply (bcube_host_inj n Hn) in Ev. subst v'.
    apply Hne. f_equal. congruence.
Qed.

Lemma bcube_switches_share_one_host_witness :
  exists g,
    BCube.run (VInt 1) (VInt 2) = (inr tt, g)
    /\ forall x y,
         In x (neighbours g (switch_label 0 1)) ->
         In x (neighbours g (switch_label 1 0)) ->
         In y (neighbours g (switch_label 0 1)) ->
         In y (neighbours g (switch_label 1 0)) -> x = y.
Proof.
  destruct (bcube_switches_share_one_host 1 2 0 1 1 0
              ltac:(lia) ltac:(lia) ltac:(lia) ltac:(cbn; lia)
              ltac:(lia) ltac:(cbn; lia) ltac:(discriminate))
    as (g & Hrun & Hone & _).
  exists g. split; [exact Hrun|exact Hone].
Defined.

(** X12.  The graph of a valid BCube is simple and bipartite: it has
    [(k+1) * n^(k+1)] links, no link occurs twice, every link leads from a
    switch node to a host node, and no link has a mirror image. *)
Theorem bcube_simple_graph (k n : Z) :
  0 <= k -> 1 <= n ->
  exists g,
    BCube.run (VInt k) (VInt n) = (inr tt, g)
    /\ Z.of_nat (List.length (g_links g)) = (k + 1) * n ^ (k + 1)
    /\ NoDup (g_links g)
    /\ forall x y, In (x, y) (g_links g) ->
         In (x, Switch) (g_nodes g) /\ In (y, Host) (g_nodes g)
         /\ ~ In (y, x) (g_links g).
Proof.
  intros Hk Hn. exists (bcube_graph k n).
  split; [now apply bcube_run_ok|].
  split; [now apply bcube_links_length|].
  split; [now apply bcube_links_NoDup|].
  intros x y Hl.
  destruct (bcube_link_nodes k n Hk Hn x y Hl) as [Hx Hy].
  split; [exact Hx|]. split; [exact Hy|].
  intros Hl'. apply bcube_links_In in Hl, Hl'.
  destruct Hl as (l & i & j & _ & _ & _ & E).
  destruct Hl' as (l' & i' & j' & _ & _ & _ & E').
  apply pair_equal_spec in E, E'. destruct E as [_ Ey], E' as [Ey' _].
  rewrite Ey in Ey'. unfold bcube_host in Ey'.
  now apply host_switch_label in Ey'.
Qed.

Lemma bcube_simple_graph_witness :
  exists g,
    BCube.run (VInt 2) (VInt 3) = (inr tt, g)
    /\ Z.of_nat (List.length (g_links g)) = (2 + 1) * 3 ^ (2 + 1)
    /\ NoDup (g_links g).
Proof.
  destruct (bcube_simple_graph 2 3 ltac:(lia) ltac:(lia))
    as (g & Hrun & Hlen & Hnd & _).
  exists g. auto.
Defined.

(** ** Failures *)

(** X13.  Neither constructor fails after its validation.  A failing
    [BCubeTopo] raised [TypeError] or [ValueError]; a failing [FatTreeTopo]
    raised [TypeError] (a parameter is not an integer), [ZeroDivisionError]
    ([r = 0]) or [ValueError] ([r] does not divide [k // 2], or [k] is not
    a positive even number); [IndexError] and the graph's own
    [UnknownNodeError] never occur.  In every case the graph is empty, and
    so are the four switch lists of [FatTreeTopo]. *)
Theorem generators_fail_in_validation_only :
  (forall kv nv (f0 : BCube.frame) err,
     fst (BCube.init kv nv f0) = inl err ->
     (err = TypeError \/ err = ValueError)
     /\ BCube.f_self (snd (BCube.init kv nv f0)) = empty_topo)
  /\ (forall kv rv (f0 : FatTree.frame) err,
        fst (FatTree.init kv rv f0) = inl err ->
        let f := snd (FatTree.init kv rv f0) in
        (err = TypeError /\ isinstance_int kv && isinstance_int rv = false
         \/ err = ZeroDivisionError /\ (exists k, kv = VInt k /\ rv = VInt 0)
         \/ err = ValueError
            /\ exists k r, kv = VInt k /\ rv = VInt r /\ r <> 0
                 /\ ((k / 2) mod r <> 0 \/ k < 1 \/ k mod 2 = 1))
        /\ FatTree.f_self f = empty_topo
        /\ FatTree.c f = [] /\ FatTree.a f = []
        /\ FatTree.e f = [] /\ FatTree.s f = []).
Proof.
  split.
  - intros kv nv f0 err Hrun.
    destruct (isinstance_int kv && isinstance_int nv) eqn:Ty.
    + destruct kv as [k| |], nv as [n| |]; try discriminate Ty.
      destruct (Z_lt_dec n 1) as [Hn|Hn].
      { rewrite bcube_init_range_error in * by auto.
        injection Hrun as <-. split; [now right|reflexivity]. }
      destruct (Z_lt_dec k 0) as [Hk|Hk].
      { rewrite bcube_init_range_error in * by auto.
        injection Hrun as <-. split; [now right|reflexivity]. }
      rewrite bcube_init_ok in Hrun by lia. discriminate Hrun.
    + rewrite bcube_init_type_error in * by assumption.
      injection Hrun as <-. split; [now left|reflexivity].
  - intros kv rv f0 err Hrun. cbv zeta.
    destruct (isinstance_int kv && isinstance_int rv) eqn:Ty.
    + destruct kv as [k| |], rv as [r| |]; try discriminate Ty.
      destruct (Z.eq_dec r 0) as [->|Hr].
      { rewrite ft_init_zero_ratio in *. injection Hrun as <-.
        split; [|now repeat split]. right. left. eauto. }
      assert (Hval : forall P : (k / 2) mod r <> 0 \/ k < 1 \/ k mod 2 = 1,
                 FatTree.init (VInt k) (VInt r) f0
                 = (inl ValueError, ft_failed f0))
        by (intros P; now apply ft_init_range_error).
      destruct (Z.eq_dec ((k / 2) mod r) 0) as [Hdiv|Hdiv].
      2:{ rewrite Hval in * by auto. injection Hrun as <-.
          split; [|now repeat split]. right. right.
          split; [reflexivity|]. exists k, r. repeat split; auto. }
      destruct (Z_lt_dec k 1) as [Hk|Hk].
      { rewrite Hval in * by auto. injection Hrun as <-.
        split; [|now repeat split]. right. right.
        split; [reflexivity|]. exists k, r. repeat split; auto. }
      destruct (Z.eq_dec (k mod 2) 1) as [Hodd|Hodd].
      { rewrite Hval in * by auto. injection Hrun as <-.
        split; [|now repeat split]. right. right.
        split; [reflexivity|]. exists k, r. repeat split; auto. }
      pose proof (Z.mod_pos_bound k 2 ltac:(lia)) as Hb.
      destruct (ft_init_accepts k r f0 ltac:(lia) ltac:(lia) Hr Hdiv)
        as [f Hf].
      rewrite Hf in Hrun. discriminate Hrun.
    + rewrite ft_init_type_error in * by assumption.
      injection Hrun as <-. split; [|now repeat split]. now left.
Qed.

Lemma generators_fail_in_validation_only_witness :
  ((ValueError = TypeError \/ ValueError = ValueError)
   /\ BCube.f_self (snd (BCube.init (VInt 1) (VInt 0) BCube.frame0))
      = empty_topo)
  /\ FatTree.s (snd (FatTree.init (VInt 6) (VInt 2) FatTree.frame0)) = [].
Proof.
  split.
  - apply (proj1 generators_fail_in_validation_only
             (VInt 1) (VInt 0) BCube.frame0 ValueError).
    reflexivity.
  - apply (proj2 generators_fail_in_validation_only
             (VInt 6) (VInt 2) FatTree.frame0 ValueError).
    reflexivity.
Defined.

(** ** Walks *)






(** ** Routing in BCube *)


Section BCubeRoute.
Variables k n : Z.
Hypothesis Hk : 0 <= k.
Hypothesis Hn : 1 <= n.
Variables v w : Z.

Let N := n ^ (k + 1).
Let g := bcube_graph k n.

Hypothesis Hv : 0 <= v < N.
Hypothesis Hw : 0 <= w < N.







End BCubeRoute.

Section BCubeConnected.
Variables k n : Z.
Hypothesis Hk : 0 <= k.
Hypothesis Hn : 1 <= n.

Let N := n ^ (k + 1).
Let g := bcube_graph k n.


End BCubeConnected.



(** ** Walks in the Fat-Tree *)

Section FatTreeConnected.
Variables k r : Z.
Hypothesis Hk : 0 < k.
Hypothesis Heven : k mod 2 = 0.
Hypothesis Hr : 0 < r.
Hypothesis Hdiv : (k / 2) mod r = 0.

Let nc := (k / 2) ^ 2 / r.
Let g := ft_graph k r.









End FatTreeConnected.



(** ** The hosts of an edge switch *)

Lemma link_neighbour (g : Topo) a x :
  In (a, x) (g_links g) -> In a (neighbours g x).
Proof.
  intros H. unfold neighbours. apply in_flat_map. exists (a, x).
  split; [exact H|]. unfold link_ends. cbn [fst snd].
  apply in_or_app. right. rewrite String.eqb_refl. apply in_eq.
Qed.

(** The [q]-th edge switch gets the [q]-th block of [h] host numbers. *)
Lemma ft_host_links_nth (h : Z) (es : list string) :
  forall cnt q sw i,
    nth_error es q = Some sw -> 0 <= i < h ->
    In (sw, fhost_label (cnt + Z.of_nat q * h + i)) (ft_host_links h cnt es).
Proof.
  induction es as [|x es IH]; intros cnt q sw i Hq Hi.
  - destruct q; discriminate Hq.
  - cbn [ft_host_links]. apply in_or_app. destruct q as [|q].
    + injection Hq as ->. left.
      replace (cnt + Z.of_nat 0 * h + i) with (cnt + i) by lia.
      apply (in_map (fun i => (sw, fhost_label (cnt + i)))).
      now apply in_xrange.
    + right. cbn [nth_error] in Hq.
      replace (cnt + Z.of_nat (S q) * h + i)
        with (cnt + h + Z.of_nat q * h + i) by lia.
      now apply IH.
Qed.

Section FatTreeHostsOfEdge.
Variables k r : Z.
Hypothesis Hk : 0 < k.
Hypothesis Heven : k mod 2 = 0.
Hypothesis Hr : 0 < r.
Hypothesis Hdiv : (k / 2) mod r = 0.

Let nc := (k / 2) ^ 2 / r.
Let g := ft_graph k r.

Lemma ft_all_edges_nth pod j :
  0 <= pod < k -> 0 <= j < k / 2 ->
  nth_error (ft_all_edges k nc)
            (Z.to_nat pod * Z.to_nat (k / 2) + Z.to_nat j)
  = Some (edge_label (nc + k * pod + 1 + k / 2 + j)).
Proof.
  intros Hpod Hj. unfold ft_all_edges.
  rewrite (nth_error_flat_map_blocks (ft_edges k nc) (Z.to_nat (k / 2)))
    by (try apply ft_edges_length; lia).
  unfold ft_edges, ft_edge_nodes.
  replace (Z.to_nat j)
    with (Z.to_nat (nc + k * pod + 1 + k / 2 + j
                    - (nc + k * pod + 1 + k / 2))) by (f_equal; lia).
  apply nth_error_map_xrange2. lia.
Qed.

Lemma ft_host_node c :
  1 <= c < 1 + k * (k / 2) * (k / 2) -> In (fhost_label c, Host) (g_nodes g).
Proof.
  intros Hc. destruct (ft_half k Hk Heven) as [Hh _].
  unfold g, ft_graph, ft_graph_of. cbv zeta. cbn [g_nodes]. fold nc.
  apply in_or_app. right.
  assert (Hin : In (fhost_label c)
                   (map fst (ft_host_nodes (k / 2) 1 (ft_all_edges k nc)))).
  { rewrite ft_host_nodes_labels by lia.
    rewrite (ft_all_edges_length k nc Hk Heven).
    apply in_map. apply in_xrange2. lia. }
  apply in_map_iff in Hin. destruct Hin as ([x kd] & E & Hin).
  cbn [fst] in E. subst x.
  pose proof (ft_host_nodes_kind _ _ _ _ Hin) as Hkd. cbn [snd] in Hkd.
  now subst kd.
Qed.

Lemma ft_host_neighbour c :
  1 <= c < 1 + k * (k / 2) * (k / 2) ->
  exists sw, In sw (ft_all_edges k nc) /\ neighbours g (fhost_label c) = [sw].
Proof.
  intros Hc. destruct (ft_half k Hk Heven) as [Hh _].
  destruct (ft_host_links_ends_host (k / 2) ltac:(lia)
              (ft_all_edges k nc) 1 c) as (sw & Hsw & E).
  - intros sw i Hin. unfold ft_all_edges in Hin. apply in_flat_map in Hin.
    destruct Hin as (p & _ & Hin). apply in_map_iff in Hin.
    destruct Hin as (j & <- & _). discriminate.
  - rewrite (ft_all_edges_length k nc Hk Heven). lia.
  - exists sw. split; [exact Hsw|].
    unfold neighbours, g, ft_graph, ft_graph_of. cbv zeta. cbn [g_links].
    fold nc. rewrite !flat_map_app, E.
    rewrite (ft_pods_ends_none k r) by (intros; discriminate).
    rewrite flat_map_all_nil; [reflexivity|].
    intros l Hl. apply ft_uplinks_shape in Hl.
    destruct Hl as (i & j & -> & _). apply link_ends_none; discriminate.
Qed.

Lemma ft_host_of_edge pod j i :
  0 <= pod < k -> 0 <= j < k / 2 -> 0 <= i < k / 2 ->
  neighbours g (fhost_label (1 + (pod * (k / 2) + j) * (k / 2) + i))
  = [edge_label (nc + k * pod + 1 + k / 2 + j)].
Proof.
  intros Hpod Hj Hi. destruct (ft_half k Hk Heven) as [Hh _].
  set (c := 1 + (pod * (k / 2) + j) * (k / 2) + i).
  assert (Hc : 1 <= c < 1 + k * (k / 2) * (k / 2)) by (unfold c; nia).
  destruct (ft_host_neighbour c Hc) as (sw & _ & E). rewrite E.
  assert (Hin : In (edge_label (nc + k * pod + 1 + k / 2 + j))
                   (neighbours g (fhost_label c))).
  { apply link_neighbour. unfold g, ft_graph, ft_graph_of. cbv zeta.
    cbn [g_links]. fold nc. apply in_or_app. right. apply in_or_app. right.
    pose proof (ft_host_links_nth (k / 2) (ft_all_edges k nc) 1
                  (Z.to_nat pod * Z.to_nat (k / 2) + Z.to_nat j)
                  _ i (ft_all_edges_nth pod j Hpod Hj) Hi) as H.
    replace (1 + Z.of_nat (Z.to_nat pod * Z.to_nat (k / 2) + Z.to_nat j)
                 * (k / 2) + i) with c in H; [exact H|].
    unfold c. rewrite Nat2Z.inj_add, Nat2Z.inj_mul, !Z2Nat.id by lia.
    reflexivity. }
  rewrite E in Hin. destruct Hin as [->|[]]. reflexivity.
Qed.
End FatTreeHostsOfEdge.

(** X16.  Host numbering of the Fat-Tree: hosts are numbered from 1 in the
    creation order of the edge switches, [k/2] to a switch, so host number
    [1 + (pod * (k/2) + j) * (k/2) + i] is a host node whose only neighbour
    is the [j]-th edge switch of pod [pod]. *)
Theorem fattree_host_attachment (k r pod j i : Z) :
  0 < k -> k mod 2 = 0 -> 0 < r -> (k / 2) mod r = 0 ->
  0 <= pod < k -> 0 <= j < k / 2 -> 0 <= i < k / 2 ->
  exists f,
    FatTree.run (VInt k) (VInt r) = (inr tt, f)
    /\ let g := FatTree.f_self f in
       let n_core := (k / 2) ^ 2 / r in
       let sw := edge_label (n_core + k * pod + 1 + k / 2 + j) in
       let host := fhost_label (1 + (pod * (k / 2) + j) * (k / 2) + i) in
       In sw (FatTree.e f)
       /\ In (host, Host) (g_nodes g)
       /\ neighbours g host = [sw].
Proof.
  intros Hk Heven Hr Hdiv Hpod Hj Hi. exists (ft_frame k r).
  split; [now apply ft_run_ok|]. cbv zeta.
  destruct (ft_half k Hk Heven) as [Hh _].
  split; [|split].
  - unfold ft_frame, ft_frame_of. cbv zeta. cbn [FatTree.e].
    eapply nth_error_In. now apply (ft_all_edges_nth k r pod j).
  - change (FatTree.f_self (ft_frame k r)) with (ft_graph k r).
    apply ft_host_node; try assumption. nia.
  - change (FatTree.f_self (ft_frame k r)) with (ft_graph k r).
    now apply ft_host_of_edge.
Qed.

Lemma fattree_host_attachment_witness :
  exists f,
    FatTree.run (VInt 4) (VInt 1) = (inr tt, f)
    /\ In (edge_label 16) (FatTree.e f)
    /\ In (fhost_label 12, Host) (g_nodes (FatTree.f_self f))
    /\ neighbours (FatTree.f_self f) (fhost_label 12) = [edge_label 16].
Proof.
  exact (fattree_host_attachment 4 1 2 1 1 ltac:(lia) ltac:(reflexivity)
           ltac:(lia) ltac:(reflexivity) ltac:(lia) ltac:(cbn; lia)
           ltac:(cbn; lia)).
Defined.
